(** * chessbot-arena: rules engine, apply boundary and two of the bots

    A shallow embedding of
    - [src/chess/gameState.js]        (pieces, initial board, game state),
    - [src/chess/moveValidation.js]   (move validation, attack and check
                                       detection, repetition),
    - [src/App.jsx]                   ([executeMove], [handleMove]),
    - [src/bots/grok-3-mini.js]       (module [Grok]),
    - [src/bots/claude-opus-4-20250514.js] (module [Opus]),
    followed by the properties established about them.

    The board is the JavaScript array of arrays [board[row][col]].  The
    arena draws it horizontally: White starts on columns 0 and 1, Black on
    columns 6 and 7, and pawns advance along [col].

    JavaScript raises a [TypeError] when a property of [undefined] or
    [null] is read or written ([board[8][0]], [null.type]).  Functions
    that can do so return a [result]. *)

From Stdlib Require Import ZArith Bool Lia String Ascii.
From stdpp Require Import base list gmap strings.

Local Open Scope Z_scope.

(** ** Exceptions *)

Inductive result (A : Type) : Type :=
| Ok (a : A)
| TypeError
| OutOfFuel.
Arguments Ok {A} a.
Arguments TypeError {A}.
Arguments OutOfFuel {A}.

Definition rbind {A B} (m : result A) (k : A -> result B) : result B :=
  match m with
  | Ok a => k a
  | TypeError => TypeError
  | OutOfFuel => OutOfFuel
  end.

Notation "x <- m ; k" := (rbind m (fun x => k))
  (at level 20, m at level 100, k at level 200, only parsing).
Notation "' pat <- m ; k" := (rbind m (fun x => match x with pat => k end))
  (at level 20, pat pattern, m at level 100, k at level 200, only parsing).

(** [for (const x of l) if (f x) return true; return false] *)
Fixpoint anyM {A} (f : A -> result bool) (l : list A) : result bool :=
  match l with
  | [] => Ok false
  | x :: l' => b <- f x; if b then Ok true else anyM f l'
  end.

(** [for (const x of l) out.push(...f x)]: the loops that collect moves. *)
Fixpoint concatMapM {A B} (f : A -> result (list B)) (l : list A)
  : result (list B) :=
  match l with
  | [] => Ok []
  | x :: l' =>
      ys <- f x;
      rest <- concatMapM f l';
      Ok (ys ++ rest)
  end.

(** ** gameState.js *)

Inductive PieceType := King | Queen | Rook | Bishop | Knight | Pawn.
Inductive Color := White | Black.

Record Piece := { type : PieceType; color : Color }.

Record Square := { row : Z; col : Z }.

Record Move := { from : Square; to : Square }.

Definition PieceType_eqb (a b : PieceType) : bool :=
  match a, b with
  | King, King | Queen, Queen | Rook, Rook
  | Bishop, Bishop | Knight, Knight | Pawn, Pawn => true
  | _, _ => false
  end.

Definition Color_eqb (a b : Color) : bool :=
  match a, b with
  | White, White | Black, Black => true
  | _, _ => false
  end.

Definition opposite (c : Color) : Color :=
  match c with White => Black | Black => White end.

Definition PIECE_VALUES (t : PieceType) : Z :=
  match t with
  | Pawn => 1 | Knight => 3 | Bishop => 3 | Rook => 5 | Queen => 9 | King => 0
  end.

(** A cell holds a piece or [null]. *)
Abbreviation Board := (list (list (option Piece))).

Definition mk (t : PieceType) (c : Color) : option Piece :=
  Some {| type := t; color := c |}.

Definition backRank : list PieceType :=
  [Rook; Knight; Bishop; Queen; King; Bishop; Knight; Rook].

Definition createInitialBoard : Board :=
  map (fun t => [mk t White; mk Pawn White; None; None; None; None;
                 mk Pawn Black; mk t Black]) backRank.

Record CastlingRights := {
  whiteKingSide : bool;
  whiteQueenSide : bool;
  blackKingSide : bool;
  blackQueenSide : bool
}.

Inductive GameStatus := Playing | Check | Checkmate | Stalemate | Draw.

(** An entry of [moveHistory].  [executeMove] records every field; the
    bots append bare [{from, to}] moves, whose other fields are absent. *)
Record HistoryEntry := {
  move : Move;
  piece : option Piece;
  captured : option Piece;
  enPassantCaptured : option Piece;
  castlingRookMove : option Move;
  promotion : option PieceType
}.

Definition bare (m : Move) : HistoryEntry :=
  {| move := m; piece := None; captured := None; enPassantCaptured := None;
     castlingRookMove := None; promotion := None |}.

Record GameState := {
  board : Board;
  currentTurn : Color;
  capturedWhite : list Piece;       (* capturedPieces[COLORS.WHITE] *)
  capturedBlack : list Piece;       (* capturedPieces[COLORS.BLACK] *)
  gameStatus : GameStatus;
  whitePlayer : string;
  blackPlayer : string;
  castlingRights : CastlingRights;
  enPassantTarget : option Square;
  moveHistory : list HistoryEntry;
  positionHistory : list string
}.

(** [createGameState]; the two players are drawn at random in the source
    and are arguments here. *)
Definition createGameState (white black : string) : GameState :=
  {| board := createInitialBoard;
     currentTurn := White;
     capturedWhite := [];
     capturedBlack := [];
     gameStatus := Playing;
     whitePlayer := white;
     blackPlayer := black;
     castlingRights :=
       {| whiteKingSide := true; whiteQueenSide := true;
          blackKingSide := true; blackQueenSide := true |};
     enPassantTarget := None;
     moveHistory := [];
     positionHistory := [] |}.

(** ** Array access *)

(** [a[i]] for an integer [i]; [None] stands for [undefined]. *)
Definition index {A} (a : list A) (i : Z) : option A :=
  if i <? 0 then None else a !! Z.to_nat i.

(** [board[row][col]]: a [TypeError] when [board[row]] is [undefined];
    an [undefined] cell reads as empty, like [null]. *)
Definition cell (b : Board) (r c : Z) : result (option Piece) :=
  match index b r with
  | None => TypeError
  | Some line =>
      Ok (match index line c with Some p => p | None => None end)
  end.

(** [line[c] = v].  Writing past the end extends the array; the skipped
    indices read as [undefined].  A negative index creates a property
    that is not an element, which the model drops. *)
Definition setIndex (line : list (option Piece)) (c : Z) (v : option Piece)
  : list (option Piece) :=
  if c <? 0 then line
  else if c <? Z.of_nat (length line) then <[Z.to_nat c := v]> line
  else line ++ replicate (Z.to_nat c - length line) None ++ [v].

(** [board[row][col] = v] on a copy of the board. *)
Definition setCell (b : Board) (r c : Z) (v : option Piece) : result Board :=
  match index b r with
  | None => TypeError
  | Some line => Ok (<[Z.to_nat r := setIndex line c v]> b)
  end.

Definition at_ (b : Board) (s : Square) : result (option Piece) :=
  cell b (row s) (col s).

(** The 64 squares in the order of the nested loops
    [for row in 0..7, for col in 0..7]. *)
Definition range8 : list Z := [0; 1; 2; 3; 4; 5; 6; 7].

Definition allSquares : list Square :=
  r ← range8; c ← range8; [{| row := r; col := c |}].

(** JavaScript truthiness of a cell. *)
Definition truthy {A} (o : option A) : bool :=
  match o with Some _ => true | None => false end.

(** ** moveValidation.js *)

(** The [while (row !== to.row || col !== to.col)] loop of [isPathClear].
    [fuel] bounds the number of iterations. *)
Fixpoint isPathClear_loop (fuel : nat) (board : Board) (to : Square)
    (rowStep colStep r c : Z) : result bool :=
  if negb (r =? row to) || negb (c =? col to) then
    match fuel with
    | O => OutOfFuel
    | S fuel' =>
        p <- cell board r c;
        if truthy p then Ok false
        else isPathClear_loop fuel' board to rowStep colStep
               (r + rowStep) (c + colStep)
    end
  else Ok true.

(** The loop reads one row further at each step when [rowStep] is not
    zero, so it leaves the board (and throws) after at most
    [length board] steps; when [rowStep] is zero it reaches [to.col]
    after [|to.col - from.col|] steps. *)
Definition isPathClear (board : Board) (from to : Square) : result bool :=
  let rowStep := if row to >? row from then 1
                 else if row to <? row from then -1 else 0 in
  let colStep := if col to >? col from then 1
                 else if col to <? col from then -1 else 0 in
  isPathClear_loop (Z.to_nat (Z.abs (col to - col from)) + length board + 1)
    board to rowStep colStep (row from + rowStep) (col from + colStep).

Definition isValidKnightMove (rowDiff colDiff : Z) : bool :=
  ((Z.abs rowDiff =? 2) && (Z.abs colDiff =? 1))
  || ((Z.abs rowDiff =? 1) && (Z.abs colDiff =? 2)).

Definition canPieceAttackSquare (board : Board) (from to : Square)
    (piece : Piece) : result bool :=
  let rowDiff := row to - row from in
  let colDiff := col to - col from in
  match type piece with
  | Pawn =>
      let direction := match color piece with White => 1 | Black => -1 end in
      Ok ((colDiff =? direction) && (Z.abs rowDiff =? 1))
  | Rook =>
      if (rowDiff =? 0) || (colDiff =? 0)
      then isPathClear board from to else Ok false
  | Bishop =>
      if Z.abs rowDiff =? Z.abs colDiff
      then isPathClear board from to else Ok false
  | Knight => Ok (isValidKnightMove rowDiff colDiff)
  | Queen =>
      if ((rowDiff =? 0) || (colDiff =? 0))
         || (Z.abs rowDiff =? Z.abs colDiff)
      then isPathClear board from to else Ok false
  | King => Ok ((Z.abs rowDiff <=? 1) && (Z.abs colDiff <=? 1))
  end.

Definition isSquareUnderAttack (board : Board) (square : Square)
    (attackingColor : Color) : result bool :=
  anyM (fun from =>
          p <- at_ board from;
          match p with
          | Some piece =>
              if Color_eqb (color piece) attackingColor
              then canPieceAttackSquare board from square piece
              else Ok false
          | None => Ok false
          end) allSquares.

Definition isValidPawnMove (board : Board) (from to : Square)
    (rowDiff colDiff : Z) (color : Color) (gameState : GameState)
  : result bool :=
  let direction := match color with White => 1 | Black => -1 end in
  let startCol := match color with White => 1 | Black => 6 end in
  toPiece <- at_ board to;
  if rowDiff =? 0 then
    if truthy toPiece then Ok false
    else if colDiff =? direction then Ok true
    else if (col from =? startCol) && (colDiff =? 2 * direction) then
      let middleCol := col from + direction in
      middle <- cell board (row from) middleCol;
      if truthy middle then Ok false else Ok true
    else Ok false
  else if (Z.abs rowDiff =? 1) && (colDiff =? direction) then
    if truthy toPiece then Ok true
    else match enPassantTarget gameState with
         | Some target =>
             if (row target =? row to) && (col target =? col to)
             then Ok true else Ok false
         | None => Ok false
         end
  else Ok false.

Definition isValidRookMove (board : Board) (from to : Square)
    (rowDiff colDiff : Z) : result bool :=
  if negb (rowDiff =? 0) && negb (colDiff =? 0) then Ok false
  else isPathClear board from to.

Definition isValidBishopMove (board : Board) (from to : Square)
    (rowDiff colDiff : Z) : result bool :=
  if negb (Z.abs rowDiff =? Z.abs colDiff) then Ok false
  else isPathClear board from to.

Definition isValidQueenMove (board : Board) (from to : Square)
    (rowDiff colDiff : Z) : result bool :=
  r <- isValidRookMove board from to rowDiff colDiff;
  if r then Ok true else isValidBishopMove board from to rowDiff colDiff.

(** [newBoard[to.row][to.col] = newBoard[from.row][from.col];
     newBoard[from.row][from.col] = null] on a copy of the board: the
    body shared by [makeMove], the test board of [isValidKingMove] and
    the bots' [applyMoveToBoard] / [makeTestMove]. *)
Definition makeMove (board : Board) (from to : Square) : result Board :=
  moving <- at_ board from;
  b1 <- setCell board (row to) (col to) moving;
  setCell b1 (row from) (col from) None.

(** The [for (row = from.row + direction; row !== rookRow; row += direction)]
    loop of [isValidCastling]. *)
Fixpoint squaresBetweenEmpty (fuel : nat) (board : Board)
    (kingStartCol direction rookRow r : Z) : result bool :=
  if r =? rookRow then Ok true
  else match fuel with
       | O => OutOfFuel
       | S fuel' =>
           p <- cell board r kingStartCol;
           if truthy p then Ok false
           else squaresBetweenEmpty fuel' board kingStartCol direction
                  rookRow (r + direction)
       end.

Definition castlingKey (c : Color) (kingSide : bool)
  : CastlingRights -> bool :=
  match c with
  | White => if kingSide then whiteKingSide else whiteQueenSide
  | Black => if kingSide then blackKingSide else blackQueenSide
  end.

(** The king stands on row 4 when the loop over the squares between king
    and rook starts, so the loop runs at most three times. *)
Definition isValidCastling (board : Board) (from to : Square)
    (gameState : GameState) : result bool :=
  p <- at_ board from;
  match p with
  | None => TypeError                      (* piece.type of null *)
  | Some piece =>
    if negb (PieceType_eqb (type piece) King) then Ok false else
    let kingStartCol := match color piece with White => 0 | Black => 7 end in
    let kingStartRow := 4 in
    if negb (col from =? kingStartCol) || negb (row from =? kingStartRow)
    then Ok false else
    if negb (Z.abs (row to - row from) =? 2) || negb (col to =? col from)
    then Ok false else
    let kingSide := row to >? row from in
    let rookRow := if kingSide then 7 else 0 in
    rookPiece <- cell board rookRow kingStartCol;
    if match rookPiece with
       | None => true
       | Some rook => negb (PieceType_eqb (type rook) Rook)
                      || negb (Color_eqb (color rook) (color piece))
       end
    then Ok false else
    if negb (castlingKey (color piece) kingSide (castlingRights gameState))
    then Ok false else
    let direction := if kingSide then 1 else -1 in
    empty <- squaresBetweenEmpty 8 board kingStartCol direction rookRow
               (row from + direction);
    if negb empty then Ok false else
    let opponentColor := opposite (color piece) in
    inCheck <- isSquareUnderAttack board from opponentColor;
    if inCheck then Ok false else
    attacked <- anyM (fun step =>
                        let checkRow := row from + direction * step in
                        isSquareUnderAttack board
                          {| row := checkRow; col := kingStartCol |}
                          opponentColor) [1; 2];
    if attacked then Ok false else Ok true
  end.

Definition isValidKingMove (board : Board) (from to : Square)
    (rowDiff colDiff : Z) (gameState : GameState) : result bool :=
  if (Z.abs rowDiff <=? 1) && (Z.abs colDiff <=? 1) then
    testBoard <- makeMove board from to;
    attacked <- isSquareUnderAttack testBoard to
                  (opposite (currentTurn gameState));
    Ok (negb attacked)
  else if (Z.abs rowDiff =? 2) && (colDiff =? 0) then
    isValidCastling board from to gameState
  else Ok false.

Definition isValidMove (board : Board) (from to : Square)
    (gameState : GameState) : result bool :=
  fromPiece <- at_ board from;
  toPiece <- at_ board to;
  match fromPiece with
  | None => Ok false
  | Some fromPiece =>
    if negb (Color_eqb (color fromPiece) (currentTurn gameState))
    then Ok false else
    if match toPiece with
       | Some toPiece => Color_eqb (color toPiece) (color fromPiece)
       | None => false
       end
    then Ok false else
    if (row to <? 0) || (row to >? 7) || (col to <? 0) || (col to >? 7)
    then Ok false else
    let rowDiff := row to - row from in
    let colDiff := col to - col from in
    match type fromPiece with
    | Pawn => isValidPawnMove board from to rowDiff colDiff
                (color fromPiece) gameState
    | Rook => isValidRookMove board from to rowDiff colDiff
    | Bishop => isValidBishopMove board from to rowDiff colDiff
    | Knight => Ok (isValidKnightMove rowDiff colDiff)
    | Queen => isValidQueenMove board from to rowDiff colDiff
    | King => isValidKingMove board from to rowDiff colDiff gameState
    end
  end.

(** The first king of [color] in scan order, or [null]. *)
Fixpoint findKing_loop (board : Board) (color0 : Color) (l : list Square)
  : result (option Square) :=
  match l with
  | [] => Ok None
  | s :: l' =>
      p <- at_ board s;
      match p with
      | Some piece =>
          if PieceType_eqb (type piece) King && Color_eqb (color piece) color0
          then Ok (Some s) else findKing_loop board color0 l'
      | None => findKing_loop board color0 l'
      end
  end.

Definition findKing (board : Board) (color : Color)
  : result (option Square) :=
  findKing_loop board color allSquares.

Definition isInCheck (board : Board) (color : Color) : result bool :=
  king <- findKing board color;
  match king with
  | None => Ok false
  | Some king => isSquareUnderAttack board king (opposite color)
  end.

Definition hasAnyLegalMove (board : Board) (color0 : Color)
    (gameState : GameState) : result bool :=
  anyM (fun from =>
          p <- at_ board from;
          match p with
          | Some piece =>
              if Color_eqb (color piece) color0 then
                anyM (fun to =>
                        valid <- isValidMove board from to gameState;
                        if valid then
                          testBoard <- makeMove board from to;
                          check <- isInCheck testBoard color0;
                          Ok (negb check)
                        else Ok false) allSquares
              else Ok false
          | None => Ok false
          end) allSquares.

Definition isCheckmate (board : Board) (color : Color)
    (gameState : GameState) : result bool :=
  check <- isInCheck board color;
  if negb check then Ok false
  else legal <- hasAnyLegalMove board color gameState; Ok (negb legal).

(** The counting loop of [isDrawByRepetition]. *)
Fixpoint countRepetitions (currentPosition : string) (count : Z)
    (l : list string) : bool :=
  match l with
  | [] => false
  | position :: l' =>
      if String.eqb position currentPosition then
        if count + 1 >=? 3 then true
        else countRepetitions currentPosition (count + 1) l'
      else countRepetitions currentPosition count l'
  end.

Definition isDrawByRepetition (gameState : GameState) : bool :=
  let positionHistory := positionHistory gameState in
  if Z.of_nat (length positionHistory) <? 3 then false
  else match last positionHistory with
       | None => false
       | Some currentPosition =>
           countRepetitions currentPosition 0 positionHistory
       end.

Definition typeName (t : PieceType) : string :=
  match t with
  | King => "king" | Queen => "queen" | Rook => "rook"
  | Bishop => "bishop" | Knight => "knight" | Pawn => "pawn"
  end.

Definition colorName (c : Color) : string :=
  match c with White => "white" | Black => "black" end.

(** [s[0]] *)
Definition firstChar (s : string) : string :=
  match s with
  | EmptyString => EmptyString
  | String a _ => String a EmptyString
  end.

Fixpoint boardString (board : Board) (l : list Square) : result string :=
  match l with
  | [] => Ok EmptyString
  | s :: l' =>
      p <- at_ board s;
      rest <- boardString board l';
      Ok ((match p with
           | Some piece =>
               firstChar (typeName (type piece))
               +:+ firstChar (colorName (color piece))
           | None => "--"
           end) +:+ rest)
  end.

Definition getBoardPositionString (board : Board) (gameState : GameState)
  : result string :=
  positionStr <- boardString board allSquares;
  let rights := castlingRights gameState in
  Ok (positionStr
      +:+ firstChar (colorName (currentTurn gameState))
      +:+ (if whiteKingSide rights then "K" else "-")
      +:+ (if whiteQueenSide rights then "Q" else "-")
      +:+ (if blackKingSide rights then "k" else "-")
      +:+ (if blackQueenSide rights then "q" else "-")).

(** ** App.jsx *)

Definition setEnPassantTarget (t : option Square) (g : GameState) : GameState :=
  {| board := board g; currentTurn := currentTurn g;
     capturedWhite := capturedWhite g; capturedBlack := capturedBlack g;
     gameStatus := gameStatus g; whitePlayer := whitePlayer g;
     blackPlayer := blackPlayer g; castlingRights := castlingRights g;
     enPassantTarget := t; moveHistory := moveHistory g;
     positionHistory := positionHistory g |}.

Definition setPositionHistory (h : list string) (g : GameState) : GameState :=
  {| board := board g; currentTurn := currentTurn g;
     capturedWhite := capturedWhite g; capturedBlack := capturedBlack g;
     gameStatus := gameStatus g; whitePlayer := whitePlayer g;
     blackPlayer := blackPlayer g; castlingRights := castlingRights g;
     enPassantTarget := enPassantTarget g; moveHistory := moveHistory g;
     positionHistory := h |}.

Definition setGameStatus (s : GameStatus) (g : GameState) : GameState :=
  {| board := board g; currentTurn := currentTurn g;
     capturedWhite := capturedWhite g; capturedBlack := capturedBlack g;
     gameStatus := s; whitePlayer := whitePlayer g;
     blackPlayer := blackPlayer g; castlingRights := castlingRights g;
     enPassantTarget := enPassantTarget g; moveHistory := moveHistory g;
     positionHistory := positionHistory g |}.

(** The castling-rights update of [executeMove]. *)
Definition updateCastlingRights (rights : CastlingRights)
    (movingPiece : Piece) (capturedPiece : option Piece) (from to : Square)
  : CastlingRights :=
  (* If king moves, lose all castling rights for that color *)
  let r1 :=
    if PieceType_eqb (type movingPiece) King then
      match color movingPiece with
      | White => {| whiteKingSide := false; whiteQueenSide := false;
                    blackKingSide := blackKingSide rights;
                    blackQueenSide := blackQueenSide rights |}
      | Black => {| whiteKingSide := whiteKingSide rights;
                    whiteQueenSide := whiteQueenSide rights;
                    blackKingSide := false; blackQueenSide := false |}
      end
    else rights in
  let clearSide (c : Color) (r : Z) (cr : CastlingRights) : CastlingRights :=
    match c with
    | White =>
        {| whiteKingSide := if r =? 7 then false else whiteKingSide cr;
           whiteQueenSide := if r =? 0 then false else whiteQueenSide cr;
           blackKingSide := blackKingSide cr;
           blackQueenSide := blackQueenSide cr |}
    | Black =>
        {| whiteKingSide := whiteKingSide cr;
           whiteQueenSide := whiteQueenSide cr;
           blackKingSide := if r =? 7 then false else blackKingSide cr;
           blackQueenSide := if r =? 0 then false else blackQueenSide cr |}
    end in
  (* If rook moves, lose castling rights for that side *)
  let r2 :=
    if PieceType_eqb (type movingPiece) Rook
    then clearSide (color movingPiece) (row from) r1 else r1 in
  (* If rook is captured, lose castling rights for that side *)
  match capturedPiece with
  | Some capturedPiece =>
      if PieceType_eqb (type capturedPiece) Rook
      then clearSide (color capturedPiece) (row to) r2 else r2
  | None => r2
  end.

(** The state updater of [executeMove]: the next game state, or the
    exception that leaves the React state as it was. *)
Definition executeMove (prevState : GameState) (from to : Square)
  : result GameState :=
  let newBoard := board prevState in
  capturedPiece <- at_ newBoard to;
  moving <- at_ newBoard from;
  match moving with
  | None => TypeError                      (* movingPiece.type of null *)
  | Some movingPiece =>
    (* Handle en passant capture *)
    '(enPassantCapturedPiece, newBoard) <-
      (if PieceType_eqb (type movingPiece) Pawn
          && match enPassantTarget prevState with
             | Some target =>
                 (row to =? row target) && (col to =? col target)
             | None => false
             end
          && negb (truthy capturedPiece)
       then
         let direction :=
           match color movingPiece with White => -1 | Black => 1 end in
         taken <- cell newBoard (row to + direction) (col to);
         b <- setCell newBoard (row to + direction) (col to) None;
         Ok (taken, b)
       else Ok (None, newBoard));
    (* Handle castling *)
    '(castlingRookMove0, newBoard) <-
      (if PieceType_eqb (type movingPiece) King
          && (Z.abs (row to - row from) =? 2)
       then
         let kingSide := row to >? row from in
         let rookFromRow := if kingSide then 7 else 0 in
         let rookToRow := if kingSide then row to - 1 else row to + 1 in
         let rookCol := col from in
         rook <- cell newBoard rookFromRow rookCol;
         b1 <- setCell newBoard rookToRow rookCol rook;
         b2 <- setCell b1 rookFromRow rookCol None;
         Ok (Some {| from := {| row := rookFromRow; col := rookCol |};
                     to := {| row := rookToRow; col := rookCol |} |}, b2)
       else Ok (None, newBoard));
    newBoard <- setCell newBoard (row to) (col to) (Some movingPiece);
    newBoard <- setCell newBoard (row from) (col from) None;
    (* Check for pawn promotion *)
    let promotionCol :=
      match color movingPiece with White => 7 | Black => 0 end in
    let promotes :=
      PieceType_eqb (type movingPiece) Pawn && (col to =? promotionCol) in
    newBoard <-
      (if promotes
       then setCell newBoard (row to) (col to)
              (Some {| type := Queen; color := color movingPiece |})
       else Ok newBoard);
    let promotion0 := if promotes then Some Queen else None in
    let taken := match capturedPiece with Some p => [p] | None => [] end
                 ++ match enPassantCapturedPiece with
                    | Some p => [p] | None => [] end in
    let newCapturedWhite :=
      match currentTurn prevState with
      | White => capturedWhite prevState ++ taken
      | Black => capturedWhite prevState
      end in
    let newCapturedBlack :=
      match currentTurn prevState with
      | White => capturedBlack prevState
      | Black => capturedBlack prevState ++ taken
      end in
    (* Set en passant target if pawn moved 2 squares *)
    let newEnPassantTarget :=
      if PieceType_eqb (type movingPiece) Pawn
         && (Z.abs (col to - col from) =? 2)
      then
        let middleCol := (col from + col to) / 2 in
        Some {| row := row to; col := middleCol |}
      else None in
    (* Update castling rights *)
    let newCastlingRights :=
      updateCastlingRights (castlingRights prevState) movingPiece
        capturedPiece from to in
    let newGameState :=
      {| board := newBoard;
         currentTurn := opposite (currentTurn prevState);
         capturedWhite := newCapturedWhite;
         capturedBlack := newCapturedBlack;
         gameStatus := gameStatus prevState;
         whitePlayer := whitePlayer prevState;
         blackPlayer := blackPlayer prevState;
         castlingRights := newCastlingRights;
         enPassantTarget := newEnPassantTarget;
         moveHistory :=
           moveHistory prevState ++
           [{| move := {| from := from; to := to |};
               piece := Some movingPiece;
               captured := capturedPiece;
               enPassantCaptured := enPassantCapturedPiece;
               castlingRookMove := castlingRookMove0;
               promotion := promotion0 |}];
         positionHistory := positionHistory prevState |} in
    (* Add current position to history *)
    positionString <- getBoardPositionString newBoard newGameState;
    let newGameState :=
      setPositionHistory (positionHistory prevState ++ [positionString])
        newGameState in
    (* Check game status *)
    inCheck <- isInCheck newBoard (currentTurn newGameState);
    hasLegalMoves <- hasAnyLegalMove newBoard (currentTurn newGameState)
                       newGameState;
    let status :=
      if inCheck && negb hasLegalMoves then Checkmate
      else if negb inCheck && negb hasLegalMoves then Stalemate
      else if isDrawByRepetition newGameState then Draw
      else if inCheck then Check
      else Playing in
    Ok (setGameStatus status newGameState)
  end.

(** The React state that [handleMove] reads and writes. *)
Record App := {
  gameState : GameState;
  gameStarted : bool;
  isProcessingBotMove : bool;
  lastMove : option Move
}.

Definition handleMove (app : App) (from to : Square) : result App :=
  (* Prevent moves if game hasn't started *)
  if negb (gameStarted app) then Ok app else
  (* Prevent moves during bot processing *)
  if isProcessingBotMove app then Ok app else
  (* Prevent human moves when it's a bot's turn *)
  let currentPlayer :=
    match currentTurn (gameState app) with
    | White => whitePlayer (gameState app)
    | Black => blackPlayer (gameState app)
    end in
  if negb (String.eqb currentPlayer "human") then Ok app else
  valid <- isValidMove (board (gameState app)) from to (gameState app);
  if negb valid then Ok app else
  next <- executeMove (gameState app) from to;
  Ok {| gameState := next;
        gameStarted := gameStarted app;
        isProcessingBotMove := isProcessingBotMove app;
        lastMove := Some {| from := from; to := to |} |}.

(** ** bots/grok-3-mini.js *)

(** A JavaScript number that is an integer or one of the two infinities. *)
Inductive number := NegInfinity | Num (z : Z) | Infinity.

Definition number_ltb (a b : number) : bool :=
  match a, b with
  | NegInfinity, NegInfinity => false
  | NegInfinity, _ => true
  | Num _, NegInfinity => false
  | Num x, Num y => x <? y
  | Num _, Infinity => true
  | Infinity, _ => false
  end.

Definition number_leb (a b : number) : bool := negb (number_ltb b a).
Definition number_max (a b : number) : number := if number_ltb a b then b else a.
Definition number_min (a b : number) : number := if number_ltb b a then b else a.

Module Grok.

Definition PIECE_SQUARE_TABLES (t : PieceType) : list (list Z) :=
  match t with
  | Pawn =>
      [[0;  0;  0;  0;  0;  0;  0;  0];
       [50; 50; 50; 50; 50; 50; 50; 50];
       [10; 10; 20; 30; 30; 20; 10; 10];
       [5;  5; 10; 25; 25; 10;  5;  5];
       [0;  0;  0; 20; 20;  0;  0;  0];
       [5; -5;-10;  0;  0;-10; -5;  5];
       [5; 10; 10;-20;-20; 10; 10;  5];
       [0;  0;  0;  0;  0;  0;  0;  0]]
  | Knight =>
      [[-50;-40;-30;-30;-30;-30;-40;-50];
       [-40;-20;  0;  0;  0;  0;-20;-40];
       [-30;  0; 10; 15; 15; 10;  0;-30];
       [-30;  5; 15; 20; 20; 15;  5;-30];
       [-30;  0; 15; 20; 20; 15;  0;-30];
       [-30;  5; 10; 15; 15; 10;  5;-30];
       [-40;-20;  0;  5;  5;  0;-20;-40];
       [-50;-40;-30;-30;-30;-30;-40;-50]]
  | Bishop =>
      [[-20;-10;-10;-10;-10;-10;-10;-20];
       [-10;  0;  0;  0;  0;  0;  0;-10];
       [-10;  0;  5; 10; 10;  5;  0;-10];
       [-10;  5;  5; 10; 10;  5;  5;-10];
       [-10;  0; 10; 10; 10; 10;  0;-10];
       [-10; 10; 10; 10; 10; 10; 10;-10];
       [-10;  5;  0;  0;  0;  0;  5;-10];
       [-20;-10;-10;-10;-10;-10;-10;-20]]
  | Rook =>
      [[0;  0;  0;  0;  0;  0;  0;  0];
       [5; 10; 10; 10; 10; 10; 10;  5];
       [-5;  0;  0;  0;  0;  0;  0; -5];
       [-5;  0;  0;  0;  0;  0;  0; -5];
       [-5;  0;  0;  0;  0;  0;  0; -5];
       [-5;  0;  0;  0;  0;  0;  0; -5];
       [-5;  0;  0;  0;  0;  0;  0; -5];
       [0;  0;  0;  5;  5;  0;  0;  0]]
  | Queen =>
      [[-20;-10;-10; -5; -5;-10;-10;-20];
       [-10;  0;  0;  0;  0;  0;  0;-10];
       [-10;  0;  5;  5;  5;  5;  0;-10];
       [-5;  0;  5;  5;  5;  5;  0; -5];
       [0;  0;  5;  5;  5;  5;  0; -5];
       [-10;  5;  5;  5;  5;  5;  0;-10];
       [-10;  0;  5;  0;  0;  0;  0;-10];
       [-20;-10;-10; -5; -5;-10;-10;-20]]
  | King =>
      [[-30;-40;-40;-50;-50;-40;-40;-30];
       [-30;-40;-40;-50;-50;-40;-40;-30];
       [-30;-40;-40;-50;-50;-40;-40;-30];
       [-30;-40;-40;-50;-50;-40;-40;-30];
       [-20;-30;-30;-40;-40;-30;-30;-20];
       [-10;-20;-20;-20;-20;-20;-20;-10];
       [20; 20;  0;  0;  0;  0; 20; 20];
       [20; 30; 10;  0;  0; 10; 30; 20]]
  end.

(** Apply a move to the board and return new board *)
Definition applyMoveToBoard (board : Board) (from to : Square)
  : result Board :=
  makeMove board from to.

(** Get all legal moves for the current player *)
Definition getLegalMoves (board : Board) (color0 : Color)
    (gameState : GameState) : result (list Move) :=
  concatMapM (fun from =>
    p <- at_ board from;
    match p with
    | Some piece =>
        if negb (Color_eqb (color piece) color0) then Ok []
        else
          concatMapM (fun to =>
            valid <- isValidMove board from to gameState;
            if valid then
              (* Test if move leaves king in check *)
              testBoard <- applyMoveToBoard board from to;
              check <- isInCheck testBoard color0;
              if negb check then Ok [{| from := from; to := to |}]
              else Ok []
            else Ok []) allSquares
    | None => Ok []
    end) allSquares.

(** [table[tableRow][col]]; both indices come from loops over 0..7 and
    every table is 8 by 8, so the entry exists. *)
Definition tableEntry (table : list (list Z)) (r c : Z) : Z :=
  match index table r with
  | Some line => match index line c with Some v => v | None => 0 end
  | None => 0
  end.

(** Evaluate board position *)
Fixpoint evaluateBoard_loop (board : Board) (score : Z) (l : list Square)
  : result Z :=
  match l with
  | [] => Ok score
  | s :: l' =>
      p <- at_ board s;
      match p with
      | None => evaluateBoard_loop board score l'
      | Some piece =>
          (* Material value *)
          let pieceValue := PIECE_VALUES (type piece) * 100 in
          (* Position value *)
          let table := PIECE_SQUARE_TABLES (type piece) in
          let tableRow :=
            match color piece with White => row s | Black => 7 - row s end in
          let pieceValue := pieceValue + tableEntry table tableRow (col s) in
          (* Add or subtract based on color *)
          evaluateBoard_loop board
            (match color piece with
             | White => score + pieceValue
             | Black => score - pieceValue
             end) l'
      end
  end.

Definition evaluateBoard (board : Board) : result Z :=
  evaluateBoard_loop board 0 allSquares.

Record SearchResult := { score : number; move : option Move }.

Definition withBoardAndTurn (b : Board) (t : Color) (g : GameState)
  : GameState :=
  {| board := b; currentTurn := t;
     capturedWhite := capturedWhite g; capturedBlack := capturedBlack g;
     gameStatus := gameStatus g; whitePlayer := whitePlayer g;
     blackPlayer := blackPlayer g; castlingRights := castlingRights g;
     enPassantTarget := enPassantTarget g; moveHistory := moveHistory g;
     positionHistory := positionHistory g |}.

Section Minimax.

(** The recursive call [minimax(newBoard, newGameState, depth - 1, ...)]. *)
Variable recur : Board -> GameState -> number -> number -> bool -> Color
                 -> result SearchResult.
Variables (board : Board) (gameState : GameState) (botColor : Color).

(** The [for (const move of moves)] loop of the maximizing player. *)
Fixpoint maximize (moves : list Move) (maxEval : number) (bestMove : Move)
    (alpha beta : number) : result SearchResult :=
  match moves with
  | [] => Ok {| score := maxEval; move := Some bestMove |}
  | m :: rest =>
      newBoard <- applyMoveToBoard board (from m) (to m);
      let newGameState :=
        withBoardAndTurn newBoard (opposite (currentTurn gameState))
          gameState in
      evaluation <- recur newBoard newGameState alpha beta false botColor;
      let better := number_ltb maxEval (score evaluation) in
      let maxEval := if better then score evaluation else maxEval in
      let bestMove := if better then m else bestMove in
      let alpha := number_max alpha (score evaluation) in
      if number_leb beta alpha                         (* Beta cutoff *)
      then Ok {| score := maxEval; move := Some bestMove |}
      else maximize rest maxEval bestMove alpha beta
  end.

(** The [for (const move of moves)] loop of the minimizing player. *)
Fixpoint minimize (moves : list Move) (minEval : number) (bestMove : Move)
    (alpha beta : number) : result SearchResult :=
  match moves with
  | [] => Ok {| score := minEval; move := Some bestMove |}
  | m :: rest =>
      newBoard <- applyMoveToBoard board (from m) (to m);
      let newGameState :=
        withBoardAndTurn newBoard (opposite (currentTurn gameState))
          gameState in
      evaluation <- recur newBoard newGameState alpha beta true botColor;
      let better := number_ltb (score evaluation) minEval in
      let minEval := if better then score evaluation else minEval in
      let bestMove := if better then m else bestMove in
      let beta := number_min beta (score evaluation) in
      if number_leb beta alpha                         (* Alpha cutoff *)
      then Ok {| score := minEval; move := Some bestMove |}
      else minimize rest minEval bestMove alpha beta
  end.

End Minimax.

(** Minimax with alpha-beta pruning *)
Fixpoint minimax (depth : nat) (board : Board) (gameState : GameState)
    (alpha beta : number) (maximizingPlayer : bool) (botColor : Color)
  : result SearchResult :=
  match depth with
  | O =>
      (* Base case: evaluate board *)
      evaluation <- evaluateBoard board;
      Ok {| score := Num (match botColor with
                          | White => evaluation
                          | Black => - evaluation
                          end);
            move := None |}
  | S depth' =>
      let currentColor :=
        if maximizingPlayer then botColor else opposite botColor in
      moves <- getLegalMoves board currentColor gameState;
      match moves with
      | [] =>
          (* No legal moves - checkmate or stalemate *)
          check <- isInCheck board currentColor;
          if check
          then Ok {| score := Num (if maximizingPlayer then -10000 else 10000);
                     move := None |}
          else Ok {| score := Num 0; move := None |}
      | first :: _ =>
          if maximizingPlayer
          then maximize (minimax depth') board gameState botColor
                 moves NegInfinity first alpha beta
          else minimize (minimax depth') board gameState botColor
                 moves Infinity first alpha beta
      end
  end.

Definition mv (r1 c1 r2 c2 : Z) : Move :=
  {| from := {| row := r1; col := c1 |}; to := {| row := r2; col := c2 |} |}.

(** Main bot function.  [second] stands for the draw
    [Math.floor(Math.random() * openingMoves.length)] being 1 rather
    than 0. *)
Definition makeMove (gameState : GameState) (botColor : Color)
    (second : bool) : result (option Move) :=
  let played := Z.of_nat (length (moveHistory gameState)) in
  let openingMoves :=
    if played <? 2 then
      match botColor with
      | White => if played =? 0
                 then Some (mv 1 4 3 4, mv 1 3 3 3) else None
      | Black => if played =? 1
                 then Some (mv 6 4 4 4, mv 6 3 4 3) else None
      end
    else None in
  (* Use minimax for the rest of the game *)
  let search :=
    let depth := if played <? 10 then 3%nat else 4%nat in
    found <- minimax depth (board gameState) gameState NegInfinity Infinity
               true botColor;
    Ok (move found) in
  match openingMoves with
  | Some (m0, m1) =>
      let m := if second then m1 else m0 in
      valid <- isValidMove (board gameState) (from m) (to m) gameState;
      if valid then Ok (Some m) else search
  | None => search
  end.

End Grok.

(** ** bots/claude-opus-4-20250514.js *)

Module Opus.

(** Configuration *)
Definition MAX_DEPTH : Z := 4.
Definition QUIESCENCE_DEPTH : nat := 3.
Definition TIME_LIMIT : Z := 1800.
Definition INFINITY : Z := 1000000.
Definition MATE_SCORE : Z := 100000.

(** Evaluation weights *)
Definition WEIGHTS_MATERIAL : Z := 1000.
Definition WEIGHTS_KING_SAFETY : Z := 500.
Definition WEIGHTS_CENTER_CONTROL : Z := 300.
Definition WEIGHTS_PIECE_ACTIVITY : Z := 200.
Definition WEIGHTS_PAWN_STRUCTURE : Z := 150.
Definition WEIGHTS_TACTICS : Z := 400.
Definition WEIGHTS_STRATEGY : Z := 100.

Definition MAX_TABLE_SIZE : Z := 100000.

Definition CENTER_SQUARES : list Square :=
  [{| row := 3; col := 3 |}; {| row := 3; col := 4 |};
   {| row := 4; col := 3 |}; {| row := 4; col := 4 |}].

Inductive TTType := exact | lower | upper.
Record TTEntry := { tt_score : Z; tt_depth : nat; tt_type : TTType }.

(** The module-level mutable state of the bot, together with the number
    of times the clock has been read.  The history table is keyed by the
    four coordinates that the source formats into its string key. *)
Record Engine := {
  transpositionTable : gmap string TTEntry;
  killerMoves : list (option Move * option Move);
  historyTable : gmap (Z * Z * Z * Z) Z;
  clockReads : nat
}.

(** The state of a freshly loaded module. *)
Definition freshEngine : Engine :=
  {| transpositionTable := ∅;
     killerMoves := replicate 4 (None, None);
     historyTable := ∅;
     clockReads := 0 |}.

Definition makeTestMove (board : Board) (from to : Square) : result Board :=
  makeMove board from to.

(** The search states built by [applyMove] carry five properties only;
    the remaining fields of the record are never read on them. *)
Definition applyMove (gameState : GameState) (m : Move) : result GameState :=
  newBoard <- makeTestMove (board gameState) (from m) (to m);
  Ok {| board := newBoard;
        currentTurn := opposite (currentTurn gameState);
        capturedWhite := []; capturedBlack := [];
        gameStatus := Playing; whitePlayer := ""; blackPlayer := "";
        castlingRights := castlingRights gameState;
        enPassantTarget := None;
        moveHistory := moveHistory gameState ++ [bare m];
        positionHistory := [] |}.

(** Move generation *)
Definition generateLegalMoves (gameState : GameState) (color0 : Color)
  : result (list Move) :=
  let board := board gameState in
  concatMapM (fun from =>
    p <- at_ board from;
    match p with
    | Some piece =>
        if negb (Color_eqb (color piece) color0) then Ok []
        else
          concatMapM (fun to =>
            valid <- isValidMove board from to gameState;
            if valid then
              testBoard <- makeTestMove board from to;
              check <- isInCheck testBoard color0;
              if negb check then Ok [{| from := from; to := to |}]
              else Ok []
            else Ok []) allSquares
    | None => Ok []
    end) allSquares.

Definition isCheckmate (gameState : GameState) : result bool :=
  let color := currentTurn gameState in
  check <- isInCheck (board gameState) color;
  if negb check then Ok false
  else legal <- hasAnyLegalMove (board gameState) color gameState;
       Ok (negb legal).

(** The non-king pieces, in scan order. *)
Fixpoint nonKingPieces (board : Board) (l : list Square)
  : result (list Piece) :=
  match l with
  | [] => Ok []
  | s :: l' =>
      p <- at_ board s;
      rest <- nonKingPieces board l';
      Ok (match p with
          | Some piece =>
              if negb (PieceType_eqb (type piece) King)
              then piece :: rest else rest
          | None => rest
          end)
  end.

Definition isInsufficientMaterial (board : Board) : result bool :=
  pieces <- nonKingPieces board allSquares;
  match pieces with
  | [] => Ok true                                         (* K vs K *)
  | [p] => Ok (PieceType_eqb (type p) Bishop
               || PieceType_eqb (type p) Knight)
  | _ => Ok false
  end.

Definition isDraw (gameState : GameState) : result bool :=
  (* Stalemate *)
  check <- isInCheck (board gameState) (currentTurn gameState);
  stalemate <-
    (if negb check then
       legal <- hasAnyLegalMove (board gameState) (currentTurn gameState)
                  gameState;
       Ok (negb legal)
     else Ok false);
  if stalemate then Ok true
  else
    (* Insufficient material *)
    insufficient <- isInsufficientMaterial (board gameState);
    if insufficient then Ok true else Ok false.

Definition movesEqual (m1 : Move) (m2 : option Move) : bool :=
  match m2 with
  | None => false
  | Some m2 =>
      (row (from m1) =? row (from m2)) && (col (from m1) =? col (from m2))
      && (row (to m1) =? row (to m2)) && (col (to m1) =? col (to m2))
  end.

Definition histKey (m : Move) : Z * Z * Z * Z :=
  (row (from m), col (from m), row (to m), col (to m)).

(** [scoredMoves.sort((a, b) => b.score - a.score)]: a stable sort into
    descending order of score. *)
Fixpoint insertByScore (x : Move * Z) (l : list (Move * Z))
  : list (Move * Z) :=
  match l with
  | [] => [x]
  | y :: l' => if snd x <? snd y then y :: insertByScore x l' else x :: l
  end.

Definition sortByScore (l : list (Move * Z)) : list (Move * Z) :=
  foldr insertByScore [] l.

Fixpoint mapResult {A B} (f : A -> result B) (l : list A) : result (list B) :=
  match l with
  | [] => Ok []
  | x :: l' => y <- f x; ys <- mapResult f l'; Ok (y :: ys)
  end.

(** Move ordering for better pruning.  [depth] is the JavaScript number
    the caller passes. *)
Definition orderMoves (engine : Engine) (moves : list Move)
    (gameState : GameState) (depth : Z) : result (list Move) :=
  let board := board gameState in
  scoredMoves <-
    mapResult (fun m =>
      fromP <- at_ board (from m);
      toP <- at_ board (to m);
      (* MVV-LVA for captures *)
      s1 <- match toP with
            | Some toPiece =>
                match fromP with
                | Some fromPiece =>
                    Ok (10000 + PIECE_VALUES (type toPiece) * 100
                        - PIECE_VALUES (type fromPiece))
                | None => TypeError
                end
            | None => Ok 0
            end;
      (* Killer moves *)
      s2 <- (if depth <? MAX_DEPTH then
               match index (killerMoves engine) depth with
               | None => TypeError
               | Some (k0, k1) =>
                   if movesEqual m k0 then Ok 9000
                   else if movesEqual m k1 then Ok 8000 else Ok 0
               end
             else Ok 0);
      (* History heuristic *)
      let s3 := default 0 (historyTable engine !! histKey m) in
      match fromP with
      | None => TypeError                                (* from.type *)
      | Some fromPiece =>
          (* Promotions *)
          let promotionCol :=
            match color fromPiece with White => 7 | Black => 0 end in
          let s4 :=
            if PieceType_eqb (type fromPiece) Pawn
               && (col (to m) =? promotionCol) then 9500 else 0 in
          (* Center moves *)
          let s5 :=
            if existsb (fun s => (row s =? row (to m))
                                 && (col s =? col (to m))) CENTER_SQUARES
            then 50 else 0 in
          (* Castling *)
          let s6 :=
            if PieceType_eqb (type fromPiece) King
               && (Z.abs (row (to m) - row (from m)) =? 2)
            then 300 else 0 in
          Ok (m, s1 + s2 + s3 + s4 + s5 + s6)
      end) moves;
  Ok (map fst (sortByScore scoredMoves)).

Definition hashPosition (gameState : GameState) : result string :=
  hash <- boardString (board gameState) allSquares;
  Ok (hash +:+ firstChar (colorName (currentTurn gameState))).

(** Every path of [getOpeningBookMove] returns [null]: the book entry is
    drawn but never parsed. *)
Definition getOpeningBookMove (gameState : GameState) : option Move := None.

(** *** Computations that read and write the engine state *)

Definition M (A : Type) : Type := Engine -> result (A * Engine).

Definition ret {A} (a : A) : M A := fun e => Ok (a, e).

Definition bind {A B} (m : M A) (k : A -> M B) : M B :=
  fun e => match m e with
           | Ok (a, e') => k a e'
           | TypeError => TypeError
           | OutOfFuel => OutOfFuel
           end.

Definition lift {A} (r : result A) : M A :=
  fun e => match r with
           | Ok a => Ok (a, e)
           | TypeError => TypeError
           | OutOfFuel => OutOfFuel
           end.

Definition getEngine : M Engine := fun e => Ok (e, e).

Declare Scope engine_scope.
Delimit Scope engine_scope with engine.
Notation "x <- m ; k" := (bind m (fun x => k))
  (at level 20, m at level 100, k at level 200, only parsing) : engine_scope.
Notation "' pat <- m ; k" := (bind m (fun x => match x with pat => k end))
  (at level 20, pat pattern, m at level 100, k at level 200, only parsing)
  : engine_scope.

Definition clearOldTranspositions : M unit :=
  fun e =>
    Ok (tt,
        if Z.of_nat (size (transpositionTable e)) >? MAX_TABLE_SIZE
        then {| transpositionTable := ∅;
                killerMoves := killerMoves e;
                historyTable := historyTable e;
                clockReads := clockReads e |}
        else e).

Definition ttGet (hash : string) : M (option TTEntry) :=
  fun e => Ok (transpositionTable e !! hash, e).

Definition ttSet (hash : string) (entry : TTEntry) : M unit :=
  fun e =>
    Ok (tt, {| transpositionTable := <[hash := entry]> (transpositionTable e);
               killerMoves := killerMoves e;
               historyTable := historyTable e;
               clockReads := clockReads e |}).

Definition updateKillerMoves (m : Move) (depth : Z) : M unit :=
  fun e =>
    if depth >=? MAX_DEPTH then Ok (tt, e)
    else match index (killerMoves e) depth with
         | None => TypeError
         | Some (k0, k1) =>
             if negb (movesEqual m k0)
             then Ok (tt, {| transpositionTable := transpositionTable e;
                             killerMoves :=
                               <[Z.to_nat depth := (Some m, k0)]>
                                 (killerMoves e);
                             historyTable := historyTable e;
                             clockReads := clockReads e |})
             else Ok (tt, e)
         end.

Definition updateHistoryTable (m : Move) (depth : Z) : M unit :=
  fun e =>
    let key := histKey m in
    Ok (tt, {| transpositionTable := transpositionTable e;
               killerMoves := killerMoves e;
               historyTable :=
                 <[key := default 0 (historyTable e !! key) + depth * depth]>
                   (historyTable e);
               clockReads := clockReads e |}).

Section Search.

(** [Date_now k] is the value of the [k]-th call of [Date.now()]. *)
Variable Date_now : nat -> Z.

(** The seven terms of the static evaluation.  None of them receives
    [botColor].  ([evaluateMaterial] adds tenths of a point in the
    source; the terms are integers here.) *)
Variable evaluateMaterial : Board -> Z.
Variable evaluateKingSafety : GameState -> Z.
Variable evaluateCenterControl : Board -> Z.
Variable evaluatePieceActivity : GameState -> Z.
Variable evaluatePawnStructure : Board -> Z.
Variable evaluateTactics : GameState -> Z.
Variable evaluateStrategy : GameState -> Z.

Definition now : M Z :=
  fun e =>
    Ok (Date_now (clockReads e),
        {| transpositionTable := transpositionTable e;
           killerMoves := killerMoves e;
           historyTable := historyTable e;
           clockReads := S (clockReads e) |}).

(** Comprehensive evaluation function *)
Definition evaluate (gameState : GameState) (botColor : Color)
  : result Z :=
  (* 1. Checkmate/Stalemate (highest priority) *)
  mate <- isCheckmate gameState;
  if mate
  then Ok (if Color_eqb (currentTurn gameState) botColor
           then - MATE_SCORE else MATE_SCORE)
  else
    draw <- isDraw gameState;
    if draw then Ok 0
    else
      let score := 0 in
      let score :=
        score + evaluateMaterial (board gameState) * WEIGHTS_MATERIAL in
      let score :=
        score + evaluateKingSafety gameState * WEIGHTS_KING_SAFETY in
      let score :=
        score + evaluateCenterControl (board gameState)
                * WEIGHTS_CENTER_CONTROL in
      let score :=
        score + evaluatePieceActivity gameState * WEIGHTS_PIECE_ACTIVITY in
      let score :=
        score + evaluatePawnStructure (board gameState)
                * WEIGHTS_PAWN_STRUCTURE in
      let score := score + evaluateTactics gameState * WEIGHTS_TACTICS in
      let score := score + evaluateStrategy gameState * WEIGHTS_STRATEGY in
      (* Adjust for side to move *)
      Ok (match botColor with White => score | Black => - score end).

(** Only consider captures and checks *)
Definition tacticalMoves (gameState : GameState) (moves : list Move)
  : result (list Move) :=
  concatMapM (fun m =>
    captured <- at_ (board gameState) (to m);
    testState <- applyMove gameState m;
    if truthy captured then Ok [m]
    else
      check <- isInCheck (board testState) (currentTurn testState);
      if check then Ok [m] else Ok []) moves.

(** Check for immediate checkmate *)
Fixpoint immediateCheckmate (gameState : GameState) (moves : list Move)
  : result (option Move) :=
  match moves with
  | [] => Ok None
  | m :: rest =>
      testState <- applyMove gameState m;
      mate <- isCheckmate testState;
      if mate then Ok (Some m) else immediateCheckmate gameState rest
  end.

Local Open Scope engine_scope.

Definition orderMovesM (moves : list Move) (gameState : GameState)
    (depth : Z) : M (list Move) :=
  e <- getEngine; lift (orderMoves e moves gameState depth).

(** The loop over the tactical moves in [quiescence]; [recur] is the
    call at [depth - 1]. *)
Fixpoint quiescence_loop
    (recur : GameState -> Z -> Z -> bool -> M Z)
    (gameState : GameState) (maximizing : bool)
    (moves : list Move) (alpha beta : Z) : M Z :=
  match moves with
  | [] => ret (if maximizing then alpha else beta)
  | m :: rest =>
      testState <- lift (applyMove gameState m);
      score <- recur testState alpha beta (negb maximizing);
      if maximizing then
        if score >=? beta then ret beta
        else quiescence_loop recur gameState maximizing rest
               (if score >? alpha then score else alpha) beta
      else
        if score <=? alpha then ret alpha
        else quiescence_loop recur gameState maximizing rest
               alpha (if score <? beta then score else beta)
  end.

(** Quiescence search to avoid horizon effect *)
Fixpoint quiescence (depth : nat) (gameState : GameState) (alpha beta : Z)
    (maximizing : bool) (botColor : Color) (startTime : Z) : M Z :=
  match depth with
  | O => lift (evaluate gameState botColor)
  | S depth' =>
      t <- now;
      if t - startTime >? TIME_LIMIT
      then lift (evaluate gameState botColor)
      else
        standPat <- lift (evaluate gameState botColor);
        let continue (alpha beta : Z) : M Z :=
          moves <- lift (generateLegalMoves gameState
                           (currentTurn gameState));
          tacticalMoves <- lift (tacticalMoves gameState moves);
          match tacticalMoves with
          | [] => ret standPat
          | _ =>
              orderedMoves <- orderMovesM tacticalMoves gameState 0;
              quiescence_loop
                (fun g a b mx => quiescence depth' g a b mx botColor
                                   startTime)
                gameState maximizing orderedMoves alpha beta
          end in
        if maximizing then
          if standPat >=? beta then ret beta
          else continue (if alpha <? standPat then standPat else alpha) beta
        else
          if standPat <=? alpha then ret alpha
          else continue alpha (if beta >? standPat then standPat else beta)
  end.

(** The loop over the ordered moves in [alphaBeta]; [recur] is the call
    at [depth - 1].  It returns [bestScore] and [ttType]. *)
Fixpoint alphaBeta_loop
    (recur : GameState -> Z -> Z -> bool -> M Z)
    (gameState : GameState) (depth : Z) (maximizing : bool)
    (moves : list Move) (bestScore alpha beta : Z) (ttType : TTType)
  : M (Z * TTType) :=
  match moves with
  | [] => ret (bestScore, ttType)
  | m :: rest =>
      testState <- lift (applyMove gameState m);
      score <- recur testState alpha beta (negb maximizing);
      let improved :=
        if maximizing then score >? bestScore else score <? bestScore in
      let bestScore' := if improved then score else bestScore in
      let alpha' :=
        if maximizing && improved && (score >? alpha)
        then score else alpha in
      let beta' :=
        if negb maximizing && improved && (score <? beta)
        then score else beta in
      let ttType' :=
        if improved
           && (if maximizing then score >? alpha else score <? beta)
        then exact else ttType in
      if alpha' >=? beta' then
        _ <- updateKillerMoves m depth;
        ret (bestScore', if maximizing then lower else upper)
      else alphaBeta_loop recur gameState depth maximizing rest
             bestScore' alpha' beta' ttType'
  end.

(** Alpha-beta search with enhancements *)
Fixpoint alphaBeta (depth : nat) (gameState : GameState) (alpha beta : Z)
    (maximizing : bool) (botColor : Color) (startTime : Z) : M Z :=
  (* Time check *)
  t <- now;
  if t - startTime >? TIME_LIMIT
  then lift (evaluate gameState botColor)
  else
    (* Transposition table lookup *)
    hash <- lift (hashPosition gameState);
    ttEntry <- ttGet hash;
    let probe : option Z * Z * Z :=
      match ttEntry with
      | Some entry =>
          if (depth <=? tt_depth entry)%nat then
            match tt_type entry with
            | exact => (Some (tt_score entry), alpha, beta)
            | lower =>
                let alpha' :=
                  if tt_score entry >? alpha
                  then tt_score entry else alpha in
                (if alpha' >=? beta then Some (tt_score entry) else None,
                 alpha', beta)
            | upper =>
                let beta' :=
                  if tt_score entry <? beta
                  then tt_score entry else beta in
                (if alpha >=? beta' then Some (tt_score entry) else None,
                 alpha, beta')
            end
          else (None, alpha, beta)
      | None => (None, alpha, beta)
      end in
    match probe with
    | (Some cached, _, _) => ret cached
    | (None, alpha, beta) =>
        (* Check terminal nodes *)
        let currentColor := currentTurn gameState in
        mate <- lift (isCheckmate gameState);
        if mate
        then ret (if maximizing
                  then - MATE_SCORE + Z.of_nat depth
                  else MATE_SCORE - Z.of_nat depth)
        else
          draw <- lift (isDraw gameState);
          if draw then ret 0
          else
            match depth with
            | O =>
                (* Depth limit - enter quiescence *)
                quiescence QUIESCENCE_DEPTH gameState alpha beta
                  maximizing botColor startTime
            | S depth' =>
                (* Generate and order moves *)
                moves <- lift (generateLegalMoves gameState currentColor);
                match moves with
                | [] =>
                    check <- lift (isInCheck (board gameState)
                                     currentColor);
                    ret (if check
                         then - MATE_SCORE + Z.of_nat depth else 0)
                | _ =>
                    orderedMoves <-
                      orderMovesM moves gameState (Z.of_nat depth);
                    '(bestScore, ttType) <-
                      alphaBeta_loop
                        (fun g a b mx => alphaBeta depth' g a b mx
                                           botColor startTime)
                        gameState (Z.of_nat depth) maximizing
                        orderedMoves
                        (if maximizing then - INFINITY else INFINITY)
                        alpha beta upper;
                    (* Store in transposition table *)
                    _ <- ttSet hash {| tt_score := bestScore;
                                       tt_depth := depth;
                                       tt_type := ttType |};
                    ret bestScore
                end
            end
    end.

(** The loop over the ordered moves at the root, for one depth. *)
Fixpoint root_loop (gameState : GameState) (botColor : Color)
    (startTime : Z) (depth : nat) (moves : list Move)
    (currentBest : option Move) (currentScore : Z)
    (bestMove : Move) (bestScore : Z)
  : M (option Move * Move * Z) :=
  match moves with
  | [] => ret (currentBest, bestMove, bestScore)
  | m :: rest =>
      t <- now;
      if t - startTime >? TIME_LIMIT * 9 / 10
      then ret (currentBest, bestMove, bestScore)
      else
        testState <- lift (applyMove gameState m);
        value <- alphaBeta (depth - 1)%nat testState (- INFINITY) INFINITY
                   false botColor startTime;
        let score := - value in
        (* Update history heuristic *)
        '(currentBest, currentScore) <-
          (if score >? currentScore
           then _ <- updateHistoryTable m (Z.of_nat depth);
                ret (Some m, score)
           else ret (currentBest, currentScore));
        (* Beta cutoff at root *)
        let better := score >? bestScore in
        root_loop gameState botColor startTime depth rest
          currentBest currentScore
          (if better then m else bestMove)
          (if better then score else bestScore)
  end.

(** Iterative deepening search *)
Fixpoint deepen (gameState : GameState) (botColor : Color)
    (startTime : Z) (moves : list Move) (depths : list nat)
    (bestMove : Move) (bestScore : Z) : M Move :=
  match depths with
  | [] => ret bestMove
  | depth :: rest =>
      t <- now;
      if t - startTime >? TIME_LIMIT * 7 / 10 then ret bestMove
      else
        (* Order moves for better pruning *)
        orderedMoves <- orderMovesM moves gameState (Z.of_nat depth);
        '(currentBest, bestMove, bestScore) <-
          root_loop gameState botColor startTime depth orderedMoves
            None (- INFINITY) bestMove bestScore;
        (* Update killer moves *)
        _ <- match currentBest with
             | Some m => updateKillerMoves m 0
             | None => ret tt
             end;
        deepen gameState botColor startTime moves rest bestMove bestScore
  end.

(** Main entry point *)
Definition makeMove (gameState : GameState) (botColor : Color)
  : M (option Move) :=
  startTime <- now;
  _ <- clearOldTranspositions;
  (* Check opening book *)
  match getOpeningBookMove gameState with
  | Some bookMove => ret (Some bookMove)
  | None =>
      (* Get legal moves *)
      moves <- lift (generateLegalMoves gameState botColor);
      match moves with
      | [] => ret None
      | [m] => ret (Some m)
      | first :: _ =>
          mate <- lift (immediateCheckmate gameState moves);
          match mate with
          | Some m => ret (Some m)
          | None =>
              bestMove <- deepen gameState botColor startTime moves
                            [1; 2; 3; 4]%nat first (- INFINITY);
              ret (Some bestMove)
          end
      end
  end.

End Search.

End Opus.

(** ** More of gameState.js and App.jsx *)

(** [capturedPieces.reduce((total, piece) => total + PIECE_VALUES[piece.type], 0)] *)
Definition calculateScore (capturedPieces : list Piece) : Z :=
  foldl (fun total piece => total + PIECE_VALUES (type piece)) 0
    capturedPieces.

(** The [worker.onmessage] handler of the bot effect: [success] and
    [move] are the fields of the message the worker posted.  The move is
    checked against, and applied to, the game state of the render. *)
Definition worker_onmessage (app : App) (success : bool)
    (move : option Move) : result App :=
  if success then
    match move with
    | Some m =>
        valid <- isValidMove (board (gameState app)) (from m) (to m)
                   (gameState app);
        if valid then
          next <- executeMove (gameState app) (from m) (to m);
          Ok {| gameState := next;
                gameStarted := gameStarted app;
                isProcessingBotMove := isProcessingBotMove app;
                lastMove := Some {| from := from m; to := to m |} |}
        else Ok app                     (* Bot made an invalid move *)
    | None => Ok app                    (* Bot made an invalid move *)
    end
  else Ok app.                          (* Error in bot worker *)

(** ** Positions and games used in the statements below *)

#[export] Instance PieceType_eq_dec : EqDecision PieceType.
Proof. solve_decision. Defined.
#[export] Instance Color_eq_dec : EqDecision Color.
Proof. solve_decision. Defined.
#[export] Instance Piece_eq_dec : EqDecision Piece.
Proof. solve_decision. Defined.
#[export] Instance Square_eq_dec : EqDecision Square.
Proof. solve_decision. Defined.
#[export] Instance CastlingRights_eq_dec : EqDecision CastlingRights.
Proof. solve_decision. Defined.

(** Two game states show the same position in the sense of the
    repetition rule: same board, side to move, castling rights and
    en-passant target. *)
Definition samePosition (a b : GameState) : Prop :=
  board a = board b /\ currentTurn a = currentTurn b
  /\ castlingRights a = castlingRights b
  /\ enPassantTarget a = enPassantTarget b.

#[export] Instance samePosition_dec a b : Decision (samePosition a b).
Proof. unfold samePosition. apply _. Defined.

Definition rmap {A B} (f : A -> B) (r : result A) : result B :=
  x <- r; Ok (f x).

(** Unary minus on a JavaScript number. *)
Definition number_opp (n : number) : number :=
  match n with
  | NegInfinity => Infinity
  | Num z => Num (- z)
  | Infinity => NegInfinity
  end.

Definition blackPawn : option Piece := mk Pawn Black.

Definition sq (r c : Z) : Square := {| row := r; col := c |}.

Definition emptyBoard : Board := replicate 8 (replicate 8 None).

(** The board that holds exactly the listed pieces. *)
Definition position (pieces : list (Z * Z * PieceType * Color)) : Board :=
  foldl (fun b '(r, c, t, k) =>
           match setCell b r c (mk t k) with Ok b' => b' | _ => b end)
        emptyBoard pieces.

Definition noCastling : CastlingRights :=
  {| whiteKingSide := false; whiteQueenSide := false;
     blackKingSide := false; blackQueenSide := false |}.

(** A game state between two human players on a given board. *)
Definition stateOf (b : Board) (turn : Color) (rights : CastlingRights)
    (target : option Square) : GameState :=
  {| board := b; currentTurn := turn;
     capturedWhite := []; capturedBlack := [];
     gameStatus := Playing; whitePlayer := "human"; blackPlayer := "human";
     castlingRights := rights; enPassantTarget := target;
     moveHistory := []; positionHistory := [] |}.

Definition started (g : GameState) : App :=
  {| gameState := g; gameStarted := true; isProcessingBotMove := false;
     lastMove := None |}.

(** A started game between two human players. *)
Definition newGame : App := started (createGameState "human" "human").

(** The moves are entered one after the other through [handleMove]. *)
Definition playMoves (app : App) (moves : list Move) : result App :=
  foldl (fun r m => app <- r; handleMove app (from m) (to m)) (Ok app) moves.

(** The game states after each of the moves, in order. *)
Fixpoint statesAfter (app : App) (moves : list Move)
  : result (list GameState) :=
  match moves with
  | [] => Ok []
  | m :: rest =>
      next <- handleMove app (from m) (to m);
      later <- statesAfter next rest;
      Ok (gameState next :: later)
  end.

Definition mv (r1 c1 r2 c2 : Z) : Move :=
  {| from := sq r1 c1; to := sq r2 c2 |}.

(** White advances the pawn of row 4 to column 4, Black answers with a
    one-square push on row 2 and then the double push on row 3. *)
Definition doublePushGame : list Move :=
  [mv 4 1 4 3; mv 2 6 2 5; mv 4 3 4 4; mv 3 6 3 4].

(** The same on the edge of the board: Black double-pushes on row 0 next
    to the white pawn of row 1. *)
Definition edgeDoublePushGame : list Move :=
  [mv 1 1 1 3; mv 7 6 7 5; mv 1 3 1 4; mv 0 6 0 4].

(** A white knight pinned to its king by a black rook along row 4. *)
Definition pinnedKnight : GameState :=
  stateOf (position [(4, 0, King, White); (4, 3, Knight, White);
                     (4, 7, Rook, Black); (0, 7, King, Black)])
          White noCastling None.

(** A double push by White, then both knights out and back, twice. *)
Definition knightShuffle : list Move :=
  [mv 6 7 5 5; mv 6 0 5 2; mv 5 5 6 7; mv 5 2 6 0].

Definition repetitionGame : list Move :=
  mv 4 1 4 3 :: knightShuffle ++ knightShuffle.

(** Black to move and checkmated by queen and king in the corner. *)
Definition cornerMate : GameState :=
  stateOf (position [(0, 7, King, Black); (1, 6, Queen, White);
                     (2, 5, King, White)])
          Black noCastling None.

(** White has a rook and no king. *)
Definition kinglessWhite : GameState :=
  stateOf (position [(0, 0, Rook, White); (7, 7, King, Black)])
          White noCastling None.

(** Two white kings; the rook on (7,7) attacks the second one. *)
Definition twoWhiteKings : GameState :=
  stateOf (position [(0, 0, King, White); (7, 0, King, White);
                     (7, 7, Rook, Black); (3, 7, King, Black)])
          White noCastling None.

(** White may castle on either side. *)
Definition castlingReady : GameState :=
  stateOf (position [(4, 0, King, White); (0, 0, Rook, White);
                     (7, 0, Rook, White); (4, 7, King, Black)])
          White
          {| whiteKingSide := true; whiteQueenSide := true;
             blackKingSide := false; blackQueenSide := false |}
          None.

(** White to move mates with the queen on (1, 6). *)
Definition queenBeforeMate : GameState :=
  stateOf (position [(0, 7, King, Black); (1, 0, Queen, White);
                     (2, 5, King, White)])
          White noCastling None.

(** The initial position with the two bots seated. *)
Definition openingState : GameState :=
  createGameState "grok-3-mini" "claude-opus-4-20250514".

(** A clock that advances two seconds at every reading. *)
Definition slowClock (k : nat) : Z := 2000 * Z.of_nat k.

(** An evaluation term that is zero everywhere. *)
Definition zeroTerm {A} (_ : A) : Z := 0.

(** A white pawn one step from promotion. *)
Definition pawnOnSeventh : GameState :=
  stateOf (position [(4, 0, King, White); (2, 6, Pawn, White);
                     (7, 7, King, Black)])
          White noCastling None.

(** The lone black king, to move, faces two rooks: after (0,5)->(0,4)
    White mates at once with the rook on (0,7), after (0,5)->(0,6) only
    a move later. *)
Definition ladder : GameState :=
  stateOf (position [(0, 5, King, Black); (1, 0, Rook, White);
                     (5, 7, Rook, White); (7, 3, King, White)])
          Black noCastling None.

(** The node the search of the Opus bot reaches by the moves in order. *)
Definition searchAfter (g : GameState) (moves : list Move)
  : result GameState :=
  foldl (fun r m => g' <- r; Opus.applyMove g' m) (Ok g) moves.

(** The entry of the transposition table, after [makeMove] has run on
    [g] with a clock that never advances, evaluation terms that are zero
    and a new engine, for the node reached by [moves]. *)
Definition entryAfterMakeMove (g : GameState) (botColor : Color)
    (moves : list Move) : result (option Opus.TTEntry) :=
  node <- searchAfter g moves;
  hash <- Opus.hashPosition node;
  rmap (fun r => Opus.transpositionTable (snd r) !! hash)
    (Opus.makeMove zeroTerm zeroTerm zeroTerm zeroTerm zeroTerm zeroTerm
       zeroTerm zeroTerm g botColor Opus.freshEngine).

(** ** Vocabulary of the statements *)

(** The computation returns a value, and the value satisfies [P]. *)
Definition returns {A} (P : A -> Prop) (r : result A) : Prop :=
  exists a, r = Ok a /\ P a.

(** A square of the board. *)
Definition onBoard (s : Square) : Prop :=
  0 <= row s < 8 /\ 0 <= col s < 8.

(** The cell holds a king of the given colour. *)
Definition kingOf (c : Color) (p : option Piece) : Prop :=
  exists k, p = Some k /\ type k = King /\ color k = c.

(** The squares of a castling move of colour [c] on the given side. *)
Definition homeCol (c : Color) : Z :=
  match c with White => 0 | Black => 7 end.

Definition kingHome (c : Color) : Square := sq 4 (homeCol c).

Definition rookHome (c : Color) (kingSide : bool) : Square :=
  sq (if kingSide then 7 else 0) (homeCol c).

Definition castlingTransit (c : Color) (kingSide : bool) : Square :=
  sq (if kingSide then 5 else 3) (homeCol c).

Definition castlingDestination (c : Color) (kingSide : bool) : Square :=
  sq (if kingSide then 6 else 2) (homeCol c).

(** The rows strictly between the king's row and the rook's row. *)
Definition rowsBetween (kingSide : bool) : list Z :=
  if kingSide then [5; 6] else [3; 2; 1].

(** The cells of column [c] on the given rows are read in order and all
    of them are empty. *)
Fixpoint allEmpty (b : Board) (c : Z) (rows : list Z) : result bool :=
  match rows with
  | [] => Ok true
  | r :: rest =>
      p <- cell b r c;
      if truthy p then Ok false else allEmpty b c rest
  end.

(** The board has its eight rows. *)
Definition eightRows (b : Board) : Prop := length b = 8%nat.

(** The killer-move table has its [MAX_DEPTH] entries. *)
Definition fourKillers (e : Opus.Engine) : Prop :=
  length (Opus.killerMoves e) = 4%nat.

(** From an engine state with its killer table, the computation returns
    a value that satisfies [P] and leaves the killer table in place. *)
Definition runs {A} (P : A -> Prop) (m : Opus.M A) : Prop :=
  forall e, fourKillers e ->
    exists a e', m e = Ok (a, e') /\ fourKillers e' /\ P a.

(** A move between two squares of the board whose origin holds a piece. *)
Definition movesAPiece (b : Board) (m : Move) : Prop :=
  onBoard (from m) /\ onBoard (to m)
  /\ exists p, at_ b (from m) = Ok (Some p).

(** The board is eight rows of eight cells. *)
Definition eightByEight (b : Board) : Prop :=
  length b = 8%nat /\ forall line, In line b -> length line = 8%nat.

(** The two squares lie on a common row, column or diagonal. *)
Definition aligned (from to : Square) : Prop :=
  row to - row from = 0 \/ col to - col from = 0
  \/ Z.abs (row to - row from) = Z.abs (col to - col from).

(** The number of steps from one square to the other along their line,
    and the square reached after [k] of them. *)
Definition steps (from to : Square) : Z :=
  Z.max (Z.abs (row to - row from)) (Z.abs (col to - col from)).

Definition stepFrom (from to : Square) (k : Z) : Square :=
  {| row := row from + k * Z.sgn (row to - row from);
     col := col from + k * Z.sgn (col to - col from) |}.

(** Every square strictly between the two is empty. *)
Definition clearBetween (b : Board) (from to : Square) : Prop :=
  forall k, 0 < k < steps from to -> at_ b (stepFrom from to k) = Ok None.

(** The direction in which the pawns of a colour advance, and the column
    they start on. *)
Definition forward (c : Color) : Z :=
  match c with White => 1 | Black => -1 end.

Definition pawnStartCol (c : Color) : Z :=
  match c with White => 1 | Black => 6 end.

(** The lines along which a rook, a bishop and a queen move. *)
Definition lineOf (t : PieceType) (from to : Square) : Prop :=
  match t with
  | Rook => row to - row from = 0 \/ col to - col from = 0
  | Bishop => Z.abs (row to - row from) = Z.abs (col to - col from)
  | Queen => aligned from to
  | _ => False
  end.

(** The cell does not hold a piece of colour [c]. *)
Definition notOwn (c : Color) (p : option Piece) : Prop :=
  forall k, p = Some k -> color k <> c.

(** A move of colour [c] that [isValidMove] accepts and that leaves the
    king of [c] out of check on the board after the move. *)
Definition legalMove (b : Board) (c : Color) (g : GameState) (m : Move)
  : Prop :=
  onBoard (from m) /\ onBoard (to m)
  /\ (exists piece, at_ b (from m) = Ok (Some piece) /\ color piece = c)
  /\ isValidMove b (from m) (to m) g = Ok true
  /\ exists testBoard, makeMove b (from m) (to m) = Ok testBoard
                       /\ isInCheck testBoard c = Ok false.

(** A piece of colour [c] on square [from] attacks square [s]. *)
Definition attacks (b : Board) (c : Color) (from s : Square) : Prop :=
  onBoard from
  /\ exists piece, at_ b from = Ok (Some piece) /\ color piece = c
                   /\ canPieceAttackSquare b from s piece = Ok true.

(** The pieces that colour [c] has captured. *)
Definition capturedBy (c : Color) (g : GameState) : list Piece :=
  match c with White => capturedWhite g | Black => capturedBlack g end.

(** Two cells are written alike in a position string: both are empty,
    or both hold a piece of one colour whose type names start with the
    same letter. *)
Definition writtenAlike (p q : option Piece) : Prop :=
  match p, q with
  | None, None => True
  | Some a, Some b =>
      color a = color b
      /\ firstChar (typeName (type a)) = firstChar (typeName (type b))
  | _, _ => False
  end.

(** The move checkmates: on the state the Opus bot builds for it, the
    side to move is checkmated. *)
Definition matesInOne (g : GameState) (m : Move) : Prop :=
  exists testState,
    Opus.applyMove g m = Ok testState
    /\ Opus.isCheckmate testState = Ok true.

(** The states of the app in a started game: the state at the start,
    and the states after a move made on the board or a message from a
    bot's worker, the squares being squares of the board. *)
Inductive reachable : App -> Prop :=
| reachable_start (white black : string) :
    reachable (started (createGameState white black))
| reachable_handleMove (app app' : App) (from to : Square) :
    reachable app -> onBoard from -> onBoard to ->
    handleMove app from to = Ok app' -> reachable app'
| reachable_onmessage (app app' : App) (success : bool)
    (move : option Move) :
    reachable app ->
    (forall m, move = Some m -> onBoard (from m) /\ onBoard (to m)) ->
    worker_onmessage app success move = Ok app' -> reachable app'.

(** The position seen from the other side of the Grok bot's tables: the
    rows in reverse order and the colours exchanged. *)
Definition swapColors (p : option Piece) : option Piece :=
  match p with
  | Some k => Some {| type := type k; color := opposite (color k) |}
  | None => None
  end.

Definition mirror (b : Board) : Board := reverse (map (map swapColors) b).

Definition flipRow (s : Square) : Square := sq (7 - row s) (col s).

(** What a cell on square [s] adds to the score of [evaluateBoard]. *)
Definition squareScore (p : option Piece) (s : Square) : Z :=
  match p with
  | None => 0
  | Some piece =>
      let pieceValue :=
        PIECE_VALUES (type piece) * 100
        + Grok.tableEntry (Grok.PIECE_SQUARE_TABLES (type piece))
            (match color piece with White => row s | Black => 7 - row s end)
            (col s) in
      match color piece with White => pieceValue | Black => - pieceValue end
  end.

(** The content of a square, with a row that does not exist read as
    empty. *)
Definition cellAt (b : Board) (s : Square) : option Piece :=
  match at_ b s with Ok p => p | _ => None end.

Definition sumZ (l : list Z) : Z := foldr Z.add 0 l.

(** * Properties *)

(** ** Sanity checks on the embedding *)

Example initial_position_has_twenty_moves :
  let g := createGameState "human" "human" in
  (l <- Grok.getLegalMoves (board g) White g; Ok (length l)) = Ok 20%nat.
Proof. vm_compute. reflexivity. Qed.

Example corner_mate_is_checkmate :
  isCheckmate (board cornerMate) Black cornerMate = Ok true.
Proof. vm_compute. reflexivity. Qed.

(** ** En passant through the apply boundary *)

(** C1.  After Black's double push from (3,6) to (3,4) the target is the
    passed-over square (3,5) and White's pawn on (4,4) may move onto it.
    Applying that move leaves the double-pushed pawn on (3,4): the square
    that [executeMove] empties is (2,5), one row off the destination,
    where another black pawn happens to stand.  The passed pawn is not
    removed. *)
Theorem en_passant_leaves_the_pushed_pawn :
  exists before after,
    playMoves newGame doublePushGame = Ok before /\
    enPassantTarget (gameState before) = Some (sq 3 5) /\
    isValidMove (board (gameState before)) (sq 4 4) (sq 3 5)
      (gameState before) = Ok true /\
    handleMove before (sq 4 4) (sq 3 5) = Ok after /\
    cell (board (gameState after)) 3 5 = Ok (mk Pawn White) /\
    cell (board (gameState after)) 3 4 = Ok blackPawn /\
    cell (board (gameState before)) 2 5 = Ok blackPawn /\
    cell (board (gameState after)) 2 5 = Ok None /\
    enPassantTarget (gameState after) = None.
Proof.
  do 2 eexists.
  split; [vm_compute; reflexivity|].
  repeat split; vm_compute; reflexivity.
Qed.

(** On the edge of the board the same capture reads [newBoard[-1]] and
    the state updater throws. *)
Lemma en_passant_on_row_0_throws :
  exists before,
    playMoves newGame edgeDoublePushGame = Ok before /\
    enPassantTarget (gameState before) = Some (sq 0 5) /\
    isValidMove (board (gameState before)) (sq 1 4) (sq 0 5)
      (gameState before) = Ok true /\
    executeMove (gameState before) (sq 1 4) (sq 0 5) = TypeError.
Proof.
  eexists. split; [vm_compute; reflexivity|].
  repeat split; vm_compute; reflexivity.
Qed.

(** ** Moves that expose the mover's own king *)

(** C2.  The white knight on (4,3) shields its king from the rook on
    (4,7).  Its jump to (5,5) is not among the legal moves, yet
    [handleMove] applies it and White's king is attacked in the new
    position. *)
Theorem handleMove_accepts_pinned_piece :
  exists legal after,
    Grok.getLegalMoves (board pinnedKnight) White pinnedKnight = Ok legal /\
    ~ In (mv 4 3 5 5) legal /\
    isInCheck (board pinnedKnight) White = Ok false /\
    handleMove (started pinnedKnight) (sq 4 3) (sq 5 5) = Ok after /\
    cell (board (gameState after)) 5 5 = Ok (mk Knight White) /\
    currentTurn (gameState after) = Black /\
    isInCheck (board (gameState after)) White = Ok true.
Proof.
  do 2 eexists.
  split; [vm_compute; reflexivity|].
  split; [cbn; intuition discriminate|].
  split; [vm_compute; reflexivity|].
  split; [vm_compute; reflexivity|].
  repeat split; vm_compute; reflexivity.
Qed.

(** ** Draw by repetition *)

Lemma countRepetitions_spec (current : string) (l : list string) :
  forall count : Z,
    count < 3 ->
    countRepetitions current count l = true
    <-> 3 <= count + Z.of_nat (count_occ string_dec l current).
Proof.
  induction l as [|position l IH]; intros count Hc; simpl.
  - split; [discriminate | lia].
  - destruct (String.eqb_spec position current) as [->|Hne].
    + destruct (string_dec current current) as [_|]; [|congruence].
      destruct (Z.geb_spec (count + 1) 3) as [Hge|Hlt].
      * split; [lia | reflexivity].
      * rewrite IH by lia. lia.
    + destruct (string_dec position current) as [|_]; [congruence|].
      apply IH, Hc.
Qed.

(** C3, as the code has it.  A draw is reported exactly when the last
    entry of [positionHistory] occurs at least three times in it; the
    entries are the strings of [getBoardPositionString], which depend on
    the board, the side to move and the castling rights and not on the
    en-passant target. *)
Theorem isDrawByRepetition_counts_position_strings :
  (forall g : GameState,
      isDrawByRepetition g = true
      <-> exists current,
            last (positionHistory g) = Some current /\
            (3 <= count_occ string_dec (positionHistory g) current)%nat)
  /\ (forall (b : Board) (g g' : GameState),
        currentTurn g = currentTurn g' ->
        castlingRights g = castlingRights g' ->
        getBoardPositionString b g = getBoardPositionString b g')
  /\ (forall (b : Board) (g : GameState) (target : option Square),
        getBoardPositionString b (setEnPassantTarget target g)
        = getBoardPositionString b g).
Proof.
  split; [|split].
  - intros g. unfold isDrawByRepetition.
    destruct (Z.ltb_spec (Z.of_nat (length (positionHistory g))) 3) as [Hs|Hl].
    + split; [discriminate|].
      intros (current & _ & Hn).
      pose proof (count_occ_bound string_dec current (positionHistory g)).
      lia.
    + destruct (last (positionHistory g)) as [current|] eqn:Hlast.
      * rewrite countRepetitions_spec by lia.
        split.
        -- intros H. exists current. split; [reflexivity | lia].
        -- intros (c & Hc & Hn). injection Hc as <-. lia.
      * split; [discriminate|]. intros (c & Hc & _). discriminate.
  - intros b g g' Ht Hr. unfold getBoardPositionString.
    rewrite Ht, Hr. reflexivity.
  - intros b g target. reflexivity.
Qed.

(** C3, counterexample.  White's double push sets the target (4,2); the
    knights then go out and back twice.  The position after the ninth
    move has stood twice with its en-passant target (after moves 5 and
    9: the position after move 1 had the target set), and the draw is
    declared all the same. *)
Lemma repetition_counts_positions_with_other_target :
  exists states final,
    statesAfter newGame repetitionGame = Ok states /\
    last states = Some final /\
    length (filter (samePosition final) states) = 2%nat /\
    isDrawByRepetition final = true /\
    gameStatus final = Draw.
Proof.
  do 2 eexists.
  split; [vm_compute; reflexivity|].
  split; [reflexivity|].
  split; [vm_compute; reflexivity|].
  split; vm_compute; reflexivity.
Qed.

(** ** Basic facts about the exception monad and the board *)

Lemma rbind_Ok_inv {A B} (m : result A) (k : A -> result B) (b : B) :
  rbind m k = Ok b -> exists a, m = Ok a /\ k a = Ok b.
Proof. destruct m; simpl; intros H; try discriminate. eauto. Qed.

Lemma returns_Ok {A} (P : A -> Prop) (a : A) : P a -> returns P (Ok a).
Proof. intros H. exists a. auto. Qed.

Lemma returns_bind {A B} (P : A -> Prop) (Q : B -> Prop)
    (m : result A) (k : A -> result B) :
  returns P m -> (forall a, P a -> returns Q (k a)) -> returns Q (rbind m k).
Proof. intros (a & -> & Ha) Hk. simpl. auto. Qed.

Lemma returns_weaken {A} (P Q : A -> Prop) (r : result A) :
  returns P r -> (forall a, P a -> Q a) -> returns Q r.
Proof. intros (a & -> & Ha) H. exists a. auto. Qed.

Lemma allSquares_onBoard (s : Square) : In s allSquares -> onBoard s.
Proof.
  intros H. apply (proj1 (List.Forall_forall onBoard allSquares)); [|exact H].
  clear. unfold onBoard. vm_compute.
  repeat (constructor; [repeat split; discriminate|]). constructor.
Qed.

Lemma index_Some {A} (l : list A) (i : Z) :
  0 <= i < Z.of_nat (length l) -> exists x, index l i = Some x.
Proof.
  intros H. unfold index.
  destruct (Z.ltb_spec i 0); [lia|].
  apply lookup_lt_is_Some_2. lia.
Qed.

Lemma cell_returns (b : Board) (r c : Z) :
  length b = 8%nat -> 0 <= r < 8 -> returns (fun _ => True) (cell b r c).
Proof.
  intros Hb Hr. unfold cell.
  destruct (index_Some b r) as [line ->]; [lia|].
  apply returns_Ok. exact I.
Qed.

Lemma at_returns (b : Board) (s : Square) :
  length b = 8%nat -> In s allSquares -> returns (fun _ => True) (at_ b s).
Proof.
  intros Hb Hs. apply cell_returns; [exact Hb|].
  apply allSquares_onBoard in Hs. apply Hs.
Qed.

(** ** Static evaluation and the perspective *)

Section Evaluation.

Variable evaluateMaterial : Board -> Z.
Variable evaluateKingSafety : GameState -> Z.
Variable evaluateCenterControl : Board -> Z.
Variable evaluatePieceActivity : GameState -> Z.
Variable evaluatePawnStructure : Board -> Z.
Variable evaluateTactics : GameState -> Z.
Variable evaluateStrategy : GameState -> Z.

Local Abbreviation evaluate :=
  (Opus.evaluate evaluateMaterial evaluateKingSafety evaluateCenterControl
     evaluatePieceActivity evaluatePawnStructure evaluateTactics
     evaluateStrategy).

(** C8.  [evaluate(p, White) == -evaluate(p, Black)] for the static
    evaluation of the Opus bot, whatever its seven terms compute, and
    for the leaf evaluation of the Grok bot's [minimax].  When one side
    of the equation throws, so does the other. *)
Theorem evaluate_antisymmetric :
  (forall g : GameState,
      evaluate g White = rmap Z.opp (evaluate g Black))
  /\ (forall (b : Board) (g : GameState) (alpha beta : number)
             (maximizingPlayer : bool),
        rmap Grok.score
          (Grok.minimax 0 b g alpha beta maximizingPlayer White)
        = rmap (fun r => number_opp (Grok.score r))
            (Grok.minimax 0 b g alpha beta maximizingPlayer Black)).
Proof.
  split.
  - intros g. unfold Opus.evaluate, rmap.
    destruct (Opus.isCheckmate g) as [[|]| |]; simpl; try reflexivity.
    + destruct (currentTurn g); reflexivity.
    + destruct (Opus.isDraw g) as [[|]| |]; simpl; try reflexivity.
      f_equal. lia.
  - intros b g alpha beta maximizingPlayer. unfold rmap. simpl.
    destruct (Grok.evaluateBoard b) as [e| |]; simpl; try reflexivity.
    f_equal. f_equal. lia.
Qed.

End Evaluation.

(** ** Positions without a king, or with two *)

Lemma findKing_loop_None (b : Board) (c : Color) (l : list Square) :
  (forall s, In s l -> exists p, at_ b s = Ok p /\ ~ kingOf c p) ->
  findKing_loop b c l = Ok None.
Proof.
  induction l as [|s l IH]; intros H; simpl; [reflexivity|].
  destruct (H s) as (p & -> & Hp); [left; reflexivity|]. simpl.
  assert (IH' : findKing_loop b c l = Ok None)
    by (apply IH; intros s' Hs'; apply H; right; exact Hs').
  destruct p as [k|]; [|exact IH'].
  destruct (PieceType_eqb (type k) King && Color_eqb (color k) c) eqn:E;
    [|exact IH'].
  exfalso. apply Hp. exists k. split; [reflexivity|].
  apply andb_true_iff in E as [Ht Hc].
  split; [destruct (type k); (reflexivity || discriminate)
         | destruct (color k), c; (reflexivity || discriminate)].
Qed.

(** C9, as the code has it.  When no king of a colour stands on the
    board, check detection does not refuse the position: [findKing]
    returns [null] and [isInCheck] returns [false] for that colour. *)
Theorem isInCheck_false_without_king (b : Board) (c : Color) :
  length b = 8%nat ->
  (forall s p, In s allSquares -> at_ b s = Ok p -> ~ kingOf c p) ->
  findKing b c = Ok None /\ isInCheck b c = Ok false.
Proof.
  intros Hb Hno.
  assert (Hk : findKing b c = Ok None).
  { apply findKing_loop_None. intros s Hs.
    destruct (at_returns b s Hb Hs) as (p & Hp & _).
    exists p. split; [exact Hp | apply (Hno s p Hs Hp)]. }
  split; [exact Hk|]. unfold isInCheck. rewrite Hk. reflexivity.
Qed.

Lemma isInCheck_false_without_king_witness :
  findKing (board kinglessWhite) White = Ok None
  /\ isInCheck (board kinglessWhite) White = Ok false.
Proof.
  apply (isInCheck_false_without_king (board kinglessWhite) White).
  - reflexivity.
  - intros s p Hs Hp (k & -> & Ht & Hc).
    revert Hp. vm_compute in Hs.
    repeat (destruct Hs as [<-|Hs];
            [vm_compute; intros [=]; subst k; simpl in *; congruence|]).
    destruct Hs.
Defined.

(** C9, counterexample.  White has no king: [isInCheck] answers [false]
    and both bots select a move for White as on any other position.
    With two white kings, the attack on the second one goes unnoticed. *)
Lemma missing_king_goes_unnoticed :
  isInCheck (board kinglessWhite) White = Ok false
  /\ Grok.makeMove kinglessWhite White false = Ok (Some (mv 0 0 0 7))
  /\ rmap fst
       (Opus.makeMove zeroTerm zeroTerm zeroTerm zeroTerm zeroTerm zeroTerm
          zeroTerm zeroTerm kinglessWhite White Opus.freshEngine)
     = Ok (Some (mv 0 0 0 1))
  /\ isSquareUnderAttack (board twoWhiteKings) (sq 7 0) Black = Ok true
  /\ isInCheck (board twoWhiteKings) White = Ok false.
Proof.
  split; [vm_compute; reflexivity|].
  split; [vm_compute; reflexivity|].
  split; [vm_compute; reflexivity|].
  split; vm_compute; reflexivity.
Qed.

(** ** Reading back what was written *)

Lemma index_in_range {A} (l : list A) (i : Z) :
  0 <= i -> index l i = l !! Z.to_nat i.
Proof. intros H. unfold index. destruct (Z.ltb_spec i 0); [lia|reflexivity]. Qed.

Lemma index_setIndex_eq (line : list (option Piece)) (c : Z)
    (v : option Piece) :
  0 <= c -> index (setIndex line c v) c = Some v.
Proof.
  intros Hc. rewrite index_in_range by exact Hc. unfold setIndex.
  destruct (Z.ltb_spec c 0); [lia|].
  destruct (Z.ltb_spec c (Z.of_nat (length line))).
  - apply list_lookup_insert_eq. lia.
  - rewrite lookup_app_r by lia.
    rewrite lookup_app_r by (rewrite length_replicate; lia).
    rewrite length_replicate.
    replace (Z.to_nat c - length line - (Z.to_nat c - length line))%nat
      with 0%nat by lia.
    reflexivity.
Qed.

Lemma index_Some_inv {A} (l : list A) (i : Z) (x : A) :
  index l i = Some x ->
  0 <= i < Z.of_nat (length l) /\ l !! Z.to_nat i = Some x.
Proof.
  unfold index. destruct (Z.ltb_spec i 0) as [Hneg|Hpos]; [discriminate|].
  intros H. split; [|exact H].
  apply lookup_lt_Some in H. lia.
Qed.

Lemma setCell_inv (b b' : Board) (r c : Z) (v : option Piece) :
  setCell b r c v = Ok b' ->
  0 <= r < Z.of_nat (length b) /\
  exists line, index b r = Some line /\
               b' = <[Z.to_nat r := setIndex line c v]> b.
Proof.
  unfold setCell. intros H.
  destruct (index b r) as [line|] eqn:E; [|discriminate H].
  injection H as Hb'. subst b'.
  split; [apply (index_Some_inv _ _ _ E)|]. exists line. auto.
Qed.

Lemma setCell_length (b b' : Board) (r c : Z) (v : option Piece) :
  setCell b r c v = Ok b' -> length b' = length b.
Proof.
  intros H. apply setCell_inv in H as (_ & line & _ & ->).
  apply length_insert.
Qed.

(** [board[r][c] = v; board[r][c]] reads [v]. *)
Lemma cell_setCell_eq (b b' : Board) (r c : Z) (v : option Piece) :
  setCell b r c v = Ok b' -> 0 <= c -> cell b' r c = Ok v.
Proof.
  intros H Hc. apply setCell_inv in H as (Hr & line & Hline & ->).
  unfold cell. rewrite index_in_range by lia.
  rewrite list_lookup_insert_eq by lia.
  rewrite index_setIndex_eq by exact Hc. reflexivity.
Qed.

(** ** What [executeMove] returns *)

Ltac bind_inv H x Hx :=
  apply rbind_Ok_inv in H as (x & Hx & H).

(** The fields of the state that [executeMove] returns which do not
    depend on the game status. *)
Lemma executeMove_inv (prevState next : GameState) (from to : Square) :
  executeMove prevState from to = Ok next ->
  exists capturedPiece movingPiece,
    at_ (board prevState) to = Ok capturedPiece /\
    at_ (board prevState) from = Ok (Some movingPiece) /\
    currentTurn next = opposite (currentTurn prevState) /\
    castlingRights next =
      updateCastlingRights (castlingRights prevState) movingPiece
        capturedPiece from to /\
    enPassantTarget next =
      (if PieceType_eqb (type movingPiece) Pawn
          && (Z.abs (col to - col from) =? 2)
       then Some {| row := row to; col := (col from + col to) / 2 |}
       else None) /\
    (PieceType_eqb (type movingPiece) Pawn
     && (col to =? match color movingPiece with White => 7 | Black => 0 end)
     = true ->
     exists b, setCell b (row to) (col to)
                 (Some {| type := Queen; color := color movingPiece |})
               = Ok (board next)).
Proof.
  unfold executeMove. intros H.
  bind_inv H capturedPiece Hcap.
  bind_inv H moving Hmov.
  destruct moving as [movingPiece|]; [|discriminate].
  exists capturedPiece, movingPiece.
  bind_inv H ep Hep. destruct ep as [enPassantCapturedPiece b1].
  bind_inv H cr Hcr. destruct cr as [castlingRookMove0 b2].
  bind_inv H b3 Hb3.
  bind_inv H b4 Hb4.
  bind_inv H b5 Hb5.
  bind_inv H positionString Hps.
  bind_inv H inCheck Hic.
  bind_inv H hasLegalMoves Hlm.
  injection H as <-. simpl.
  repeat (split; [reflexivity || assumption|]).
  intros Hpromo. rewrite Hpromo in Hb5. exists b4. exact Hb5.
Qed.
(** ** Promotion *)

(** C10.  When [executeMove] moves a pawn onto the last column of its
    direction (7 for White, 0 for Black), the destination square of the
    new board holds a queen of the pawn's colour.  The move carries no
    promotion field; the queen is placed whatever else the move does. *)
Theorem executeMove_promotes_to_queen
    (prevState next : GameState) (from to : Square) (pawn : Piece) :
  executeMove prevState from to = Ok next ->
  at_ (board prevState) from = Ok (Some pawn) ->
  type pawn = Pawn ->
  col to = match color pawn with White => 7 | Black => 0 end ->
  at_ (board next) to = Ok (Some {| type := Queen; color := color pawn |}).
Proof.
  intros Hexec Hfrom Htype Hcol.
  apply executeMove_inv in Hexec
    as (capturedPiece & movingPiece & _ & Hfrom' & _ & _ & _ & Hpromo).
  rewrite Hfrom in Hfrom'. injection Hfrom' as <-.
  destruct Hpromo as (b & Hset).
  { rewrite Htype, Hcol. simpl. apply Z.eqb_refl. }
  unfold at_. apply (cell_setCell_eq _ _ _ _ _ Hset).
  rewrite Hcol. destruct (color pawn); lia.
Qed.

Lemma executeMove_promotes_to_queen_witness :
  exists next,
    executeMove pawnOnSeventh (sq 2 6) (sq 2 7) = Ok next /\
    at_ (board next) (sq 2 7) = Ok (mk Queen White).
Proof.
  destruct (executeMove pawnOnSeventh (sq 2 6) (sq 2 7)) as [next| |] eqn:E;
    [|vm_compute in E; discriminate E..].
  exists next. split; [reflexivity|].
  apply (executeMove_promotes_to_queen pawnOnSeventh next (sq 2 6) (sq 2 7)
           {| type := Pawn; color := White |} E);
    reflexivity.
Defined.

(** ** Castling rights and the en-passant target across a move *)

Lemma updateCastlingRights_monotone (rights : CastlingRights)
    (movingPiece : Piece) (capturedPiece : option Piece) (from to : Square) :
  let rights' :=
    updateCastlingRights rights movingPiece capturedPiece from to in
  (whiteKingSide rights' = true -> whiteKingSide rights = true)
  /\ (whiteQueenSide rights' = true -> whiteQueenSide rights = true)
  /\ (blackKingSide rights' = true -> blackKingSide rights = true)
  /\ (blackQueenSide rights' = true -> blackQueenSide rights = true).
Proof.
  unfold updateCastlingRights.
  destruct rights as [wk wq bk bq], movingPiece as [t c].
  destruct capturedPiece as [[t' c']|], t, c; simpl;
    try destruct t'; try destruct c'; simpl;
    repeat match goal with
           | |- context [if ?x =? ?y then _ else _] => destruct (x =? y)
           end;
    simpl; intuition congruence.
Qed.

(** A pawn that [isValidMove] lets advance by two columns stays on its
    row. *)
Lemma valid_two_column_pawn_move_is_a_push
    (g : GameState) (from to : Square) (pawn : Piece) :
  isValidMove (board g) from to g = Ok true ->
  at_ (board g) from = Ok (Some pawn) ->
  type pawn = Pawn ->
  Z.abs (col to - col from) = 2 ->
  row to = row from.
Proof.
  unfold isValidMove. intros H Hfrom Htype Hcols.
  rewrite Hfrom in H. simpl in H.
  bind_inv H toPiece Hto.
  repeat match type of H with
         | (if ?c then Ok false else _) = Ok true =>
             destruct c; [discriminate H|]
         end.
  rewrite Htype in H. unfold isValidPawnMove in H.
  rewrite Hto in H. simpl in H.
  destruct (Z.eqb_spec (row to - row from) 0) as [|Hne]; [lia|].
  destruct (color pawn);
    match type of H with
    | (if ?a && ?b then _ else _) = _ =>
        destruct a; simpl in H; [|discriminate H];
        destruct (Z.eqb_spec (col to - col from) 1);
        destruct (Z.eqb_spec (col to - col from) (-1));
        try lia; discriminate H
    end.
Qed.

(** C7.  Across [executeMove] a castling right never turns from false to
    true, and the en-passant target of the new state is null unless the
    move advanced a pawn by two columns; in that case it is the square
    half-way, which for a move that [isValidMove] accepted is the square
    the pawn passed over on its row. *)
Theorem executeMove_rights_and_target
    (prevState next : GameState) (from to : Square) :
  executeMove prevState from to = Ok next ->
  ((whiteKingSide (castlingRights next) = true ->
    whiteKingSide (castlingRights prevState) = true)
   /\ (whiteQueenSide (castlingRights next) = true ->
       whiteQueenSide (castlingRights prevState) = true)
   /\ (blackKingSide (castlingRights next) = true ->
       blackKingSide (castlingRights prevState) = true)
   /\ (blackQueenSide (castlingRights next) = true ->
       blackQueenSide (castlingRights prevState) = true))
  /\ exists movingPiece,
       at_ (board prevState) from = Ok (Some movingPiece) /\
       (type movingPiece = Pawn /\ Z.abs (col to - col from) = 2 ->
        exists target,
          enPassantTarget next = Some target /\
          row target = row to /\
          col target - col from = col to - col target) /\
       (~ (type movingPiece = Pawn /\ Z.abs (col to - col from) = 2) ->
        enPassantTarget next = None) /\
       (isValidMove (board prevState) from to prevState = Ok true ->
        type movingPiece = Pawn -> Z.abs (col to - col from) = 2 ->
        row to = row from).
Proof.
  intros Hexec.
  apply executeMove_inv in Hexec
    as (capturedPiece & movingPiece & _ & Hfrom & _ & Hrights & Htarget & _).
  split.
  - rewrite Hrights. apply updateCastlingRights_monotone.
  - exists movingPiece. split; [exact Hfrom|].
    split; [|split].
    + intros [Ht Hc]. rewrite Htarget, Ht.
      apply Z.eqb_eq in Hc as Hc'. rewrite Hc'. simpl.
      eexists. split; [reflexivity|]. simpl. split; [reflexivity|].
      assert (Hmid : col to = col from + 2 \/ col to = col from - 2) by lia.
      destruct Hmid as [E|E]; rewrite E.
      * replace (col from + (col from + 2)) with ((col from + 1) * 2) by lia.
        rewrite Z.div_mul by lia. lia.
      * replace (col from + (col from - 2)) with ((col from - 1) * 2) by lia.
        rewrite Z.div_mul by lia. lia.
    + intros Hnot. rewrite Htarget.
      destruct (PieceType_eqb (type movingPiece) Pawn) eqn:Et; [|reflexivity].
      destruct (Z.eqb_spec (Z.abs (col to - col from)) 2) as [E|E];
        [|reflexivity].
      exfalso. apply Hnot. split; [|exact E].
      destruct (type movingPiece); (reflexivity || discriminate).
    + intros Hvalid Ht Hc.
      apply (valid_two_column_pawn_move_is_a_push prevState from to
               movingPiece Hvalid Hfrom Ht Hc).
Qed.

Lemma executeMove_rights_and_target_witness :
  exists next,
    executeMove (createGameState "human" "human") (sq 4 1) (sq 4 3) = Ok next
    /\ enPassantTarget next = Some (sq 4 2)
    /\ castlingRights next
       = castlingRights (createGameState "human" "human").
Proof.
  destruct (executeMove (createGameState "human" "human") (sq 4 1) (sq 4 3))
    as [next| |] eqn:E; [|vm_compute in E; discriminate E..].
  exists next. split; [reflexivity|].
  destruct (executeMove_rights_and_target _ _ _ _ E)
    as (_ & movingPiece & Hfrom & Hpush & _ & _).
  vm_compute in Hfrom. injection Hfrom as <-.
  destruct Hpush as (target & Ht & Hrow & Hcol); [split; reflexivity|].
  split.
  - rewrite Ht. destruct target as [r c]. simpl in *.
    f_equal. unfold sq. f_equal; lia.
  - vm_compute in E. injection E as <-. reflexivity.
Defined.
(** ** Castling *)

Ltac step H :=
  match type of H with
  | rbind ?m ?k = Ok _ =>
      let x := fresh "x" in
      let Hx := fresh "Hx" in
      apply rbind_Ok_inv in H as (x & Hx & H)
  | (if ?c then _ else _) = Ok _ =>
      let E := fresh "E" in destruct c eqn:E; try discriminate H
  | match ?x with _ => _ end = Ok _ =>
      let E := fresh "E" in destruct x eqn:E; try discriminate H
  end.

Lemma allEmpty_true (b : Board) (c : Z) (rows : list Z) :
  allEmpty b c rows = Ok true
  <-> forall r, In r rows -> cell b r c = Ok None.
Proof.
  induction rows as [|r rows IH]; simpl.
  - split; [intros _ r [] | reflexivity].
  - split.
    + intros H. step H. step H.
      destruct x; [discriminate E|].
      intros r' [<-|Hr']; [exact Hx | apply IH; assumption].
    + intros H. rewrite (H r) by (left; reflexivity). simpl.
      apply IH. intros r' Hr'. apply H. right. exact Hr'.
Qed.

(** [isValidCastling] for a king that stands on its home square and is
    asked to move two rows: the loops written out. *)
Lemma isValidCastling_unfold (b : Board) (g : GameState) (c : Color)
    (kingSide : bool) :
  at_ b (kingHome c) = Ok (mk King c) ->
  isValidCastling b (kingHome c) (castlingDestination c kingSide) g
  = (rookPiece <- at_ b (rookHome c kingSide);
     if match rookPiece with
        | None => true
        | Some rook => negb (PieceType_eqb (type rook) Rook)
                       || negb (Color_eqb (color rook) c)
        end
     then Ok false else
     if negb (castlingKey c kingSide (castlingRights g)) then Ok false else
     empty <- allEmpty b (homeCol c) (rowsBetween kingSide);
     if negb empty then Ok false else
     inCheck <- isSquareUnderAttack b (kingHome c) (opposite c);
     if inCheck then Ok false else
     attacked <- anyM (fun s => isSquareUnderAttack b s (opposite c))
                   [castlingTransit c kingSide;
                    castlingDestination c kingSide];
     if attacked then Ok false else Ok true).
Proof.
  intros Hking. unfold isValidCastling. rewrite Hking.
  destruct c, kingSide; reflexivity.
Qed.

Lemma anyM_false {A} (f : A -> result bool) (l : list A) :
  anyM f l = Ok false <-> forall x, In x l -> f x = Ok false.
Proof.
  induction l as [|x l IH]; simpl.
  - split; [intros _ x [] | reflexivity].
  - split.
    + intros H. step H. destruct x0; [discriminate H|].
      intros y [<-|Hy]; [exact Hx | apply IH; assumption].
    + intros H. rewrite (H x) by (left; reflexivity). simpl.
      apply IH. intros y Hy. apply H. right. exact Hy.
Qed.

Lemma Color_eqb_eq (a b : Color) : Color_eqb a b = true <-> a = b.
Proof. destruct a, b; simpl; split; congruence. Qed.

Lemma PieceType_eqb_eq (a b : PieceType) : PieceType_eqb a b = true <-> a = b.
Proof. destruct a, b; simpl; split; congruence. Qed.

Lemma Color_eqb_refl (c : Color) : Color_eqb c c = true.
Proof. destruct c; reflexivity. Qed.

Lemma isValidCastling_iff (g : GameState) (c : Color) (kingSide : bool) :
  at_ (board g) (kingHome c) = Ok (mk King c) ->
  (castlingKey c kingSide (castlingRights g) = true ->
   at_ (board g) (rookHome c kingSide) = Ok (mk Rook c)) ->
  isValidCastling (board g) (kingHome c) (castlingDestination c kingSide) g
  = Ok true
  <-> castlingKey c kingSide (castlingRights g) = true
      /\ (forall r, In r (rowsBetween kingSide) ->
                    cell (board g) r (homeCol c) = Ok None)
      /\ isSquareUnderAttack (board g) (kingHome c) (opposite c) = Ok false
      /\ isSquareUnderAttack (board g) (castlingTransit c kingSide)
           (opposite c) = Ok false
      /\ isSquareUnderAttack (board g) (castlingDestination c kingSide)
           (opposite c) = Ok false.
Proof.
  intros Hking Hrook.
  rewrite (isValidCastling_unfold _ g c kingSide Hking).
  split.
  - intros H.
    step H. step H. step H. step H. step H. step H. step H. step H. step H.
    apply negb_false_iff in E0. apply negb_false_iff in E1. subst.
    split; [exact E0|].
    split; [apply allEmpty_true; exact Hx0|].
    split; [exact Hx1|].
    pose proof (proj1 (anyM_false _ _) Hx2) as Hsq.
    split; apply Hsq; simpl; auto.
  - intros (Hflag & Hempty & Hcheck & Htransit & Hlanding).
    rewrite (Hrook Hflag). simpl.
    rewrite Color_eqb_refl, Hflag. simpl.
    rewrite (proj2 (allEmpty_true _ _ _) Hempty). simpl.
    rewrite Hcheck. simpl. rewrite Htransit. simpl. rewrite Hlanding.
    reflexivity.
Qed.

Lemma isValidMove_castling_unfold (g : GameState) (c : Color)
    (kingSide : bool) :
  currentTurn g = c ->
  at_ (board g) (kingHome c) = Ok (mk King c) ->
  isValidMove (board g) (kingHome c) (castlingDestination c kingSide) g
  = (toPiece <- at_ (board g) (castlingDestination c kingSide);
     if match toPiece with
        | Some toPiece => Color_eqb (color toPiece) c
        | None => false
        end
     then Ok false
     else isValidCastling (board g) (kingHome c)
            (castlingDestination c kingSide) g).
Proof.
  intros Hturn Hking. unfold isValidMove. rewrite Hking, Hturn.
  destruct (at_ (board g) (castlingDestination c kingSide))
    as [[toPiece|]| |]; try reflexivity.
  - destruct c, kingSide; simpl; destruct (color toPiece); reflexivity.
  - destruct c, kingSide; reflexivity.
Qed.

Lemma castlingDestination_between (c : Color) (kingSide : bool) :
  In (row (castlingDestination c kingSide)) (rowsBetween kingSide).
Proof. destruct kingSide; simpl; auto. Qed.

Lemma updateCastlingRights_clears (rights : CastlingRights)
    (movingPiece : Piece) (capturedPiece : option Piece) (from to : Square)
    (c : Color) (kingSide : bool) :
  (type movingPiece = King /\ color movingPiece = c)
  \/ (type movingPiece = Rook /\ color movingPiece = c
      /\ row from = row (rookHome c kingSide))
  \/ (exists rook, capturedPiece = Some rook /\ type rook = Rook
                   /\ color rook = c /\ row to = row (rookHome c kingSide)) ->
  castlingKey c kingSide
    (updateCastlingRights rights movingPiece capturedPiece from to) = false.
Proof.
  unfold updateCastlingRights.
  intros [(Ht & Hc)|[(Ht & Hc & Hr)|(rook & -> & Ht & Hc & Hr)]].
  - rewrite Ht. subst c.
    destruct capturedPiece as [[t' c']|]; simpl;
      destruct (color movingPiece), kingSide; try destruct t', c'; simpl;
      repeat match goal with
             | |- context [if ?x =? ?y then _ else _] => destruct (x =? y)
             end; reflexivity.
  - rewrite Ht, Hr. subst c.
    destruct capturedPiece as [[t' c']|]; simpl;
      destruct (color movingPiece), kingSide; try destruct t', c'; simpl;
      repeat match goal with
             | |- context [if ?x =? ?y then _ else _] => destruct (x =? y)
             end; reflexivity.
  - rewrite Ht, Hr. subst c.
    destruct movingPiece as [t' c']; simpl;
      destruct (color rook), kingSide; destruct t', c'; simpl;
      repeat match goal with
             | |- context [if ?x =? ?y then _ else _] => destruct (x =? y)
             end; reflexivity.
Qed.

(** C5.  For the king of the side to move on its home square, with a
    castling right that is set only while the rook still stands on its
    corner: the two-row king move is accepted exactly when the right is
    set, the squares between king and rook are empty, and neither the
    king's square nor the square it crosses nor the one it lands on is
    attacked by the opponent.  And [executeMove] clears the right when
    the king moves, when the rook leaves its corner row, and when the
    rook is captured there. *)
Theorem castling_accepted_iff_and_rights_cleared :
  (forall (g : GameState) (c : Color) (kingSide : bool),
      currentTurn g = c ->
      at_ (board g) (kingHome c) = Ok (mk King c) ->
      (castlingKey c kingSide (castlingRights g) = true ->
       at_ (board g) (rookHome c kingSide) = Ok (mk Rook c)) ->
      isValidMove (board g) (kingHome c) (castlingDestination c kingSide) g
      = Ok true
      <-> castlingKey c kingSide (castlingRights g) = true
          /\ (forall r, In r (rowsBetween kingSide) ->
                        cell (board g) r (homeCol c) = Ok None)
          /\ isSquareUnderAttack (board g) (kingHome c) (opposite c)
             = Ok false
          /\ isSquareUnderAttack (board g) (castlingTransit c kingSide)
               (opposite c) = Ok false
          /\ isSquareUnderAttack (board g) (castlingDestination c kingSide)
               (opposite c) = Ok false)
  /\ (forall (prevState next : GameState) (from to : Square)
             (c : Color) (kingSide : bool)
             (movingPiece : Piece) (capturedPiece : option Piece),
         executeMove prevState from to = Ok next ->
         at_ (board prevState) from = Ok (Some movingPiece) ->
         at_ (board prevState) to = Ok capturedPiece ->
         (type movingPiece = King /\ color movingPiece = c)
         \/ (type movingPiece = Rook /\ color movingPiece = c
             /\ from = rookHome c kingSide)
         \/ (exists rook, capturedPiece = Some rook /\ type rook = Rook
                          /\ color rook = c /\ to = rookHome c kingSide) ->
         castlingKey c kingSide (castlingRights next) = false).
Proof.
  split.
  - intros g c kingSide Hturn Hking Hrook.
    rewrite (isValidMove_castling_unfold g c kingSide Hturn Hking).
    rewrite <- (isValidCastling_iff g c kingSide Hking Hrook).
    split.
    + intros H. step H. step H. exact H.
    + intros H.
      pose proof (proj1 (isValidCastling_iff g c kingSide Hking Hrook) H)
        as (_ & Hempty & _).
      unfold at_ at 1.
      replace (col (castlingDestination c kingSide)) with (homeCol c)
        by reflexivity.
      rewrite (Hempty _ (castlingDestination_between c kingSide)).
      exact H.
  - intros prevState next from to c kingSide movingPiece capturedPiece
      Hexec Hfrom Hto Hcase.
    apply executeMove_inv in Hexec
      as (cp & mp & Hto' & Hfrom' & _ & Hrights & _).
    rewrite Hfrom in Hfrom'. injection Hfrom' as <-.
    rewrite Hto in Hto'. injection Hto' as <-.
    rewrite Hrights. apply updateCastlingRights_clears.
    destruct Hcase as [H|[(Ht & Hc & ->)|(rook & Hr & Ht & Hc & ->)]];
      [left; exact H | right; left; auto | right; right; eauto].
Qed.

Lemma castling_accepted_iff_and_rights_cleared_witness :
  isValidMove (board castlingReady) (kingHome White)
    (castlingDestination White true) castlingReady = Ok true
  /\ exists next,
       executeMove castlingReady (kingHome White)
         (castlingDestination White true) = Ok next
       /\ castlingKey White true (castlingRights next) = false.
Proof.
  destruct castling_accepted_iff_and_rights_cleared as [Hiff Hclear].
  split.
  - apply (Hiff castlingReady White true).
    + reflexivity.
    + reflexivity.
    + intros _. reflexivity.
    + split; [reflexivity|].
      split; [intros r [<-|[<-|[]]]; reflexivity|].
      repeat split; vm_compute; reflexivity.
  - destruct (executeMove castlingReady (kingHome White)
                (castlingDestination White true)) as [next| |] eqn:E;
      [|vm_compute in E; discriminate E..].
    exists next. split; [reflexivity|].
    apply (Hclear castlingReady next (kingHome White)
             (castlingDestination White true) White true
             {| type := King; color := White |} None E).
    + reflexivity.
    + reflexivity.
    + left. split; reflexivity.
Defined.
(** ** Mate scores in the alpha-beta search *)

Section MateScores.

Variable Date_now : nat -> Z.
Variable evaluateMaterial : Board -> Z.
Variable evaluateKingSafety : GameState -> Z.
Variable evaluateCenterControl : Board -> Z.
Variable evaluatePieceActivity : GameState -> Z.
Variable evaluatePawnStructure : Board -> Z.
Variable evaluateTactics : GameState -> Z.
Variable evaluateStrategy : GameState -> Z.

Local Abbreviation alphaBeta :=
  (Opus.alphaBeta Date_now evaluateMaterial evaluateKingSafety
     evaluateCenterControl evaluatePieceActivity evaluatePawnStructure
     evaluateTactics evaluateStrategy).

Lemma bind_now {A} (k : Z -> Opus.M A) (e : Opus.Engine) :
  Opus.bind (Opus.now Date_now) k e
  = k (Date_now (Opus.clockReads e))
      {| Opus.transpositionTable := Opus.transpositionTable e;
         Opus.killerMoves := Opus.killerMoves e;
         Opus.historyTable := Opus.historyTable e;
         Opus.clockReads := S (Opus.clockReads e) |}.
Proof. reflexivity. Qed.

Lemma bind_lift_Ok {A B} (r : result A) (a : A) (k : A -> Opus.M B)
    (e : Opus.Engine) :
  r = Ok a -> Opus.bind (Opus.lift r) k e = k a e.
Proof. intros ->. reflexivity. Qed.

Lemma bind_ttGet {A} (hash : string) (k : option Opus.TTEntry -> Opus.M A)
    (e : Opus.Engine) :
  Opus.bind (Opus.ttGet hash) k e = k (Opus.transpositionTable e !! hash) e.
Proof. reflexivity. Qed.

(** At a node where the side to move is checkmated, reached in time
    and not answered by the transposition table, [alphaBeta] returns
    the mate score shifted by the remaining depth. *)
Lemma alphaBeta_checkmate_score (depth : nat) (g : GameState)
    (alpha beta : Z) (maximizing : bool) (botColor : Color)
    (startTime : Z) (e : Opus.Engine) (hash : string) :
  Date_now (Opus.clockReads e) - startTime <= Opus.TIME_LIMIT ->
  Opus.hashPosition g = Ok hash ->
  Opus.transpositionTable e !! hash = None ->
  Opus.isCheckmate g = Ok true ->
  rmap fst (alphaBeta depth g alpha beta maximizing botColor startTime e)
  = Ok (if maximizing
        then - Opus.MATE_SCORE + Z.of_nat depth
        else Opus.MATE_SCORE - Z.of_nat depth).
Proof.
  intros Htime Hhash Hmiss Hmate.
  assert (Hgt : (Date_now (Opus.clockReads e) - startTime
                 >? Opus.TIME_LIMIT) = false)
    by (rewrite Z.gtb_ltb; apply Z.ltb_ge; exact Htime).
  destruct depth; unfold Opus.alphaBeta;
    rewrite bind_now, Hgt;
    rewrite (bind_lift_Ok _ _ _ _ Hhash);
    rewrite bind_ttGet; cbn [Opus.transpositionTable]; rewrite Hmiss;
    rewrite (bind_lift_Ok _ _ _ _ Hmate);
    reflexivity.
Qed.

(** C6.  The mate score and the distance from the root.  In the
    iteration of depth [searchDepth] the root calls [alphaBeta] with
    [searchDepth - 1] and every level passes on [depth - 1], so that a
    node [ply] plies below the root is searched with depth
    [searchDepth - ply].  Where the side to move is checkmated the score
    has magnitude [MATE_SCORE - searchDepth + ply].  Hence, for two such
    nodes, both of the bot ([maximizing]) or both of the opponent, the
    one nearer to the root gets the score of strictly smaller magnitude,
    and the one further away the score that is strictly better for the
    side that mates: the magnitude of the mate score grows with the
    plies to the mate.  In a search started by [makeMove] the nodes
    where the bot is mated, two and four plies below the root, are the
    ones that occur; a mate in one by the bot is returned before the
    search. *)
Theorem alphaBeta_mate_score_grows_with_plies
    (searchDepth plyNear plyFar : nat) (nearMate farMate : GameState)
    (alpha1 beta1 alpha2 beta2 : Z) (maximizing : bool) (botColor : Color)
    (startTime : Z) (e1 e2 : Opus.Engine) (hash1 hash2 : string) :
  (plyNear < plyFar <= searchDepth)%nat ->
  Z.of_nat searchDepth <= Opus.MAX_DEPTH ->
  Date_now (Opus.clockReads e1) - startTime <= Opus.TIME_LIMIT ->
  Date_now (Opus.clockReads e2) - startTime <= Opus.TIME_LIMIT ->
  Opus.hashPosition nearMate = Ok hash1 ->
  Opus.hashPosition farMate = Ok hash2 ->
  Opus.transpositionTable e1 !! hash1 = None ->
  Opus.transpositionTable e2 !! hash2 = None ->
  Opus.isCheckmate nearMate = Ok true ->
  Opus.isCheckmate farMate = Ok true ->
  exists near far,
    rmap fst (alphaBeta (searchDepth - plyNear) nearMate alpha1 beta1
                maximizing botColor startTime e1) = Ok near
    /\ rmap fst (alphaBeta (searchDepth - plyFar) farMate alpha2 beta2
                   maximizing botColor startTime e2) = Ok far
    /\ Z.abs near
       = Opus.MATE_SCORE - Z.of_nat searchDepth + Z.of_nat plyNear
    /\ Z.abs far
       = Opus.MATE_SCORE - Z.of_nat searchDepth + Z.of_nat plyFar
    /\ Z.abs near < Z.abs far
    /\ (if maximizing then far < near /\ near < 0 else 0 < near /\ near < far).
Proof.
  intros Hplies Hdepth Ht1 Ht2 Hh1 Hh2 Hm1 Hm2 Hc1 Hc2.
  unfold Opus.MAX_DEPTH in Hdepth.
  do 2 eexists.
  split; [apply (alphaBeta_checkmate_score _ _ _ _ _ _ _ _ _ Ht1 Hh1 Hm1 Hc1)|].
  split; [apply (alphaBeta_checkmate_score _ _ _ _ _ _ _ _ _ Ht2 Hh2 Hm2 Hc2)|].
  unfold Opus.MATE_SCORE. destruct maximizing; lia.
Qed.

End MateScores.

Lemma alphaBeta_mate_score_grows_with_plies_witness :
  exists nearMate farMate,
    searchAfter ladder [mv 0 5 0 4; mv 5 7 0 7] = Ok nearMate
    /\ searchAfter ladder [mv 0 5 0 4; mv 5 7 5 1; mv 0 4 0 3; mv 5 1 0 1]
       = Ok farMate
    /\ exists near far,
         rmap fst
           (Opus.alphaBeta zeroTerm zeroTerm zeroTerm zeroTerm zeroTerm
              zeroTerm zeroTerm zeroTerm 2 nearMate (- Opus.INFINITY)
              Opus.INFINITY true Black 0 Opus.freshEngine) = Ok near
         /\ rmap fst
              (Opus.alphaBeta zeroTerm zeroTerm zeroTerm zeroTerm zeroTerm
                 zeroTerm zeroTerm zeroTerm 0 farMate (- Opus.INFINITY)
                 Opus.INFINITY true Black 0 Opus.freshEngine) = Ok far
         /\ Z.abs near = 99998 /\ Z.abs far = 100000
         /\ far < near.
Proof.
  destruct (searchAfter ladder [mv 0 5 0 4; mv 5 7 0 7])
    as [nearMate| |] eqn:Enear; [|vm_compute in Enear; discriminate Enear..].
  destruct (searchAfter ladder
              [mv 0 5 0 4; mv 5 7 5 1; mv 0 4 0 3; mv 5 1 0 1])
    as [farMate| |] eqn:Efar; [|vm_compute in Efar; discriminate Efar..].
  exists nearMate, farMate. split; [reflexivity|]. split; [reflexivity|].
  vm_compute in Enear. injection Enear as <-.
  vm_compute in Efar. injection Efar as <-.
  match goal with
  | |- exists near far,
         rmap fst (Opus.alphaBeta _ _ _ _ _ _ _ _ _ ?n _ _ _ _ _ _) = _
         /\ rmap fst (Opus.alphaBeta _ _ _ _ _ _ _ _ _ ?f _ _ _ _ _ _) = _
         /\ _ =>
      destruct (Opus.hashPosition n) as [hash1| |] eqn:Hh1;
        [|vm_compute in Hh1; discriminate Hh1..];
      destruct (Opus.hashPosition f) as [hash2| |] eqn:Hh2;
        [|vm_compute in Hh2; discriminate Hh2..];
      destruct (alphaBeta_mate_score_grows_with_plies
                  zeroTerm zeroTerm zeroTerm zeroTerm zeroTerm zeroTerm
                  zeroTerm zeroTerm 4 2 4 n f
                  (- Opus.INFINITY) Opus.INFINITY
                  (- Opus.INFINITY) Opus.INFINITY
                  true Black 0 Opus.freshEngine Opus.freshEngine
                  hash1 hash2)
        as (near & far & Hnear & Hfar & Hanear & Hafar & _ & Hlt & _)
  end.
  - lia.
  - vm_compute. discriminate.
  - vm_compute. discriminate.
  - vm_compute. discriminate.
  - exact Hh1.
  - exact Hh2.
  - apply lookup_empty.
  - apply lookup_empty.
  - vm_compute. reflexivity.
  - vm_compute. reflexivity.
  - exists near, far.
    split; [exact Hnear|]. split; [exact Hfar|].
    split; [exact Hanear|]. split; [exact Hafar|]. exact Hlt.
Defined.

(** The two mates in a search that [makeMove] runs.  The bot, Black, has
    two legal moves.  After (0,5)->(0,4) White mates at once by
    (5,7)->(0,7), and two plies later by (5,7)->(5,1) and (5,1)->(0,1);
    after (0,5)->(0,6) no move of White mates at once.  With a clock
    that stays within the limit, the search records the value -100000
    at depth 3 for the node after either move: the value of the mate
    four plies below the root and not -99998, that of the mate two
    plies below it.  The two moves score alike and the bot returns
    (0,5)->(0,4). *)
Lemma search_values_the_slower_mate :
  Opus.generateLegalMoves ladder Black = Ok [mv 0 5 0 4; mv 0 5 0 6]
  /\ (node <- searchAfter ladder [mv 0 5 0 4];
      moves <- Opus.generateLegalMoves node White;
      Opus.immediateCheckmate node moves) = Ok (Some (mv 5 7 0 7))
  /\ (node <- searchAfter ladder [mv 0 5 0 4; mv 5 7 5 1];
      moves <- Opus.generateLegalMoves node Black;
      Opus.mapResult (fun m =>
                        next <- Opus.applyMove node m;
                        replies <- Opus.generateLegalMoves next White;
                        mate <- Opus.immediateCheckmate next replies;
                        Ok (m, mate)) moves)
     = Ok [(mv 0 4 0 3, Some (mv 5 1 0 1)); (mv 0 4 0 5, Some (mv 5 1 0 1))]
  /\ (node <- searchAfter ladder [mv 0 5 0 6];
      moves <- Opus.generateLegalMoves node White;
      Opus.immediateCheckmate node moves) = Ok None
  /\ entryAfterMakeMove ladder Black [mv 0 5 0 4]
     = Ok (Some {| Opus.tt_score := -100000; Opus.tt_depth := 3;
                   Opus.tt_type := Opus.exact |})
  /\ entryAfterMakeMove ladder Black [mv 0 5 0 6]
     = Ok (Some {| Opus.tt_score := -100000; Opus.tt_depth := 3;
                   Opus.tt_type := Opus.exact |})
  /\ rmap fst
       (Opus.makeMove zeroTerm zeroTerm zeroTerm zeroTerm zeroTerm zeroTerm
          zeroTerm zeroTerm ladder Black Opus.freshEngine)
     = Ok (Some (mv 0 5 0 4)).
Proof.
  split; [vm_compute; reflexivity|].
  split; [vm_compute; reflexivity|].
  split; [vm_compute; reflexivity|].
  split; [vm_compute; reflexivity|].
  split; [vm_compute; reflexivity|].
  split; vm_compute; reflexivity.
Qed.
(** ** The rules engine does not throw on a board of eight rows *)

Lemma returns_True {A} (r : result A) (a : A) :
  r = Ok a -> returns (fun _ => True) r.
Proof. intros ->. exists a. auto. Qed.

Lemma setCell_returns (b : Board) (r c : Z) (v : option Piece) :
  eightRows b -> 0 <= r < 8 -> returns eightRows (setCell b r c v).
Proof.
  intros Hb Hr. unfold setCell.
  destruct (index_Some b r) as [line ->]; [unfold eightRows in Hb; lia|].
  apply returns_Ok. unfold eightRows. rewrite length_insert. exact Hb.
Qed.

Lemma makeMove_returns (b : Board) (from to : Square) :
  eightRows b -> 0 <= row from < 8 -> 0 <= row to < 8 ->
  returns eightRows (makeMove b from to).
Proof.
  intros Hb Hf Ht. unfold makeMove.
  apply (returns_bind (fun _ => True)); [apply cell_returns; assumption|].
  intros moving _.
  apply (returns_bind eightRows); [apply setCell_returns; assumption|].
  intros b1 Hb1. apply setCell_returns; assumption.
Qed.

Lemma isPathClear_loop_returns (b : Board) (to : Square) (rowStep colStep : Z) :
  eightRows b ->
  forall (n fuel : nat) (r c : Z),
    (n <= fuel)%nat ->
    row to = r + Z.of_nat n * rowStep ->
    col to = c + Z.of_nat n * colStep ->
    (forall j, 0 <= j < Z.of_nat n -> 0 <= r + j * rowStep < 8) ->
    returns (fun _ => True) (isPathClear_loop fuel b to rowStep colStep r c).
Proof.
  intros Hb. induction n as [|n IH]; intros fuel r c Hfuel Hrow Hcol Hin.
  - replace r with (row to) by lia. replace c with (col to) by lia.
    destruct fuel; simpl; rewrite !Z.eqb_refl; apply returns_Ok; exact I.
  - destruct fuel as [|fuel]; [lia|]. simpl.
    destruct (negb (r =? row to) || negb (c =? col to));
      [|apply returns_Ok; exact I].
    apply (returns_bind (fun _ => True)).
    + apply cell_returns; [exact Hb|].
      specialize (Hin 0). rewrite Z.mul_0_l, Z.add_0_r in Hin.
      apply Hin. lia.
    + intros p _. destruct (truthy p); [apply returns_Ok; exact I|].
      apply IH; [lia | lia | lia |].
      intros j Hj. specialize (Hin (j + 1)).
      replace (r + rowStep + j * rowStep) with (r + (j + 1) * rowStep) by lia.
      apply Hin. lia.
Qed.

(** The two squares lie on a common row, column or diagonal. *)
Lemma isPathClear_returns (b : Board) (from to : Square) :
  eightRows b -> onBoard from -> onBoard to ->
  row to - row from = 0 \/ col to - col from = 0
  \/ Z.abs (row to - row from) = Z.abs (col to - col from) ->
  returns (fun _ => True) (isPathClear b from to).
Proof.
  intros Hb [Hfr Hfc] [Htr Htc] Haligned. unfold isPathClear.
  set (rowStep := if row to >? row from then 1
                  else if row to <? row from then -1 else 0).
  set (colStep := if col to >? col from then 1
                  else if col to <? col from then -1 else 0).
  set (N := Z.max (Z.abs (row to - row from)) (Z.abs (col to - col from))).
  assert (Hrs : rowStep * N = row to - row from /\ -1 <= rowStep <= 1).
  { unfold rowStep, N.
    destruct (Z.gtb_spec (row to) (row from));
      [|destruct (Z.ltb_spec (row to) (row from))]; lia. }
  assert (Hcs : colStep * N = col to - col from /\ -1 <= colStep <= 1).
  { unfold colStep, N.
    destruct (Z.gtb_spec (col to) (col from));
      [|destruct (Z.ltb_spec (col to) (col from))]; lia. }
  assert (HN : 0 <= N <= 7) by (unfold N; lia).
  destruct Hrs as [Hrs Hrs'], Hcs as [Hcs Hcs'].
  destruct (Z.eq_dec N 0) as [H0|H0].
  - apply (isPathClear_loop_returns b to rowStep colStep Hb 0); simpl.
    + lia.
    + assert (rowStep = 0) by (unfold rowStep;
        destruct (Z.gtb_spec (row to) (row from));
        [|destruct (Z.ltb_spec (row to) (row from))]; lia). lia.
    + assert (colStep = 0) by (unfold colStep;
        destruct (Z.gtb_spec (col to) (col from));
        [|destruct (Z.ltb_spec (col to) (col from))]; lia). lia.
    + intros j Hj. lia.
  - apply (isPathClear_loop_returns b to rowStep colStep Hb
             (Z.to_nat (N - 1))).
    + unfold eightRows in Hb. lia.
    + rewrite Z2Nat.id by lia. lia.
    + rewrite Z2Nat.id by lia. lia.
    + rewrite Z2Nat.id by lia. intros j Hj.
      assert (rowStep = 1 \/ rowStep = 0 \/ rowStep = -1) as [->|[->| ->]]
        by lia; lia.
Qed.

Lemma canPieceAttackSquare_returns (b : Board) (from to : Square)
    (piece : Piece) :
  eightRows b -> onBoard from -> onBoard to ->
  returns (fun _ => True) (canPieceAttackSquare b from to piece).
Proof.
  intros Hb Hf Ht. unfold canPieceAttackSquare.
  destruct (type piece); try (apply returns_Ok; exact I).
  - destruct ((row to - row from =? 0) || (col to - col from =? 0)
              || (Z.abs (row to - row from) =? Z.abs (col to - col from)))
      eqn:E; [|apply returns_Ok; exact I].
    apply isPathClear_returns; try assumption.
    apply orb_true_iff in E as [E|E];
      [apply orb_true_iff in E as [E|E]|]; apply Z.eqb_eq in E; auto.
  - destruct ((row to - row from =? 0) || (col to - col from =? 0)) eqn:E;
      [|apply returns_Ok; exact I].
    apply isPathClear_returns; try assumption.
    apply orb_true_iff in E as [E|E]; apply Z.eqb_eq in E; auto.
  - destruct (Z.abs (row to - row from) =? Z.abs (col to - col from)) eqn:E;
      [|apply returns_Ok; exact I].
    apply isPathClear_returns; try assumption.
    apply Z.eqb_eq in E; auto.
Qed.

Lemma anyM_returns {A} (f : A -> result bool) (l : list A) :
  (forall x, In x l -> returns (fun _ => True) (f x)) ->
  returns (fun _ => True) (anyM f l).
Proof.
  induction l as [|x l IH]; intros H; simpl; [apply returns_Ok; exact I|].
  apply (returns_bind (fun _ => True)); [apply H; left; reflexivity|].
  intros [|] _; [apply returns_Ok; exact I|].
  apply IH. intros y Hy. apply H. right. exact Hy.
Qed.

Lemma concatMapM_returns {A B} (P : B -> Prop) (f : A -> result (list B))
    (l : list A) :
  (forall x, In x l -> returns (List.Forall P) (f x)) ->
  returns (List.Forall P) (concatMapM f l).
Proof.
  induction l as [|x l IH]; intros H; simpl;
    [apply returns_Ok; constructor|].
  apply (returns_bind (List.Forall P)); [apply H; left; reflexivity|].
  intros ys Hys.
  apply (returns_bind (List.Forall P)).
  - apply IH. intros y Hy. apply H. right. exact Hy.
  - intros rest Hrest. apply returns_Ok.
    apply List.Forall_app. split; assumption.
Qed.

Lemma isSquareUnderAttack_returns (b : Board) (square : Square) (c : Color) :
  eightRows b -> onBoard square ->
  returns (fun _ => True) (isSquareUnderAttack b square c).
Proof.
  intros Hb Hs. unfold isSquareUnderAttack.
  apply anyM_returns. intros from Hfrom.
  apply (returns_bind (fun _ => True)); [apply at_returns; assumption|].
  intros [piece|] _; [|apply returns_Ok; exact I].
  destruct (Color_eqb (color piece) c); [|apply returns_Ok; exact I].
  apply canPieceAttackSquare_returns; try assumption.
  apply allSquares_onBoard. exact Hfrom.
Qed.
Ltac ret_ok := apply returns_Ok; exact I.

Lemma allEmpty_returns (b : Board) (c : Z) (rows : list Z) :
  eightRows b -> (forall r, In r rows -> 0 <= r < 8) ->
  returns (fun _ => True) (allEmpty b c rows).
Proof.
  intros Hb. induction rows as [|r rows IH]; intros H; simpl; [ret_ok|].
  apply (returns_bind (fun _ => True)).
  - apply cell_returns; [exact Hb | apply H; left; reflexivity].
  - intros p _. destruct (truthy p); [ret_ok|].
    apply IH. intros r' Hr'. apply H. right. exact Hr'.
Qed.

Lemma squaresBetweenEmpty_allEmpty (b : Board) (c : Z) (kingSide : bool) :
  squaresBetweenEmpty 8 b c (if kingSide then 1 else -1)
    (if kingSide then 7 else 0) (4 + (if kingSide then 1 else -1))
  = allEmpty b c (rowsBetween kingSide).
Proof. destruct kingSide; reflexivity. Qed.

Lemma isValidCastling_returns (b : Board) (from to : Square) (g : GameState) :
  eightRows b -> onBoard from -> onBoard to ->
  (exists p, at_ b from = Ok (Some p)) ->
  returns (fun _ => True) (isValidCastling b from to g).
Proof.
  intros Hb Hf Ht (piece & Hp). unfold isValidCastling. rewrite Hp.
  cbn [rbind].
  destruct (negb (PieceType_eqb (type piece) King)); [ret_ok|].
  destruct (Z.eqb_spec (col from)
              match color piece with White => 0 | Black => 7 end)
    as [Hcol|_]; [|ret_ok].
  destruct (Z.eqb_spec (row from) 4) as [Hrow|_]; [|ret_ok].
  cbn [negb orb].
  destruct (negb (Z.abs (row to - row from) =? 2) || negb (col to =? col from));
    [ret_ok|].
  set (kingSide := row to >? row from).
  apply (returns_bind (fun _ => True)).
  { apply cell_returns; [exact Hb | destruct kingSide; lia]. }
  intros rookPiece _.
  match goal with |- returns _ (if ?c then _ else _) => destruct c end;
    [ret_ok|].
  destruct (negb (castlingKey (color piece) kingSide (castlingRights g)));
    [ret_ok|].
  rewrite Hrow, squaresBetweenEmpty_allEmpty.
  apply (returns_bind (fun _ => True)).
  { apply allEmpty_returns; [exact Hb|].
    intros r Hr. destruct kingSide; simpl in Hr; lia. }
  intros empty _. destruct (negb empty); [ret_ok|].
  apply (returns_bind (fun _ => True)).
  { apply isSquareUnderAttack_returns; assumption. }
  intros inCheck _. destruct inCheck; [ret_ok|].
  apply (returns_bind (fun _ => True)).
  { apply anyM_returns. intros step Hstep.
    apply isSquareUnderAttack_returns; [exact Hb|].
    split; simpl; [|destruct (color piece); lia].
    destruct kingSide; simpl in Hstep; lia. }
  intros attacked _. destruct attacked; ret_ok.
Qed.

Lemma isValidMove_returns (b : Board) (from to : Square) (g : GameState) :
  eightRows b -> onBoard from -> onBoard to ->
  returns (fun _ => True) (isValidMove b from to g).
Proof.
  intros Hb Hf Ht. unfold isValidMove.
  destruct (cell_returns b (row from) (col from) Hb (proj1 Hf))
    as (fromPiece & Hfrom & _).
  destruct (cell_returns b (row to) (col to) Hb (proj1 Ht))
    as (toPiece & Hto & _).
  unfold at_ at 1 2. rewrite Hfrom, Hto. simpl.
  destruct fromPiece as [fromPiece|]; [|ret_ok].
  destruct (negb (Color_eqb (color fromPiece) (currentTurn g))); [ret_ok|].
  match goal with |- returns _ (if ?c then _ else _) => destruct c end;
    [ret_ok|].
  match goal with |- returns _ (if ?c then _ else _) => destruct c end;
    [ret_ok|].
  assert (Hpath : forall rd cd,
             rd = row to - row from -> cd = col to - col from ->
             returns (fun _ => True) (isValidRookMove b from to rd cd)
             /\ returns (fun _ => True) (isValidBishopMove b from to rd cd)).
  { intros rd cd -> ->. split.
    - unfold isValidRookMove.
      destruct (Z.eqb_spec (row to - row from) 0);
        destruct (Z.eqb_spec (col to - col from) 0); simpl;
        try ret_ok; apply isPathClear_returns; auto.
    - unfold isValidBishopMove.
      destruct (Z.eqb_spec (Z.abs (row to - row from))
                  (Z.abs (col to - col from))); simpl;
        try ret_ok; apply isPathClear_returns; auto. }
  destruct (Hpath _ _ eq_refl eq_refl) as [Hrook Hbishop].
  destruct (type fromPiece).
  - (* king *)
    unfold isValidKingMove.
    destruct ((Z.abs (row to - row from) <=? 1)
              && (Z.abs (col to - col from) <=? 1)).
    + apply (returns_bind eightRows).
      { apply makeMove_returns; [exact Hb | apply Hf | apply Ht]. }
      intros testBoard Htb.
      apply (returns_bind (fun _ => True));
        [apply isSquareUnderAttack_returns; assumption|].
      intros attacked _. ret_ok.
    + destruct ((Z.abs (row to - row from) =? 2)
                && (col to - col from =? 0)); [|ret_ok].
      apply isValidCastling_returns; try assumption.
      exists fromPiece. unfold at_. exact Hfrom.
  - (* queen *)
    unfold isValidQueenMove.
    apply (returns_bind (fun _ => True)); [exact Hrook|].
    intros [|] _; [ret_ok | exact Hbishop].
  - exact Hrook.
  - exact Hbishop.
  - ret_ok.
  - (* pawn *)
    unfold isValidPawnMove. unfold at_. rewrite Hto. simpl.
    destruct (row to - row from =? 0).
    + destruct (truthy toPiece); [ret_ok|].
      match goal with |- returns _ (if ?c then _ else _) => destruct c end;
        [ret_ok|].
      match goal with |- returns _ (if ?c then _ else _) => destruct c end;
        [|ret_ok].
      apply (returns_bind (fun _ => True));
        [apply cell_returns; [exact Hb | apply Hf]|].
      intros middle _. destruct (truthy middle); ret_ok.
    + match goal with |- returns _ (if ?c then _ else _) => destruct c end;
        [|ret_ok].
      destruct (truthy toPiece); [ret_ok|].
      destruct (enPassantTarget g) as [target|]; [|ret_ok].
      match goal with |- returns _ (if ?c then _ else _) => destruct c end;
        ret_ok.
Qed.

Lemma findKing_loop_returns (b : Board) (c : Color) (l : list Square) :
  eightRows b -> (forall s, In s l -> In s allSquares) ->
  returns (fun o => forall k, o = Some k -> onBoard k) (findKing_loop b c l).
Proof.
  intros Hb. induction l as [|s l IH]; intros Hl; simpl.
  - apply returns_Ok. intros k [=].
  - assert (IH' := IH (fun s' Hs' => Hl s' (or_intror Hs'))).
    apply (returns_bind (fun _ => True)).
    + apply at_returns; [exact Hb | apply Hl; left; reflexivity].
    + intros [piece|] _; [|exact IH'].
      destruct (PieceType_eqb (type piece) King
                && Color_eqb (color piece) c); [|exact IH'].
      apply returns_Ok. intros k [= <-].
      apply allSquares_onBoard, Hl. left. reflexivity.
Qed.

Lemma isInCheck_returns (b : Board) (c : Color) :
  eightRows b -> returns (fun _ => True) (isInCheck b c).
Proof.
  intros Hb. unfold isInCheck, findKing.
  apply (returns_bind (fun o => forall k, o = Some k -> onBoard k)).
  - apply findKing_loop_returns; auto.
  - intros [king|] Hk; [|ret_ok].
    apply isSquareUnderAttack_returns; [exact Hb | apply Hk; reflexivity].
Qed.

Lemma hasAnyLegalMove_returns (b : Board) (c : Color) (g : GameState) :
  eightRows b -> returns (fun _ => True) (hasAnyLegalMove b c g).
Proof.
  intros Hb. unfold hasAnyLegalMove.
  apply anyM_returns. intros from Hfrom.
  apply (returns_bind (fun _ => True)); [apply at_returns; assumption|].
  intros [piece|] _; [|ret_ok].
  destruct (Color_eqb (color piece) c); [|ret_ok].
  apply anyM_returns. intros to Hto.
  apply allSquares_onBoard in Hfrom, Hto.
  apply (returns_bind (fun _ => True));
    [apply isValidMove_returns; assumption|].
  intros [|] _; [|ret_ok].
  apply (returns_bind eightRows);
    [apply makeMove_returns; [exact Hb | apply Hfrom | apply Hto]|].
  intros testBoard Htb.
  apply (returns_bind (fun _ => True)); [apply isInCheck_returns; exact Htb|].
  intros check _. ret_ok.
Qed.

Lemma getLegalMoves_returns (b : Board) (c : Color) (g : GameState) :
  eightRows b ->
  returns (List.Forall (movesAPiece b)) (Grok.getLegalMoves b c g).
Proof.
  intros Hb. unfold Grok.getLegalMoves.
  apply concatMapM_returns. intros from Hfrom.
  destruct (at_returns b from Hb Hfrom) as (p & Hp & _). rewrite Hp.
  cbn [rbind].
  destruct p as [piece|]; [|apply returns_Ok; constructor].
  destruct (negb (Color_eqb (color piece) c)); [apply returns_Ok; constructor|].
  apply concatMapM_returns. intros to Hto.
  apply allSquares_onBoard in Hfrom, Hto.
  apply (returns_bind (fun _ => True));
    [apply isValidMove_returns; assumption|].
  intros [|] _; [|apply returns_Ok; constructor].
  apply (returns_bind eightRows);
    [apply makeMove_returns; [exact Hb | apply Hfrom | apply Hto]|].
  intros testBoard Htb.
  apply (returns_bind (fun _ => True)); [apply isInCheck_returns; exact Htb|].
  intros check _. destruct (negb check); apply returns_Ok; [|constructor].
  constructor; [|constructor].
  split; [exact Hfrom|]. split; [exact Hto|]. exists piece. exact Hp.
Qed.
(** ** The Grok bot returns a move *)

Lemma evaluateBoard_loop_returns (b : Board) (l : list Square) :
  eightRows b -> (forall s, In s l -> In s allSquares) ->
  forall score, returns (fun _ => True) (Grok.evaluateBoard_loop b score l).
Proof.
  intros Hb. induction l as [|s l IH]; intros Hl score; simpl; [ret_ok|].
  assert (IH' := IH (fun s' Hs' => Hl s' (or_intror Hs'))).
  apply (returns_bind (fun _ => True)).
  - apply at_returns; [exact Hb | apply Hl; left; reflexivity].
  - intros [piece|] _; apply IH'.
Qed.

Section GrokLoops.

Variable recur : Board -> GameState -> number -> number -> bool -> Color
                 -> result Grok.SearchResult.
Variables (b : Board) (g : GameState) (botColor : Color).

Hypothesis recur_returns :
  forall b' g' alpha beta mx c,
    eightRows b' -> returns (fun _ => True) (recur b' g' alpha beta mx c).
Hypothesis board_ok : eightRows b.

Lemma maximize_returns (moves : list Move) :
  List.Forall (movesAPiece b) moves ->
  forall maxEval bestMove alpha beta,
    returns (fun r => exists m, Grok.move r = Some m
                                /\ (m = bestMove \/ In m moves))
      (Grok.maximize recur b g botColor moves maxEval bestMove alpha beta).
Proof.
  induction 1 as [|m moves (Hf & Ht & _) _ IH];
    intros maxEval bestMove alpha beta; simpl.
  - apply returns_Ok. exists bestMove. auto.
  - apply (returns_bind eightRows).
    { apply makeMove_returns; [exact board_ok | apply Hf | apply Ht]. }
    intros newBoard Hnb.
    apply (returns_bind (fun _ => True)); [apply recur_returns; exact Hnb|].
    intros evaluation _.
    match goal with |- returns _ (if ?c then _ else _) => destruct c end.
    + apply returns_Ok. eexists. split; [reflexivity|].
      destruct (number_ltb maxEval (Grok.score evaluation)); auto.
    + eapply returns_weaken; [apply IH|].
      intros r (m' & Hm' & Hin). exists m'. split; [exact Hm'|].
      destruct Hin as [->|Hin]; [|auto].
      destruct (number_ltb maxEval (Grok.score evaluation)); auto.
Qed.

Lemma minimize_returns (moves : list Move) :
  List.Forall (movesAPiece b) moves ->
  forall minEval bestMove alpha beta,
    returns (fun r => exists m, Grok.move r = Some m
                                /\ (m = bestMove \/ In m moves))
      (Grok.minimize recur b g botColor moves minEval bestMove alpha beta).
Proof.
  induction 1 as [|m moves (Hf & Ht & _) _ IH];
    intros minEval bestMove alpha beta; simpl.
  - apply returns_Ok. exists bestMove. auto.
  - apply (returns_bind eightRows).
    { apply makeMove_returns; [exact board_ok | apply Hf | apply Ht]. }
    intros newBoard Hnb.
    apply (returns_bind (fun _ => True)); [apply recur_returns; exact Hnb|].
    intros evaluation _.
    match goal with |- returns _ (if ?c then _ else _) => destruct c end.
    + apply returns_Ok. eexists. split; [reflexivity|].
      destruct (number_ltb (Grok.score evaluation) minEval); auto.
    + eapply returns_weaken; [apply IH|].
      intros r (m' & Hm' & Hin). exists m'. split; [exact Hm'|].
      destruct Hin as [->|Hin]; [|auto].
      destruct (number_ltb (Grok.score evaluation) minEval); auto.
Qed.

End GrokLoops.

(** [minimax] returns, and below the leaves it names one of the legal
    moves whenever there is one. *)
Lemma minimax_returns (depth : nat) :
  forall (b : Board) (g : GameState) (alpha beta : number)
         (maximizingPlayer : bool) (botColor : Color),
    eightRows b ->
    returns (fun r =>
               forall moves,
                 depth <> 0%nat ->
                 Grok.getLegalMoves b
                   (if maximizingPlayer then botColor else opposite botColor)
                   g = Ok moves ->
                 moves <> [] ->
                 exists m, Grok.move r = Some m /\ In m moves)
      (Grok.minimax depth b g alpha beta maximizingPlayer botColor).
Proof.
  induction depth as [|depth IH];
    intros b g alpha beta maximizingPlayer botColor Hb; simpl.
  - apply (returns_bind (fun _ => True)).
    + apply evaluateBoard_loop_returns; auto.
    + intros evaluation _. apply returns_Ok. intros moves Hd. contradiction.
  - destruct (getLegalMoves_returns b
                (if maximizingPlayer then botColor else opposite botColor)
                g Hb) as (moves & Hmoves & Hall).
    rewrite Hmoves. cbn [rbind].
    destruct moves as [|first rest].
    + apply (returns_bind (fun _ => True)); [apply isInCheck_returns, Hb|].
      intros check _. destruct check; apply returns_Ok;
        intros moves _ [= <-] Hne; contradiction.
    + assert (Hrec : forall b' g' alpha' beta' mx c,
                 eightRows b' ->
                 returns (fun _ => True)
                   (Grok.minimax depth b' g' alpha' beta' mx c)).
      { intros. eapply returns_weaken; [apply IH; assumption | auto]. }
      destruct maximizingPlayer;
        (eapply returns_weaken;
         [first [apply (maximize_returns _ b g botColor Hrec Hb _ Hall)
                |apply (minimize_returns _ b g botColor Hrec Hb _ Hall)]|]);
        intros r (m & Hm & Hin) moves _ [= <-] _; exists m;
        (split; [exact Hm|]); destruct Hin as [->|Hin];
        [left; reflexivity | exact Hin | left; reflexivity | exact Hin].
Qed.

Lemma Grok_makeMove_returns_move (g : GameState) (botColor : Color)
    (second : bool) (moves : list Move) :
  eightRows (board g) ->
  Grok.getLegalMoves (board g) botColor g = Ok moves ->
  moves <> [] ->
  exists m, Grok.makeMove g botColor second = Ok (Some m).
Proof.
  intros Hb Hmoves Hne. unfold Grok.makeMove.
  assert (Hsearch : forall depth, depth <> 0%nat ->
            exists m,
              (found <- Grok.minimax depth (board g) g NegInfinity Infinity
                          true botColor;
               Ok (Grok.move found)) = Ok (Some m)).
  { intros depth Hd.
    destruct (minimax_returns depth (board g) g NegInfinity Infinity true
                botColor Hb) as (r & -> & Hr).
    destruct (Hr moves Hd Hmoves Hne) as (m & Hm & _).
    exists m. simpl. rewrite Hm. reflexivity. }
  assert (Hs : exists m,
            (found <- Grok.minimax
                        (if Z.of_nat (length (moveHistory g)) <? 10
                         then 3%nat else 4%nat)
                        (board g) g NegInfinity Infinity true botColor;
             Ok (Grok.move found)) = Ok (Some m)).
  { apply Hsearch. destruct (_ <? 10); discriminate. }
  assert (Hopening : forall m0 m1 : Move,
            onBoard (from m0) -> onBoard (to m0) ->
            onBoard (from m1) -> onBoard (to m1) ->
            exists m,
              (let m := if second then m1 else m0 in
               valid <- isValidMove (board g) (from m) (to m) g;
               if valid then Ok (Some m)
               else found <- Grok.minimax
                               (if Z.of_nat (length (moveHistory g)) <? 10
                                then 3%nat else 4%nat)
                               (board g) g NegInfinity Infinity true botColor;
                    Ok (Grok.move found)) = Ok (Some m)).
  { intros m0 m1 H0f H0t H1f H1t. cbv zeta.
    destruct (isValidMove_returns (board g)
                (from (if second then m1 else m0))
                (to (if second then m1 else m0)) g Hb)
      as (valid & -> & _); [destruct second; assumption..|].
    cbn [rbind]. destruct valid; [eauto | exact Hs]. }
  destruct (Z.of_nat (length (moveHistory g)) <? 2); [|exact Hs].
  destruct botColor;
    match goal with
    | |- context [if ?c then Some _ else None] => destruct c
    end; try exact Hs;
    apply Hopening; unfold onBoard; simpl; lia.
Qed.
(** ** The Opus bot returns a legal move *)

Lemma runs_ret {A} (P : A -> Prop) (a : A) : P a -> runs P (Opus.ret a).
Proof. intros H e He. exists a, e. auto. Qed.

Lemma runs_bind {A B} (P : A -> Prop) (Q : B -> Prop)
    (m : Opus.M A) (k : A -> Opus.M B) :
  runs P m -> (forall a, P a -> runs Q (k a)) -> runs Q (Opus.bind m k).
Proof.
  intros Hm Hk e He. destruct (Hm e He) as (a & e' & Hrun & He' & Ha).
  unfold Opus.bind. rewrite Hrun. apply Hk; assumption.
Qed.

Lemma runs_lift {A} (P : A -> Prop) (r : result A) :
  returns P r -> runs P (Opus.lift r).
Proof. intros (a & -> & Ha) e He. exists a, e. auto. Qed.

Lemma runs_weaken {A} (P Q : A -> Prop) (m : Opus.M A) :
  runs P m -> (forall a, P a -> Q a) -> runs Q m.
Proof.
  intros Hm H e He. destruct (Hm e He) as (a & e' & Hrun & He' & Ha).
  exists a, e'. auto.
Qed.

Lemma runs_now (Date_now : nat -> Z) : runs (fun _ => True) (Opus.now Date_now).
Proof. intros e He. do 2 eexists. split; [reflexivity|]. split; [exact He|exact I]. Qed.

Lemma runs_getEngine : runs fourKillers Opus.getEngine.
Proof. intros e He. exists e, e. auto. Qed.

Lemma runs_ttGet (hash : string) : runs (fun _ => True) (Opus.ttGet hash).
Proof. intros e He. do 2 eexists. split; [reflexivity|]. split; [exact He|exact I]. Qed.

Lemma runs_ttSet (hash : string) (entry : Opus.TTEntry) :
  runs (fun _ => True) (Opus.ttSet hash entry).
Proof. intros e He. do 2 eexists. split; [reflexivity|]. split; [exact He|exact I]. Qed.

Lemma runs_clearOldTranspositions :
  runs (fun _ => True) Opus.clearOldTranspositions.
Proof.
  intros e He. do 2 eexists. split; [reflexivity|].
  split; [|exact I]. destruct (_ >? _); exact He.
Qed.

Lemma runs_updateHistoryTable (m : Move) (depth : Z) :
  runs (fun _ => True) (Opus.updateHistoryTable m depth).
Proof. intros e He. do 2 eexists. split; [reflexivity|]. split; [exact He|exact I]. Qed.

Lemma runs_updateKillerMoves (m : Move) (depth : Z) :
  0 <= depth -> runs (fun _ => True) (Opus.updateKillerMoves m depth).
Proof.
  intros Hd e He. unfold Opus.updateKillerMoves.
  destruct (Z.geb_spec depth Opus.MAX_DEPTH) as [_|Hlt];
    [exists tt, e; auto|].
  destruct (index_Some (Opus.killerMoves e) depth) as ([k0 k1] & ->).
  { unfold fourKillers in He. unfold Opus.MAX_DEPTH in Hlt. lia. }
  destruct (negb (Opus.movesEqual m k0)); [|exists tt, e; auto].
  do 2 eexists. split; [reflexivity|]. split; [|exact I].
  unfold fourKillers. cbn [Opus.killerMoves]. rewrite length_insert. exact He.
Qed.

Lemma insertByScore_In (x y : Move * Z) (l : list (Move * Z)) :
  In y (Opus.insertByScore x l) <-> y = x \/ In y l.
Proof.
  induction l as [|z l IH]; simpl; [intuition|].
  destruct (snd x <? snd z); simpl; rewrite ?IH; intuition.
Qed.

Lemma sortByScore_In (y : Move * Z) (l : list (Move * Z)) :
  In y (Opus.sortByScore l) <-> In y l.
Proof.
  unfold Opus.sortByScore.
  induction l as [|x l IH]; simpl; [reflexivity|].
  rewrite insertByScore_In, IH. intuition.
Qed.

Lemma mapResult_returns {A B} (P : A -> B -> Prop) (f : A -> result B)
    (l : list A) :
  (forall x, In x l -> returns (P x) (f x)) ->
  returns (fun ys => forall y, In y ys -> exists x, In x l /\ P x y)
    (Opus.mapResult f l).
Proof.
  induction l as [|x l IH]; intros H; simpl.
  - apply returns_Ok. intros y [].
  - apply (returns_bind (P x)); [apply H; left; reflexivity|].
    intros y Hy.
    apply (returns_bind (fun ys => forall y, In y ys ->
                                   exists x, In x l /\ P x y)).
    + apply IH. intros x' Hx'. apply H. right. exact Hx'.
    + intros ys Hys. apply returns_Ok.
      intros y' [<-|Hy']; [exists x; auto|].
      destruct (Hys y' Hy') as (x' & Hx' & HP). exists x'. auto.
Qed.

Lemma orderMoves_returns (e : Opus.Engine) (moves : list Move)
    (g : GameState) (depth : Z) :
  fourKillers e -> eightRows (board g) -> 0 <= depth ->
  List.Forall (movesAPiece (board g)) moves ->
  returns (fun l => forall m, In m l -> In m moves)
    (Opus.orderMoves e moves g depth).
Proof.
  intros He Hb Hd Hall. unfold Opus.orderMoves.
  apply (returns_bind
           (fun ys => forall y, In y ys ->
                                exists x, In x moves /\ fst y = x)).
  - apply mapResult_returns. intros m Hm.
    destruct (proj1 (List.Forall_forall _ _) Hall m Hm)
      as (Hf & Ht & fromPiece & Hfrom).
    rewrite Hfrom. cbn [rbind].
    apply (returns_bind (fun _ => True));
      [apply cell_returns; [exact Hb | apply Ht]|].
    intros toP _.
    apply (returns_bind (fun _ => True));
      [destruct toP; ret_ok|].
    intros s1 _.
    apply (returns_bind (fun _ => True)).
    { destruct (Z.ltb_spec depth Opus.MAX_DEPTH) as [Hlt|_]; [|ret_ok].
      destruct (index_Some (Opus.killerMoves e) depth) as ([k0 k1] & ->).
      { unfold fourKillers in He. unfold Opus.MAX_DEPTH in Hlt. lia. }
      destruct (Opus.movesEqual m k0); [ret_ok|].
      destruct (Opus.movesEqual m k1); ret_ok. }
    intros s2 _. apply returns_Ok. reflexivity.
  - intros scored Hscored. apply returns_Ok.
    intros m Hm. apply in_map_iff in Hm as (y & <- & Hy).
    apply (proj1 (sortByScore_In _ _)) in Hy.
    destruct (Hscored y Hy) as (x & Hx & ->). exact Hx.
Qed.

Lemma applyMove_returns (g : GameState) (m : Move) :
  eightRows (board g) -> movesAPiece (board g) m ->
  returns (fun g' => eightRows (board g')) (Opus.applyMove g m).
Proof.
  intros Hb (Hf & Ht & _). unfold Opus.applyMove, Opus.makeTestMove.
  apply (returns_bind eightRows).
  - apply makeMove_returns; [exact Hb | apply Hf | apply Ht].
  - intros newBoard Hnb. apply returns_Ok. exact Hnb.
Qed.

Lemma generateLegalMoves_returns (g : GameState) (c : Color) :
  eightRows (board g) ->
  returns (List.Forall (movesAPiece (board g)))
    (Opus.generateLegalMoves g c).
Proof. intros Hb. apply (getLegalMoves_returns (board g) c g Hb). Qed.

Lemma Opus_isCheckmate_returns (g : GameState) :
  eightRows (board g) -> returns (fun _ => True) (Opus.isCheckmate g).
Proof.
  intros Hb. unfold Opus.isCheckmate.
  apply (returns_bind (fun _ => True)); [apply isInCheck_returns, Hb|].
  intros check _. destruct (negb check); [ret_ok|].
  apply (returns_bind (fun _ => True));
    [apply hasAnyLegalMove_returns, Hb|].
  intros legal _. ret_ok.
Qed.

Lemma nonKingPieces_returns (b : Board) (l : list Square) :
  eightRows b -> (forall s, In s l -> In s allSquares) ->
  returns (fun _ => True) (Opus.nonKingPieces b l).
Proof.
  intros Hb. induction l as [|s l IH]; intros Hl; simpl; [ret_ok|].
  apply (returns_bind (fun _ => True)).
  - apply at_returns; [exact Hb | apply Hl; left; reflexivity].
  - intros p _. apply (returns_bind (fun _ => True)).
    + apply IH. intros s' Hs'. apply Hl. right. exact Hs'.
    + intros rest _. ret_ok.
Qed.

Lemma isDraw_returns (g : GameState) :
  eightRows (board g) -> returns (fun _ => True) (Opus.isDraw g).
Proof.
  intros Hb. unfold Opus.isDraw.
  apply (returns_bind (fun _ => True)); [apply isInCheck_returns, Hb|].
  intros check _.
  apply (returns_bind (fun _ => True)).
  { destruct (negb check); [|ret_ok].
    apply (returns_bind (fun _ => True));
      [apply hasAnyLegalMove_returns, Hb|].
    intros legal _. ret_ok. }
  intros [|] _; [ret_ok|].
  apply (returns_bind (fun _ => True)).
  { unfold Opus.isInsufficientMaterial.
    apply (returns_bind (fun _ => True));
      [apply nonKingPieces_returns; auto|].
    intros [|p [|q pieces]] _; ret_ok. }
  intros [|] _; ret_ok.
Qed.

Lemma boardString_returns (b : Board) (l : list Square) :
  eightRows b -> (forall s, In s l -> In s allSquares) ->
  returns (fun _ => True) (boardString b l).
Proof.
  intros Hb. induction l as [|s l IH]; intros Hl; simpl; [ret_ok|].
  apply (returns_bind (fun _ => True)).
  - apply at_returns; [exact Hb | apply Hl; left; reflexivity].
  - intros p _. apply (returns_bind (fun _ => True)).
    + apply IH. intros s' Hs'. apply Hl. right. exact Hs'.
    + intros rest _. ret_ok.
Qed.

Lemma hashPosition_returns (g : GameState) :
  eightRows (board g) -> returns (fun _ => True) (Opus.hashPosition g).
Proof.
  intros Hb. unfold Opus.hashPosition.
  apply (returns_bind (fun _ => True)); [apply boardString_returns; auto|].
  intros hash _. ret_ok.
Qed.

Section OpusSearch.

Variable Date_now : nat -> Z.
Variable evaluateMaterial : Board -> Z.
Variable evaluateKingSafety : GameState -> Z.
Variable evaluateCenterControl : Board -> Z.
Variable evaluatePieceActivity : GameState -> Z.
Variable evaluatePawnStructure : Board -> Z.
Variable evaluateTactics : GameState -> Z.
Variable evaluateStrategy : GameState -> Z.

Local Abbreviation evaluate :=
  (Opus.evaluate evaluateMaterial evaluateKingSafety evaluateCenterControl
     evaluatePieceActivity evaluatePawnStructure evaluateTactics
     evaluateStrategy).
Local Abbreviation quiescence :=
  (Opus.quiescence Date_now evaluateMaterial evaluateKingSafety
     evaluateCenterControl evaluatePieceActivity evaluatePawnStructure
     evaluateTactics evaluateStrategy).
Local Abbreviation alphaBeta :=
  (Opus.alphaBeta Date_now evaluateMaterial evaluateKingSafety
     evaluateCenterControl evaluatePieceActivity evaluatePawnStructure
     evaluateTactics evaluateStrategy).
Local Abbreviation root_loop :=
  (Opus.root_loop Date_now evaluateMaterial evaluateKingSafety
     evaluateCenterControl evaluatePieceActivity evaluatePawnStructure
     evaluateTactics evaluateStrategy).
Local Abbreviation deepen :=
  (Opus.deepen Date_now evaluateMaterial evaluateKingSafety
     evaluateCenterControl evaluatePieceActivity evaluatePawnStructure
     evaluateTactics evaluateStrategy).
Local Abbreviation makeMove :=
  (Opus.makeMove Date_now evaluateMaterial evaluateKingSafety
     evaluateCenterControl evaluatePieceActivity evaluatePawnStructure
     evaluateTactics evaluateStrategy).

Ltac run_ok := apply runs_ret; exact I.

Lemma evaluate_returns (g : GameState) (botColor : Color) :
  eightRows (board g) -> returns (fun _ => True) (evaluate g botColor).
Proof.
  intros Hb. unfold Opus.evaluate.
  apply (returns_bind (fun _ => True)); [apply Opus_isCheckmate_returns, Hb|].
  intros [|] _; [ret_ok|].
  apply (returns_bind (fun _ => True)); [apply isDraw_returns, Hb|].
  intros [|] _; ret_ok.
Qed.

Lemma orderMovesM_runs (moves : list Move) (g : GameState) (depth : Z) :
  eightRows (board g) -> 0 <= depth ->
  List.Forall (movesAPiece (board g)) moves ->
  runs (fun l => forall m, In m l -> In m moves)
    (Opus.orderMovesM moves g depth).
Proof.
  intros Hb Hd Hall. unfold Opus.orderMovesM.
  apply (runs_bind fourKillers); [apply runs_getEngine|].
  intros e He. apply runs_lift. apply orderMoves_returns; assumption.
Qed.

Lemma Forall_incl {A} (P : A -> Prop) (l l' : list A) :
  List.Forall P l -> (forall x, In x l' -> In x l) -> List.Forall P l'.
Proof.
  intros H Hin. apply List.Forall_forall. intros x Hx.
  apply (proj1 (List.Forall_forall P l) H), Hin, Hx.
Qed.

Lemma tacticalMoves_returns (g : GameState) (moves : list Move) :
  eightRows (board g) -> List.Forall (movesAPiece (board g)) moves ->
  returns (List.Forall (movesAPiece (board g)))
    (Opus.tacticalMoves g moves).
Proof.
  intros Hb Hall. unfold Opus.tacticalMoves.
  apply concatMapM_returns. intros m Hm.
  pose proof (proj1 (List.Forall_forall _ _) Hall m Hm) as Hmove.
  apply (returns_bind (fun _ => True));
    [apply cell_returns; [exact Hb | apply Hmove]|].
  intros captured _.
  apply (returns_bind (fun g' => eightRows (board g')));
    [apply applyMove_returns; assumption|].
  intros testState Hts.
  destruct (truthy captured); [apply returns_Ok; auto|].
  apply (returns_bind (fun _ => True)); [apply isInCheck_returns, Hts|].
  intros [|] _; apply returns_Ok; auto.
Qed.

Lemma quiescence_loop_runs
    (recur : GameState -> Z -> Z -> bool -> Opus.M Z) (g : GameState)
    (maximizing : bool) :
  eightRows (board g) ->
  (forall g' a b mx, eightRows (board g') ->
                     runs (fun _ => True) (recur g' a b mx)) ->
  forall moves, List.Forall (movesAPiece (board g)) moves ->
  forall alpha beta,
    runs (fun _ => True)
      (Opus.quiescence_loop recur g maximizing moves alpha beta).
Proof.
  intros Hb Hrec. induction 1 as [|m moves Hm _ IH]; intros alpha beta;
    simpl; [run_ok|].
  apply (runs_bind (fun g' => eightRows (board g')));
    [apply runs_lift, applyMove_returns; assumption|].
  intros testState Hts.
  apply (runs_bind (fun _ => True)); [apply Hrec, Hts|].
  intros score _.
  destruct maximizing.
  - destruct (score >=? beta); [run_ok | apply IH].
  - destruct (score <=? alpha); [run_ok | apply IH].
Qed.

Lemma quiescence_runs (depth : nat) :
  forall (g : GameState) (alpha beta : Z) (maximizing : bool)
         (botColor : Color) (startTime : Z),
    eightRows (board g) ->
    runs (fun _ => True)
      (quiescence depth g alpha beta maximizing botColor startTime).
Proof.
  induction depth as [|depth IH];
    intros g alpha beta maximizing botColor startTime Hb; simpl.
  - apply runs_lift, evaluate_returns, Hb.
  - apply (runs_bind (fun _ => True)); [apply runs_now|].
    intros t _.
    destruct (t - startTime >? Opus.TIME_LIMIT);
      [apply runs_lift, evaluate_returns, Hb|].
    apply (runs_bind (fun _ => True));
      [apply runs_lift, evaluate_returns, Hb|].
    intros standPat _.
    assert (Hcontinue : forall alpha' beta',
      runs (fun _ => True)
        (Opus.bind
           (Opus.lift (Opus.generateLegalMoves g (currentTurn g)))
           (fun moves =>
              Opus.bind (Opus.lift (Opus.tacticalMoves g moves))
                (fun tacticalMoves =>
                   match tacticalMoves with
                   | [] => Opus.ret standPat
                   | _ :: _ =>
                       Opus.bind (Opus.orderMovesM tacticalMoves g 0)
                         (fun orderedMoves =>
                            Opus.quiescence_loop
                              (fun g0 a b mx =>
                                 quiescence depth g0 a b mx botColor
                                   startTime)
                              g maximizing orderedMoves alpha' beta')
                   end)))).
    { intros alpha' beta'.
      apply (runs_bind (List.Forall (movesAPiece (board g))));
        [apply runs_lift, generateLegalMoves_returns, Hb|].
      intros moves Hmoves.
      apply (runs_bind (List.Forall (movesAPiece (board g))));
        [apply runs_lift, tacticalMoves_returns; assumption|].
      intros [|m tactical] Htactical; [run_ok|].
      apply (runs_bind (fun l => forall x, In x l -> In x (m :: tactical)));
        [apply orderMovesM_runs; [exact Hb | lia | exact Htactical]|].
      intros ordered Hordered.
      apply quiescence_loop_runs; [exact Hb | |].
      - intros g' a b mx Hg'. apply IH, Hg'.
      - apply (Forall_incl _ _ _ Htactical Hordered). }
    destruct maximizing.
    + destruct (standPat >=? beta); [run_ok | apply Hcontinue].
    + destruct (standPat <=? alpha); [run_ok | apply Hcontinue].
Qed.

Lemma alphaBeta_loop_runs
    (recur : GameState -> Z -> Z -> bool -> Opus.M Z) (g : GameState)
    (depth : Z) (maximizing : bool) :
  eightRows (board g) -> 0 <= depth ->
  (forall g' a b mx, eightRows (board g') ->
                     runs (fun _ => True) (recur g' a b mx)) ->
  forall moves, List.Forall (movesAPiece (board g)) moves ->
  forall bestScore alpha beta ttType,
    runs (fun _ => True)
      (Opus.alphaBeta_loop recur g depth maximizing moves bestScore
         alpha beta ttType).
Proof.
  intros Hb Hd Hrec. induction 1 as [|m moves Hm _ IH];
    intros bestScore alpha beta ttType; simpl; [run_ok|].
  apply (runs_bind (fun g' => eightRows (board g')));
    [apply runs_lift, applyMove_returns; assumption|].
  intros testState Hts.
  apply (runs_bind (fun _ => True)); [apply Hrec, Hts|].
  intros score _.
  match goal with |- runs _ (if ?c then _ else _) => destruct c end;
    [|apply IH].
  apply (runs_bind (fun _ => True));
    [apply runs_updateKillerMoves, Hd|].
  intros _ _. run_ok.
Qed.

Lemma alphaBeta_runs (depth : nat) :
  forall (g : GameState) (alpha beta : Z) (maximizing : bool)
         (botColor : Color) (startTime : Z),
    eightRows (board g) ->
    runs (fun _ => True)
      (alphaBeta depth g alpha beta maximizing botColor startTime).
Proof.
  induction depth as [|depth IH];
    intros g alpha beta maximizing botColor startTime Hb;
    unfold Opus.alphaBeta; fold Opus.alphaBeta.
  all: apply (runs_bind (fun _ => True)); [apply runs_now|];
    intros t _;
    destruct (t - startTime >? Opus.TIME_LIMIT);
      [apply runs_lift, evaluate_returns, Hb|];
    apply (runs_bind (fun _ => True));
      [apply runs_lift, hashPosition_returns, Hb|];
    intros hash _;
    apply (runs_bind (fun _ => True)); [apply runs_ttGet|];
    intros ttEntry _;
    match goal with
    | |- runs _ (match ?probe with _ => _ end) =>
        destruct probe as [[[cached|] alpha'] beta']
    end; [run_ok|];
    apply (runs_bind (fun _ => True));
      [apply runs_lift, Opus_isCheckmate_returns, Hb|];
    intros [|] _; [run_ok|];
    apply (runs_bind (fun _ => True));
      [apply runs_lift, isDraw_returns, Hb|];
    intros [|] _; [run_ok|].
  - apply quiescence_runs, Hb.
  - apply (runs_bind (List.Forall (movesAPiece (board g))));
      [apply runs_lift, generateLegalMoves_returns, Hb|].
    intros [|m moves] Hmoves.
    + apply (runs_bind (fun _ => True));
        [apply runs_lift, isInCheck_returns, Hb|].
      intros check _. run_ok.
    + apply (runs_bind (fun l => forall x, In x l -> In x (m :: moves)));
        [apply orderMovesM_runs; [exact Hb | lia | exact Hmoves]|].
      intros ordered Hordered.
      apply (runs_bind (fun _ => True)).
      { apply alphaBeta_loop_runs; [exact Hb | lia | |].
        - intros g' a b mx Hg'. apply IH, Hg'.
        - apply (Forall_incl _ _ _ Hmoves Hordered). }
      intros [bestScore ttType] _.
      apply (runs_bind (fun _ => True)); [apply runs_ttSet|].
      intros _ _. run_ok.
Qed.

Lemma immediateCheckmate_returns (g : GameState) (moves : list Move) :
  eightRows (board g) -> List.Forall (movesAPiece (board g)) moves ->
  returns (fun o => forall m, o = Some m -> In m moves)
    (Opus.immediateCheckmate g moves).
Proof.
  intros Hb. induction 1 as [|m moves Hm _ IH]; simpl.
  - apply returns_Ok. intros m [=].
  - apply (returns_bind (fun g' => eightRows (board g')));
      [apply applyMove_returns; assumption|].
    intros testState Hts.
    apply (returns_bind (fun _ => True));
      [apply Opus_isCheckmate_returns, Hts|].
    intros [|] _.
    + apply returns_Ok. intros m' [= <-]. left. reflexivity.
    + eapply returns_weaken; [exact IH|].
      intros o Ho m' Hm'. right. apply Ho, Hm'.
Qed.

Lemma root_loop_runs (g : GameState) (botColor : Color) (startTime : Z)
    (depth : nat) :
  eightRows (board g) ->
  forall moves, List.Forall (movesAPiece (board g)) moves ->
  forall currentBest currentScore bestMove bestScore,
    runs (fun r => snd (fst r) = bestMove \/ In (snd (fst r)) moves)
      (root_loop g botColor startTime depth moves currentBest currentScore
         bestMove bestScore).
Proof.
  intros Hb. induction 1 as [|m moves Hm _ IH];
    intros currentBest currentScore bestMove bestScore; simpl.
  - apply runs_ret. left. reflexivity.
  - apply (runs_bind (fun _ => True)); [apply runs_now|].
    intros t _.
    destruct (t - startTime >? Opus.TIME_LIMIT * 9 / 10);
      [apply runs_ret; left; reflexivity|].
    apply (runs_bind (fun g' => eightRows (board g')));
      [apply runs_lift, applyMove_returns; assumption|].
    intros testState Hts.
    apply (runs_bind (fun _ => True)); [apply alphaBeta_runs, Hts|].
    intros value _.
    apply (runs_bind (fun _ => True)).
    { destruct (- value >? currentScore); [|run_ok].
      apply (runs_bind (fun _ => True)); [apply runs_updateHistoryTable|].
      intros _ _. run_ok. }
    intros [currentBest' currentScore'] _.
    eapply runs_weaken; [apply IH|].
    intros r [Hr|Hr]; [|right; right; exact Hr].
    destruct (- value >? bestScore);
      [right; left; symmetry; exact Hr | left; exact Hr].
Qed.

Lemma deepen_runs (g : GameState) (botColor : Color) (startTime : Z)
    (moves : list Move) :
  eightRows (board g) -> List.Forall (movesAPiece (board g)) moves ->
  forall depths bestMove bestScore,
    runs (fun m => m = bestMove \/ In m moves)
      (deepen g botColor startTime moves depths bestMove bestScore).
Proof.
  intros Hb Hall. induction depths as [|depth depths IH];
    intros bestMove bestScore; simpl.
  - apply runs_ret. left. reflexivity.
  - apply (runs_bind (fun _ => True)); [apply runs_now|].
    intros t _.
    destruct (t - startTime >? Opus.TIME_LIMIT * 7 / 10);
      [apply runs_ret; left; reflexivity|].
    apply (runs_bind (fun l => forall x, In x l -> In x moves));
      [apply orderMovesM_runs; [exact Hb | lia | exact Hall]|].
    intros ordered Hordered.
    apply (runs_bind (fun r => snd (fst r) = bestMove
                               \/ In (snd (fst r)) ordered)).
    { apply root_loop_runs; [exact Hb|].
      apply (Forall_incl _ _ _ Hall Hordered). }
    intros [[currentBest bestMove'] bestScore'] Hbest. simpl in Hbest.
    apply (runs_bind (fun _ => True)).
    { destruct currentBest; [apply runs_updateKillerMoves; lia | run_ok]. }
    intros _ _.
    eapply runs_weaken; [apply IH|].
    intros m [->|Hm]; [|right; exact Hm].
    destruct Hbest as [->|Hin]; [left; reflexivity | right; auto].
Qed.

(** With at least one legal move, [makeMove] returns one of the legal
    moves, whatever the clock says. *)
Lemma Opus_makeMove_returns_move (g : GameState) (botColor : Color)
    (e : Opus.Engine) (moves : list Move) :
  eightRows (board g) -> fourKillers e ->
  Opus.generateLegalMoves g botColor = Ok moves ->
  moves <> [] ->
  exists m e', makeMove g botColor e = Ok (Some m, e') /\ In m moves.
Proof.
  intros Hb He Hmoves Hne.
  assert (Hrun : runs (fun o => exists m, o = Some m /\ In m moves)
                   (makeMove g botColor)).
  { unfold Opus.makeMove.
    apply (runs_bind (fun _ => True)); [apply runs_now|].
    intros startTime _.
    apply (runs_bind (fun _ => True)); [apply runs_clearOldTranspositions|].
    intros _ _. cbn [Opus.getOpeningBookMove].
    destruct (generateLegalMoves_returns g botColor Hb)
      as (moves' & Hmoves' & Hall).
    rewrite Hmoves in Hmoves'. injection Hmoves' as <-.
    apply (runs_bind (fun l => l = moves));
      [apply runs_lift; exists moves; auto|].
    intros ? ->.
    destruct moves as [|first [|second rest]]; [contradiction| |].
    - apply runs_ret. exists first. split; [reflexivity | left; reflexivity].
    - apply (runs_bind (fun o => forall m, o = Some m ->
                                           In m (first :: second :: rest)));
        [apply runs_lift, immediateCheckmate_returns; assumption|].
      intros [m|] Hmate.
      + apply runs_ret. exists m. split; [reflexivity | apply Hmate; reflexivity].
      + apply (runs_bind (fun m => m = first
                                   \/ In m (first :: second :: rest)));
          [apply deepen_runs; assumption|].
        intros m Hm. apply runs_ret. exists m. split; [reflexivity|].
        destruct Hm as [->|Hm]; [left; reflexivity | exact Hm]. }
  destruct (Hrun e He) as (o & e' & Hrun' & _ & m & -> & Hin).
  exists m, e'. auto.
Qed.

(** Without a legal move, [makeMove] returns [null]. *)
Lemma Opus_makeMove_returns_null (g : GameState) (botColor : Color)
    (e : Opus.Engine) :
  Opus.generateLegalMoves g botColor = Ok [] ->
  rmap fst (makeMove g botColor e) = Ok None.
Proof.
  intros Hmoves. unfold Opus.makeMove, Opus.bind, Opus.now,
    Opus.clearOldTranspositions, Opus.lift, rmap.
  cbn [Opus.getOpeningBookMove]. rewrite Hmoves. reflexivity.
Qed.

End OpusSearch.

(** ** Move selection *)

(** C4.  Whenever the colour has at least one legal move, both bots
    return a move and not [null]: the Grok bot for either outcome of its
    opening draw, the Opus bot for every behaviour of the clock (also
    when the deadline has passed before the first depth completes) and
    of its evaluation terms; the Opus bot's move is one of the legal
    moves.  Boards have their eight rows and the killer table its four
    entries. *)
Theorem makeMove_returns_a_move_when_one_exists
    (Date_now : nat -> Z)
    (evaluateMaterial : Board -> Z) (evaluateKingSafety : GameState -> Z)
    (evaluateCenterControl : Board -> Z)
    (evaluatePieceActivity : GameState -> Z)
    (evaluatePawnStructure : Board -> Z)
    (evaluateTactics evaluateStrategy : GameState -> Z)
    (g : GameState) (botColor : Color) (moves : list Move)
    (second : bool) (e : Opus.Engine) :
  eightRows (board g) ->
  fourKillers e ->
  Opus.generateLegalMoves g botColor = Ok moves ->
  moves <> [] ->
  (exists m, Grok.makeMove g botColor second = Ok (Some m))
  /\ (exists m e',
        Opus.makeMove Date_now evaluateMaterial evaluateKingSafety
          evaluateCenterControl evaluatePieceActivity evaluatePawnStructure
          evaluateTactics evaluateStrategy g botColor e = Ok (Some m, e')
        /\ In m moves).
Proof.
  intros Hb He Hmoves Hne. split.
  - apply (Grok_makeMove_returns_move g botColor second moves Hb Hmoves Hne).
  - apply Opus_makeMove_returns_move; assumption.
Qed.

Lemma makeMove_returns_a_move_when_one_exists_witness :
  (exists m, Grok.makeMove openingState White true = Ok (Some m))
  /\ (exists m e',
        Opus.makeMove slowClock zeroTerm zeroTerm zeroTerm zeroTerm
          zeroTerm zeroTerm zeroTerm openingState White Opus.freshEngine
        = Ok (Some m, e')).
Proof.
  destruct (Opus.generateLegalMoves openingState White)
    as [moves| |] eqn:Hmoves;
    [|vm_compute in Hmoves; discriminate Hmoves..].
  destruct (makeMove_returns_a_move_when_one_exists
              slowClock zeroTerm zeroTerm zeroTerm zeroTerm zeroTerm
              zeroTerm zeroTerm openingState White moves true
              Opus.freshEngine)
    as [Hgrok (m & e' & Hopus & _)].
  - reflexivity.
  - reflexivity.
  - exact Hmoves.
  - vm_compute in Hmoves. injection Hmoves as <-. discriminate.
  - split; [exact Hgrok | exists m, e'; exact Hopus].
Defined.
(** ** What a move leaves in place *)

Lemma index_negative {A} (l : list A) (i : Z) : i < 0 -> index l i = None.
Proof. intros H. unfold index. destruct (Z.ltb_spec i 0); [reflexivity|lia]. Qed.

Lemma index_setIndex_ne (line : list (option Piece)) (c c' : Z)
    (v : option Piece) :
  c' <> c ->
  match index (setIndex line c v) c' with Some p => p | None => None end
  = match index line c' with Some p => p | None => None end.
Proof.
  intros Hne.
  destruct (Z.ltb_spec c' 0) as [Hneg|Hpos];
    [rewrite !index_negative by exact Hneg; reflexivity|].
  rewrite !index_in_range by exact Hpos. unfold setIndex.
  destruct (Z.ltb_spec c 0); [reflexivity|].
  destruct (Z.ltb_spec c (Z.of_nat (length line))).
  - rewrite list_lookup_insert_ne by lia. reflexivity.
  - destruct (Z.ltb_spec c' (Z.of_nat (length line))).
    + rewrite lookup_app_l by lia. reflexivity.
    + rewrite lookup_app_r by lia.
      rewrite (lookup_ge_None_2 line) by lia.
      destruct (Z.ltb_spec c' c).
      * rewrite lookup_app_l by (rewrite length_replicate; lia).
        rewrite lookup_replicate_2 by lia. reflexivity.
      * rewrite lookup_ge_None_2; [reflexivity|].
        rewrite length_app, length_replicate. simpl. lia.
Qed.

(** [board[r][c] = v] leaves every other cell as it was. *)
Lemma cell_setCell_ne (b b' : Board) (r c r' c' : Z) (v : option Piece) :
  setCell b r c v = Ok b' -> r' <> r \/ c' <> c ->
  cell b' r' c' = cell b r' c'.
Proof.
  intros H Hne. apply setCell_inv in H as (Hr & line & Hline & ->).
  unfold cell.
  destruct (Z.ltb_spec r' 0) as [Hneg|Hpos];
    [rewrite !index_negative by exact Hneg; reflexivity|].
  rewrite (index_in_range _ r') by exact Hpos.
  rewrite (index_in_range b r') by exact Hpos.
  destruct (Z.eq_dec r' r) as [->|Hr'].
  - destruct Hne as [Hne|Hne]; [congruence|].
    apply index_Some_inv in Hline as [_ Hline].
    rewrite list_lookup_insert_eq by lia. rewrite Hline.
    f_equal. apply index_setIndex_ne, Hne.
  - rewrite list_lookup_insert_ne by lia. reflexivity.
Qed.

(** A pawn move writes to the column of its destination and to its
    origin only. *)
Lemma executeMove_pawn_writes (prevState next : GameState)
    (from to : Square) (pawn : Piece) :
  executeMove prevState from to = Ok next ->
  at_ (board prevState) from = Ok (Some pawn) ->
  type pawn = Pawn ->
  forall r c,
    c <> col to -> r <> row from \/ c <> col from ->
    cell (board next) r c = cell (board prevState) r c.
Proof.
  unfold executeMove. intros H Hfrom Htype r c Hcol Hnotfrom.
  bind_inv H capturedPiece Hcap.
  rewrite Hfrom in H. cbn [rbind] in H. rewrite Htype in H.
  cbn [PieceType_eqb andb] in H.
  bind_inv H ep Hep. destruct ep as [enPassantCapturedPiece b1].
  cbn [rbind] in H.
  bind_inv H b3 Hb3.
  bind_inv H b4 Hb4.
  bind_inv H b5 Hb5.
  bind_inv H positionString Hps.
  bind_inv H inCheck Hic.
  bind_inv H hasLegalMoves Hlm.
  injection H as <-. cbn [board setGameStatus setPositionHistory].
  assert (H1 : cell b1 r c = cell (board prevState) r c).
  { match type of Hep with
    | (if ?cond then _ else _) = _ => destruct cond
    end.
    - bind_inv Hep taken Htaken. bind_inv Hep b' Hb'.
      injection Hep as _ <-.
      apply (cell_setCell_ne _ _ _ _ _ _ _ Hb'). right. exact Hcol.
    - injection Hep as _ <-. reflexivity. }
  assert (H3 : cell b3 r c = cell b1 r c)
    by (apply (cell_setCell_ne _ _ _ _ _ _ _ Hb3); right; exact Hcol).
  assert (H4 : cell b4 r c = cell b3 r c)
    by (apply (cell_setCell_ne _ _ _ _ _ _ _ Hb4); exact Hnotfrom).
  assert (H5 : cell b5 r c = cell b4 r c).
  { match type of Hb5 with
    | (if ?cond then _ else _) = _ => destruct cond
    end.
    - apply (cell_setCell_ne _ _ _ _ _ _ _ Hb5). right. exact Hcol.
    - injection Hb5 as <-. reflexivity. }
  congruence.
Qed.

(** A pawn of the side to move may step diagonally onto the empty
    en-passant target. *)
Lemma en_passant_move_is_valid (g : GameState) (from to : Square)
    (pawn : Piece) :
  at_ (board g) from = Ok (Some pawn) ->
  type pawn = Pawn ->
  color pawn = currentTurn g ->
  at_ (board g) to = Ok None ->
  onBoard to ->
  enPassantTarget g = Some to ->
  Z.abs (row to - row from) = 1 ->
  col to - col from = match color pawn with White => 1 | Black => -1 end ->
  isValidMove (board g) from to g = Ok true.
Proof.
  intros Hfrom Htype Hcolor Hto [Hr Hc] Htarget Hrows Hcols.
  unfold isValidMove. rewrite Hfrom, Hto. cbn [rbind].
  rewrite Hcolor, Color_eqb_refl. cbn [negb].
  destruct (Z.ltb_spec (row to) 0); [lia|].
  destruct (Z.gtb_spec (row to) 7); [lia|].
  destruct (Z.ltb_spec (col to) 0); [lia|].
  destruct (Z.gtb_spec (col to) 7); [lia|].
  cbn [orb]. rewrite Htype.
  unfold isValidPawnMove. rewrite Hto. cbn [rbind truthy].
  destruct (Z.eqb_spec (row to - row from) 0); [lia|].
  rewrite Hrows, Hcols, Htarget, <- Hcolor.
  rewrite !Z.eqb_refl. destruct (color pawn); reflexivity.
Qed.

(** Whenever [executeMove] applies an en-passant capture, the pawn that
    made the double push (on the row of the target, one column behind
    it) is still on the board afterwards. *)
Lemma en_passant_capture_keeps_passed_pawn (prevState next : GameState)
    (from to : Square) (pawn : Piece) :
  executeMove prevState from to = Ok next ->
  at_ (board prevState) from = Ok (Some pawn) ->
  type pawn = Pawn ->
  enPassantTarget prevState = Some to ->
  Z.abs (row to - row from) = 1 ->
  forall direction,
    direction = match color pawn with White => 1 | Black => -1 end ->
    cell (board next) (row to) (col to - direction)
    = cell (board prevState) (row to) (col to - direction).
Proof.
  intros Hexec Hfrom Htype _ Hrows direction ->.
  apply (executeMove_pawn_writes prevState next from to pawn Hexec Hfrom
           Htype).
  - destruct (color pawn); lia.
  - left. lia.
Qed.

(** A move that [isValidMove] rejects leaves the state as it is. *)
Lemma handleMove_rejected_unchanged (app : App) (from to : Square) :
  isValidMove (board (gameState app)) from to (gameState app) = Ok false ->
  handleMove app from to = Ok app.
Proof.
  intros H. unfold handleMove. rewrite H. cbn [rbind negb].
  destruct (negb (gameStarted app)); [reflexivity|].
  destruct (isProcessingBotMove app); [reflexivity|].
  destruct (negb _); reflexivity.
Qed.

(** The letters of a position string are the first letters of the piece
    names, so a king and a knight of one colour are written alike. *)
Lemma position_string_confuses_king_and_knight :
  let g := stateOf emptyBoard White noCastling None in
  getBoardPositionString (position [(4, 0, King, White)]) g
  = getBoardPositionString (position [(4, 0, Knight, White)]) g.
Proof. vm_compute. reflexivity. Qed.
(** ** The path between two squares *)

Ltac on_board := unfold onBoard, sq; cbn [row col]; lia.

Lemma isPathClear_loop_true (b : Board) (to : Square) (rowStep colStep : Z) :
  -1 <= rowStep <= 1 -> -1 <= colStep <= 1 ->
  rowStep <> 0 \/ colStep <> 0 ->
  forall (n fuel : nat) (r c : Z),
    (n <= fuel)%nat ->
    row to = r + Z.of_nat n * rowStep ->
    col to = c + Z.of_nat n * colStep ->
    isPathClear_loop fuel b to rowStep colStep r c = Ok true
    <-> forall j, 0 <= j < Z.of_nat n ->
                  cell b (r + j * rowStep) (c + j * colStep) = Ok None.
Proof.
  intros Hrs Hcs Hstep. induction n as [|n IH]; intros fuel r c Hfuel Hrow Hcol.
  - replace r with (row to) by lia. replace c with (col to) by lia.
    split; [intros _ j Hj; lia|]. intros _.
    destruct fuel; simpl; rewrite !Z.eqb_refl; reflexivity.
  - destruct fuel as [|fuel]; [lia|]. simpl.
    assert (Htest : negb (r =? row to) || negb (c =? col to) = true).
    { apply orb_true_iff.
      destruct (Z.eqb_spec r (row to)); [|left; reflexivity].
      destruct (Z.eqb_spec c (col to)); [|right; reflexivity].
      exfalso. nia. }
    rewrite Htest.
    assert (Hnext : forall p,
              cell b r c = Ok p -> truthy p = false -> p = None)
      by (intros [k|] _ Ht; [discriminate Ht | reflexivity]).
    split.
    + intros H. bind_inv H p Hp.
      destruct (truthy p) eqn:Ep; [discriminate H|].
      rewrite (Hnext p Hp Ep) in Hp.
      pose proof (proj1 (IH fuel (r + rowStep) (c + colStep)
                           ltac:(lia) ltac:(lia) ltac:(lia)) H) as H'.
      clear H. rename H' into H.
      intros j Hj. destruct (Z.eq_dec j 0) as [->|Hj0].
      * rewrite !Z.mul_0_l, !Z.add_0_r. exact Hp.
      * specialize (H (j - 1)).
        replace (r + rowStep + (j - 1) * rowStep) with (r + j * rowStep)
          in H by lia.
        replace (c + colStep + (j - 1) * colStep) with (c + j * colStep)
          in H by lia.
        apply H. lia.
    + intros H. pose proof (H 0) as H0.
      rewrite !Z.mul_0_l, !Z.add_0_r in H0. rewrite H0 by lia.
      cbn [rbind truthy].
      apply (proj2 (IH fuel (r + rowStep) (c + colStep)
                      ltac:(lia) ltac:(lia) ltac:(lia))).
      intros j Hj. specialize (H (j + 1)).
      replace (r + (j + 1) * rowStep) with (r + rowStep + j * rowStep)
        in H by lia.
      replace (c + (j + 1) * colStep) with (c + colStep + j * colStep)
        in H by lia.
      apply H. lia.
Qed.

Lemma rowStep_sgn (a b : Z) :
  (if a >? b then 1 else if a <? b then -1 else 0) = Z.sgn (a - b).
Proof.
  destruct (Z.gtb_spec a b); [|destruct (Z.ltb_spec a b)];
    destruct (Z.sgn_spec (a - b)) as [[? ->]|[[? ->]|[? ->]]]; lia.
Qed.

Lemma aligned_steps (from to : Square) :
  aligned from to ->
  row to = row from + steps from to * Z.sgn (row to - row from)
  /\ col to = col from + steps from to * Z.sgn (col to - col from).
Proof.
  unfold aligned, steps. intros H.
  destruct (Z.sgn_spec (row to - row from)) as [[? ->]|[[? ->]|[? ->]]];
    destruct (Z.sgn_spec (col to - col from)) as [[? ->]|[[? ->]|[? ->]]];
    lia.
Qed.

Lemma isPathClear_true_iff_clearBetween (b : Board) (from to : Square) :
  eightRows b -> onBoard from -> onBoard to -> aligned from to ->
  isPathClear b from to = Ok true <-> clearBetween b from to.
Proof.
  intros Hb [Hfr Hfc] [Htr Htc] Hal. unfold isPathClear, clearBetween.
  rewrite !rowStep_sgn.
  destruct (aligned_steps from to Hal) as [Hrow Hcol].
  set (rs := Z.sgn (row to - row from)) in *.
  set (cs := Z.sgn (col to - col from)) in *.
  set (N := steps from to) in *.
  assert (HN : 0 <= N <= 7) by (unfold N, steps; lia).
  assert (Hrs : -1 <= rs <= 1)
    by (unfold rs; destruct (Z.sgn_spec (row to - row from))
          as [[? ->]|[[? ->]|[? ->]]]; lia).
  assert (Hcs : -1 <= cs <= 1)
    by (unfold cs; destruct (Z.sgn_spec (col to - col from))
          as [[? ->]|[[? ->]|[? ->]]]; lia).
  destruct (Z.eq_dec N 0) as [H0|H0].
  - assert (rs = 0 /\ cs = 0) as [Hr0 Hc0].
    { unfold rs, cs, N, steps in *.
      destruct (Z.sgn_spec (row to - row from)) as [[? ->]|[[? ->]|[? ->]]];
        destruct (Z.sgn_spec (col to - col from)) as [[? ->]|[[? ->]|[? ->]]];
        lia. }
    rewrite Hr0, Hc0, !Z.add_0_r.
    replace (row from) with (row to) by lia.
    replace (col from) with (col to) by lia.
    split; [intros _ k Hk; lia|]. intros _.
    destruct (_ + _ + _)%nat; simpl; rewrite !Z.eqb_refl; reflexivity.
  - assert (Hstep : rs <> 0 \/ cs <> 0).
    { unfold rs, cs, N, steps in *.
      destruct (Z.sgn_spec (row to - row from)) as [[? ->]|[[? ->]|[? ->]]];
        destruct (Z.sgn_spec (col to - col from)) as [[? ->]|[[? ->]|[? ->]]];
        lia. }
    rewrite (isPathClear_loop_true b to rs cs Hrs Hcs Hstep
               (Z.to_nat (N - 1)));
      [|unfold eightRows in Hb; lia | rewrite Z2Nat.id by lia; lia
       | rewrite Z2Nat.id by lia; lia].
    rewrite Z2Nat.id by lia. unfold at_, stepFrom. cbn [row col].
    fold rs cs.
    split.
    + intros H k Hk. specialize (H (k - 1)).
      replace (row from + rs + (k - 1) * rs) with (row from + k * rs)
        in H by lia.
      replace (col from + cs + (k - 1) * cs) with (col from + k * cs)
        in H by lia.
      apply H. lia.
    + intros H j Hj. specialize (H (j + 1)).
      replace (row from + (j + 1) * rs) with (row from + rs + j * rs)
        in H by lia.
      replace (col from + (j + 1) * cs) with (col from + cs + j * cs)
        in H by lia.
      apply H. lia.
Qed.

Lemma steps_sym (from to : Square) : steps to from = steps from to.
Proof. unfold steps. lia. Qed.

Lemma aligned_sym (from to : Square) : aligned from to -> aligned to from.
Proof. unfold aligned. lia. Qed.

Lemma clearBetween_sym (b : Board) (from to : Square) :
  aligned from to -> clearBetween b from to -> clearBetween b to from.
Proof.
  intros Hal H k Hk. rewrite steps_sym in Hk.
  specialize (H (steps from to - k) ltac:(lia)).
  destruct (aligned_steps from to Hal) as [Hrow Hcol].
  replace (stepFrom to from k) with (stepFrom from to (steps from to - k));
    [exact H|].
  unfold stepFrom. f_equal.
  - replace (row from - row to) with (- (row to - row from)) by lia.
    rewrite Z.sgn_opp. lia.
  - replace (col from - col to) with (- (col to - col from)) by lia.
    rewrite Z.sgn_opp. lia.
Qed.

(** X1.  On a board of eight rows, for two squares of the board on a
    common row, column or diagonal, [isPathClear] returns, and it answers
    [true] exactly when every square strictly between them is empty; the
    two end squares are not looked at. *)
Theorem isPathClear_true_iff_between_empty
    (b : Board) (from to : Square) :
  eightRows b -> onBoard from -> onBoard to -> aligned from to ->
  exists free : bool,
    isPathClear b from to = Ok free
    /\ (free = true <-> clearBetween b from to).
Proof.
  intros Hb Hf Ht Hal.
  destruct (isPathClear_returns b from to Hb Hf Ht Hal) as (free & Hfree & _).
  exists free. split; [exact Hfree|].
  rewrite <- (isPathClear_true_iff_clearBetween b from to Hb Hf Ht Hal),
    Hfree.
  split; [intros ->; reflexivity | intros [= ->]; reflexivity].
Qed.

(** X2.  Under the same conditions the answer of [isPathClear] does not
    depend on the direction in which the path is walked. *)
Theorem isPathClear_symmetric (b : Board) (from to : Square) :
  eightRows b -> onBoard from -> onBoard to -> aligned from to ->
  isPathClear b from to = isPathClear b to from.
Proof.
  intros Hb Hf Ht Hal.
  pose proof (isPathClear_true_iff_clearBetween b from to Hb Hf Ht Hal) as H1.
  pose proof (isPathClear_true_iff_clearBetween b to from Hb Ht Hf
                (aligned_sym _ _ Hal)) as H2.
  destruct (isPathClear_returns b from to Hb Hf Ht Hal) as (x & Hx & _).
  destruct (isPathClear_returns b to from Hb Ht Hf (aligned_sym _ _ Hal))
    as (y & Hy & _).
  rewrite Hx, Hy in *. f_equal.
  destruct x, y; try reflexivity.
  - assert (Ok false = Ok true) as [=]; [].
    apply H2, clearBetween_sym; [exact Hal | apply H1; reflexivity].
  - assert (Ok false = Ok true) as [=]; [].
    apply H1, clearBetween_sym; [apply aligned_sym, Hal | apply H2; reflexivity].
Qed.

Lemma isPathClear_true_iff_between_empty_witness :
  exists free : bool,
    isPathClear createInitialBoard (sq 0 1) (sq 0 6) = Ok free
    /\ (free = true <-> clearBetween createInitialBoard (sq 0 1) (sq 0 6)).
Proof.
  apply (isPathClear_true_iff_between_empty createInitialBoard
           (sq 0 1) (sq 0 6)).
  - reflexivity.
  - on_board.
  - on_board.
  - unfold aligned, sq; cbn [row col]; lia.
Defined.

Lemma isPathClear_symmetric_witness :
  isPathClear createInitialBoard (sq 0 1) (sq 5 6)
  = isPathClear createInitialBoard (sq 5 6) (sq 0 1).
Proof.
  apply (isPathClear_symmetric createInitialBoard (sq 0 1) (sq 5 6)).
  - reflexivity.
  - on_board.
  - on_board.
  - unfold aligned, sq; cbn [row col]; lia.
Defined.


(** ** Which moves [isValidMove] accepts *)


Lemma isValidMove_unfold (b : Board) (from to : Square) (g : GameState)
    (fromPiece : Piece) (toPiece : option Piece) :
  at_ b from = Ok (Some fromPiece) ->
  at_ b to = Ok toPiece ->
  color fromPiece = currentTurn g ->
  notOwn (color fromPiece) toPiece ->
  onBoard to ->
  isValidMove b from to g
  = match type fromPiece with
    | Pawn => isValidPawnMove b from to (row to - row from)
                (col to - col from) (color fromPiece) g
    | Rook => isValidRookMove b from to (row to - row from)
                (col to - col from)
    | Bishop => isValidBishopMove b from to (row to - row from)
                  (col to - col from)
    | Knight => Ok (isValidKnightMove (row to - row from)
                      (col to - col from))
    | Queen => isValidQueenMove b from to (row to - row from)
                 (col to - col from)
    | King => isValidKingMove b from to (row to - row from)
                (col to - col from) g
    end.
Proof.
  intros Hfrom Hto Hturn Hown [Hr Hc]. unfold isValidMove.
  rewrite Hfrom, Hto. cbn [rbind]. rewrite Hturn, Color_eqb_refl.
  cbn [negb].
  replace (match toPiece with
           | Some toPiece0 => Color_eqb (color toPiece0) (currentTurn g)
           | None => false
           end) with false.
  2:{ destruct toPiece as [tp|]; [|reflexivity].
      symmetry. destruct (Color_eqb (color tp) (currentTurn g)) eqn:E;
        [|reflexivity].
      apply Color_eqb_eq in E. exfalso.
      apply (Hown tp eq_refl). congruence. }
  destruct (Z.ltb_spec (row to) 0); [lia|].
  destruct (Z.gtb_spec (row to) 7); [lia|].
  destruct (Z.ltb_spec (col to) 0); [lia|].
  destruct (Z.gtb_spec (col to) 7); [lia|].
  reflexivity.
Qed.

Lemma isValidMove_true_inv (b : Board) (from to : Square) (g : GameState) :
  isValidMove b from to g = Ok true ->
  exists fromPiece toPiece,
    at_ b from = Ok (Some fromPiece) /\
    at_ b to = Ok toPiece /\
    color fromPiece = currentTurn g /\
    notOwn (color fromPiece) toPiece /\
    onBoard to.
Proof.
  unfold isValidMove. intros H.
  bind_inv H fromPiece Hfrom. bind_inv H toPiece Hto.
  destruct fromPiece as [fromPiece|]; [|discriminate H].
  exists fromPiece, toPiece.
  destruct (Color_eqb (color fromPiece) (currentTurn g)) eqn:Eturn;
    [|discriminate H].
  cbn [negb] in H.
  match type of H with
  | (if ?c then _ else _) = _ => destruct c eqn:Eown; [discriminate H|]
  end.
  destruct (Z.ltb_spec (row to) 0); [discriminate H|].
  destruct (Z.gtb_spec (row to) 7); [discriminate H|].
  destruct (Z.ltb_spec (col to) 0); [discriminate H|].
  destruct (Z.gtb_spec (col to) 7); [discriminate H|].
  repeat split; try assumption; try lia.
  - apply Color_eqb_eq, Eturn.
  - intros k -> Hk. rewrite Hk, Color_eqb_refl in Eown. discriminate.
Qed.

(** X3.  Every move that [isValidMove] accepts takes a piece of the side
    to move from its square to a different square of the board that does
    not hold a piece of the same colour. *)
Theorem isValidMove_accepts_only_own_piece_moves
    (b : Board) (from to : Square) (g : GameState) :
  isValidMove b from to g = Ok true ->
  exists fromPiece,
    at_ b from = Ok (Some fromPiece)
    /\ color fromPiece = currentTurn g
    /\ onBoard to
    /\ from <> to
    /\ (forall toPiece, at_ b to = Ok (Some toPiece) ->
                        color toPiece = opposite (currentTurn g)).
Proof.
  intros H.
  destruct (isValidMove_true_inv b from to g H)
    as (fromPiece & toPiece & Hfrom & Hto & Hturn & Hown & Hon).
  exists fromPiece. repeat split; try assumption; try apply Hon.
  - intros ->. rewrite Hfrom in Hto. injection Hto as <-.
    apply (Hown fromPiece eq_refl eq_refl).
  - intros tp Htp. rewrite Hto in Htp. injection Htp as ->.
    specialize (Hown tp eq_refl). rewrite Hturn in Hown.
    destruct (color tp), (currentTurn g); (reflexivity || congruence).
Qed.

Lemma isValidMove_accepts_only_own_piece_moves_witness :
  exists fromPiece,
    at_ createInitialBoard (sq 4 1) = Ok (Some fromPiece)
    /\ color fromPiece = White /\ onBoard (sq 4 3).
Proof.
  destruct (isValidMove_accepts_only_own_piece_moves createInitialBoard
              (sq 4 1) (sq 4 3) (createGameState "human" "human"))
    as (fromPiece & Hfrom & Hturn & Hon & _).
  - vm_compute. reflexivity.
  - exists fromPiece. auto.
Defined.

(** X4.  A pawn of the side to move is accepted exactly for: one step
    forward along its row onto an empty square; two steps forward from
    its starting column over an empty square onto an empty square; one
    step forward to a neighbouring row onto a piece of the other colour,
    or onto the empty en-passant target.  It never moves backwards or
    sideways, and never captures straight ahead. *)
Theorem pawn_move_accepted_iff
    (b : Board) (from to : Square) (g : GameState) (pawn : Piece)
    (toPiece : option Piece) :
  at_ b from = Ok (Some pawn) ->
  type pawn = Pawn ->
  color pawn = currentTurn g ->
  at_ b to = Ok toPiece ->
  onBoard to ->
  isValidMove b from to g = Ok true
  <-> (row to = row from /\ toPiece = None
       /\ (col to = col from + forward (color pawn)
           \/ (col from = pawnStartCol (color pawn)
               /\ col to = col from + 2 * forward (color pawn)
               /\ cell b (row from) (col from + forward (color pawn))
                  = Ok None)))
      \/ (Z.abs (row to - row from) = 1
          /\ col to = col from + forward (color pawn)
          /\ ((exists k, toPiece = Some k /\ color k <> color pawn)
              \/ (toPiece = None
                  /\ exists t, enPassantTarget g = Some t
                               /\ row t = row to /\ col t = col to))).
Proof.
  intros Hfrom Htype Hturn Hto Hon.
  assert (Hdir : forward (color pawn) = 1 \/ forward (color pawn) = -1)
    by (destruct (color pawn); auto).
  split.
  - intros H.
    destruct (isValidMove_true_inv b from to g H)
      as (fromPiece & toPiece' & Hfrom' & Hto' & _ & Hown & _).
    rewrite Hfrom in Hfrom'. injection Hfrom' as <-.
    rewrite Hto in Hto'. injection Hto' as <-.
    rewrite (isValidMove_unfold b from to g pawn toPiece Hfrom Hto Hturn
               Hown Hon), Htype in H.
    unfold isValidPawnMove in H. cbv zeta in H. rewrite Hto in H.
    cbn [rbind] in H.
    fold (forward (color pawn)) in H. fold (pawnStartCol (color pawn)) in H.
    destruct (Z.eqb_spec (row to - row from) 0) as [Hrow|Hrow].
    + left. destruct toPiece as [k|]; [discriminate H|].
      cbn [truthy] in H. split; [lia|]. split; [reflexivity|].
      destruct (Z.eqb_spec (col to - col from) (forward (color pawn)));
        [left; lia|].
      destruct (Z.eqb_spec (col from) (pawnStartCol (color pawn)));
        [|discriminate H].
      destruct (Z.eqb_spec (col to - col from) (2 * forward (color pawn)));
        [|discriminate H].
      cbn [andb] in H. bind_inv H middle Hmiddle.
      destruct middle; [discriminate H|].
      right. split; [assumption|]. split; [lia | exact Hmiddle].
    + right.
      destruct (Z.eqb_spec (Z.abs (row to - row from)) 1);
        [|discriminate H].
      destruct (Z.eqb_spec (col to - col from) (forward (color pawn)));
        [|discriminate H].
      cbn [andb] in H. split; [assumption|]. split; [lia|].
      destruct toPiece as [k|].
      * left. exists k. split; [reflexivity | apply Hown; reflexivity].
      * right. split; [reflexivity|]. cbn [truthy] in H.
        destruct (enPassantTarget g) as [t|]; [|discriminate H].
        exists t. split; [reflexivity|].
        destruct (Z.eqb_spec (row t) (row to)); [|discriminate H].
        destruct (Z.eqb_spec (col t) (col to)); [|discriminate H].
        auto.
  - intros H.
    assert (Hown : notOwn (color pawn) toPiece).
    { intros k ->.
      destruct H as [(_ & [=] & _)|(_ & _ & [(k' & [= <-] & Hk)|([=] & _)])].
      exact Hk. }
    rewrite (isValidMove_unfold b from to g pawn toPiece Hfrom Hto Hturn
               Hown Hon), Htype.
    unfold isValidPawnMove. cbv zeta. rewrite Hto. cbn [rbind].
    fold (forward (color pawn)). fold (pawnStartCol (color pawn)).
    destruct H as [(Hrow & -> & Hcol)|(Hrow & Hcol & Hdest)].
    + replace (row to - row from) with 0 by lia. cbn [Z.eqb truthy].
      destruct Hcol as [Hcol|(Hstart & Hcol & Hmiddle)].
      * replace (col to - col from) with (forward (color pawn)) by lia.
        rewrite Z.eqb_refl. reflexivity.
      * replace (col to - col from) with (2 * forward (color pawn)) by lia.
        destruct (Z.eqb_spec (2 * forward (color pawn))
                    (forward (color pawn))); [lia|].
        rewrite (proj2 (Z.eqb_eq _ _) Hstart), !Z.eqb_refl. cbn [andb].
        rewrite Hmiddle.
        reflexivity.
    + destruct (Z.eqb_spec (row to - row from) 0); [lia|].
      rewrite Hrow.
      replace (col to - col from) with (forward (color pawn)) by lia.
      rewrite !Z.eqb_refl. cbn [andb].
      destruct Hdest as [(k & -> & _)|(-> & t & -> & Hr & Hc)];
        [reflexivity|].
      cbn [truthy]. rewrite Hr, Hc, !Z.eqb_refl. reflexivity.
Qed.

Lemma pawn_move_accepted_iff_witness :
  isValidMove createInitialBoard (sq 4 1) (sq 4 3)
    (createGameState "human" "human") = Ok true.
Proof.
  apply (pawn_move_accepted_iff createInitialBoard (sq 4 1) (sq 4 3)
           (createGameState "human" "human")
           {| type := Pawn; color := White |} None).
  - reflexivity.
  - reflexivity.
  - reflexivity.
  - reflexivity.
  - on_board.
  - left. split; [reflexivity|]. split; [reflexivity|].
    right. split; [reflexivity|]. split; reflexivity.
Defined.

(** X5.  A rook, bishop or queen of the side to move is accepted exactly
    when the destination is a square of its line (row or column for the
    rook, diagonal for the bishop, either for the queen), holds no piece
    of its own colour, and every square strictly between is empty: these
    pieces never jump over another piece. *)
Theorem sliding_move_accepted_iff
    (b : Board) (from to : Square) (g : GameState) (piece : Piece)
    (toPiece : option Piece) :
  eightRows b -> onBoard from -> onBoard to ->
  at_ b from = Ok (Some piece) ->
  type piece = Rook \/ type piece = Bishop \/ type piece = Queen ->
  color piece = currentTurn g ->
  at_ b to = Ok toPiece ->
  isValidMove b from to g = Ok true
  <-> notOwn (color piece) toPiece
      /\ lineOf (type piece) from to
      /\ clearBetween b from to.
Proof.
  intros Hb Hf Ht Hfrom Htype Hturn Hto.
  assert (Hpath : aligned from to ->
                  isPathClear b from to = Ok true <-> clearBetween b from to)
    by (apply isPathClear_true_iff_clearBetween; assumption).
  assert (Hrook : isValidRookMove b from to (row to - row from)
                    (col to - col from) = Ok true
                  <-> lineOf Rook from to /\ clearBetween b from to).
  { unfold isValidRookMove, lineOf.
    destruct (Z.eqb_spec (row to - row from) 0);
      destruct (Z.eqb_spec (col to - col from) 0); cbn [negb andb];
      try (rewrite Hpath by (unfold aligned; auto); tauto).
    split; [discriminate | lia]. }
  assert (Hbishop : isValidBishopMove b from to (row to - row from)
                      (col to - col from) = Ok true
                    <-> lineOf Bishop from to /\ clearBetween b from to).
  { unfold isValidBishopMove, lineOf.
    destruct (Z.eqb_spec (Z.abs (row to - row from))
                (Z.abs (col to - col from))); cbn [negb].
    - rewrite Hpath by (unfold aligned; auto). tauto.
    - split; [discriminate | tauto]. }
  assert (Hqueen : isValidQueenMove b from to (row to - row from)
                     (col to - col from) = Ok true
                   <-> lineOf Queen from to /\ clearBetween b from to).
  { unfold isValidQueenMove.
    assert (Hrok : returns (fun _ => True)
                     (isValidRookMove b from to (row to - row from)
                        (col to - col from))).
    { unfold isValidRookMove.
      destruct (Z.eqb_spec (row to - row from) 0);
        destruct (Z.eqb_spec (col to - col from) 0); cbn [negb andb];
        try ret_ok; apply isPathClear_returns; auto. }
    destruct Hrok as (r & Hr & _). rewrite Hr in *. cbn [rbind].
    unfold lineOf, aligned in *.
    destruct r.
    - split; [|reflexivity]. intros _.
      destruct (proj1 Hrook eq_refl) as [Hl Hc]. tauto.
    - rewrite Hbishop. split; [tauto|].
      intros [[Hl|[Hl|Hl]] Hc]; [| |tauto];
        (assert (Ok false = Ok true) as [=] by (apply Hrook; tauto)). }
  split.
  - intros H.
    destruct (isValidMove_true_inv b from to g H)
      as (fromPiece & toPiece' & Hfrom' & Hto' & _ & Hown & _).
    rewrite Hfrom in Hfrom'. injection Hfrom' as <-.
    rewrite Hto in Hto'. injection Hto' as <-.
    split; [exact Hown|].
    rewrite (isValidMove_unfold b from to g piece toPiece Hfrom Hto Hturn
               Hown Ht) in H.
    destruct Htype as [E|[E|E]]; rewrite E in *; tauto.
  - intros (Hown & Hline & Hclear).
    rewrite (isValidMove_unfold b from to g piece toPiece Hfrom Hto Hturn
               Hown Ht).
    destruct Htype as [E|[E|E]]; rewrite E in *; tauto.
Qed.

Lemma sliding_move_accepted_iff_witness :
  isValidMove (board castlingReady) (sq 0 0) (sq 0 5) castlingReady
  = Ok true.
Proof.
  apply (sliding_move_accepted_iff (board castlingReady) (sq 0 0) (sq 0 5)
           castlingReady {| type := Rook; color := White |} None).
  - reflexivity.
  - on_board.
  - on_board.
  - reflexivity.
  - left. reflexivity.
  - reflexivity.
  - reflexivity.
  - split; [intros k [=]|].
    split; [left; reflexivity|].
    intros k Hk. change (steps (sq 0 0) (sq 0 5)) with 5 in Hk.
    assert (k = 1 \/ k = 2 \/ k = 3 \/ k = 4) as [->|[->|[->| ->]]] by lia;
      reflexivity.
Defined.

(** ** Scans of the board *)

Lemma In_allSquares (s : Square) : onBoard s -> In s allSquares.
Proof.
  destruct s as [r c]. unfold onBoard. cbn [row col]. intros [Hr Hc].
  assert (r = 0 \/ r = 1 \/ r = 2 \/ r = 3 \/ r = 4 \/ r = 5 \/ r = 6 \/ r = 7)
    as Hr' by lia.
  assert (c = 0 \/ c = 1 \/ c = 2 \/ c = 3 \/ c = 4 \/ c = 5 \/ c = 6 \/ c = 7)
    as Hc' by lia.
  repeat (destruct Hr' as [->|Hr']); try subst r;
    repeat (destruct Hc' as [->|Hc']); try subst c;
    vm_compute; tauto.
Qed.

Lemma anyM_true_iff {A} (f : A -> result bool) (l : list A) :
  (forall x, In x l -> returns (fun _ => True) (f x)) ->
  anyM f l = Ok true <-> exists x, In x l /\ f x = Ok true.
Proof.
  induction l as [|x l IH]; intros H; simpl.
  - split; [discriminate | intros (x & [] & _)].
  - destruct (H x (or_introl eq_refl)) as (r & Hr & _). rewrite Hr.
    cbn [rbind]. destruct r.
    + split; [intros _; exists x; auto | reflexivity].
    + rewrite IH by (intros y Hy; apply H; right; exact Hy).
      split; intros (y & Hy & Hfy); exists y.
      * split; [right; exact Hy | exact Hfy].
      * destruct Hy as [<-|Hy]; [congruence|]. split; assumption.
Qed.

Lemma concatMapM_In {A B} (f : A -> result (list B)) (l : list A)
    (ys : list B) (y : B) :
  concatMapM f l = Ok ys ->
  In y ys <-> exists x zs, In x l /\ f x = Ok zs /\ In y zs.
Proof.
  revert ys. induction l as [|x l IH]; intros ys; simpl.
  - intros [= <-]. split; [intros [] | intros (x & zs & [] & _)].
  - intros H. bind_inv H zs Hzs. bind_inv H rest Hrest.
    injection H as <-. rewrite in_app_iff, (IH rest Hrest).
    split.
    + intros [Hy|(x' & zs' & Hx' & Hf & Hy)].
      * exists x, zs. auto.
      * exists x', zs'. auto.
    + intros (x' & zs' & [<-|Hx'] & Hf & Hy).
      * left. congruence.
      * right. exists x', zs'. auto.
Qed.

(** X6.  A destination outside the board.  [isValidMove] reads
    [board[to.row][to.col]] before it tests the bounds of [to]: with the
    origin on the board, a destination whose row is outside 0..7 makes
    the call throw a [TypeError], and one whose row is inside but whose
    column is outside is rejected with [false]. *)
Theorem isValidMove_destination_off_board
    (b : Board) (from to : Square) (g : GameState) :
  eightRows b -> onBoard from ->
  (~ 0 <= row to < 8 -> isValidMove b from to g = TypeError)
  /\ (0 <= row to < 8 -> ~ 0 <= col to < 8 ->
      isValidMove b from to g = Ok false).
Proof.
  intros Hb [Hfr Hfc].
  destruct (cell_returns b (row from) (col from) Hb Hfr) as (p & Hp & _).
  unfold isValidMove, at_. rewrite Hp. cbn [rbind]. split.
  - intros Hrow. unfold cell at 1.
    assert (Hnone : index b (row to) = None).
    { unfold index. destruct (Z.ltb_spec (row to) 0); [reflexivity|].
      apply lookup_ge_None_2. unfold eightRows in Hb. lia. }
    rewrite Hnone. reflexivity.
  - intros Hrow Hcol.
    destruct (cell_returns b (row to) (col to) Hb Hrow) as (q & Hq & _).
    rewrite Hq. cbn [rbind].
    destruct p as [fromPiece|]; [|reflexivity].
    destruct (negb _); [reflexivity|].
    destruct (match q with Some _ => _ | None => _ end); [reflexivity|].
    destruct (Z.ltb_spec (row to) 0); [lia|].
    destruct (Z.gtb_spec (row to) 7); [lia|].
    destruct (Z.ltb_spec (col to) 0); [reflexivity|].
    destruct (Z.gtb_spec (col to) 7); [reflexivity|lia].
Qed.

Lemma isValidMove_destination_off_board_witness :
  isValidMove createInitialBoard (sq 7 1) (sq 8 1)
    (createGameState "human" "human") = TypeError
  /\ isValidMove createInitialBoard (sq 7 1) (sq 7 8)
       (createGameState "human" "human") = Ok false.
Proof.
  split.
  - apply (isValidMove_destination_off_board createInitialBoard (sq 7 1)
             (sq 8 1) (createGameState "human" "human")).
    + reflexivity.
    + on_board.
    + cbn [row sq]. lia.
  - apply (isValidMove_destination_off_board createInitialBoard (sq 7 1)
             (sq 7 8) (createGameState "human" "human")).
    + reflexivity.
    + on_board.
    + cbn [row sq]. lia.
    + cbn [col sq]. lia.
Defined.

(** ** Attacks, check and the king *)

Lemma isSquareUnderAttack_true_iff (b : Board) (s : Square) (c : Color) :
  eightRows b -> onBoard s ->
  isSquareUnderAttack b s c = Ok true <-> exists from, attacks b c from s.
Proof.
  intros Hb Hs. unfold isSquareUnderAttack.
  rewrite anyM_true_iff.
  - split.
    + intros (from & Hin & H). exists from.
      split; [apply allSquares_onBoard; exact Hin|].
      bind_inv H p Hp. destruct p as [piece|]; [|discriminate].
      destruct (Color_eqb (color piece) c) eqn:E; [|discriminate].
      exists piece. apply Color_eqb_eq in E. auto.
    + intros (from & Hon & piece & Hp & Hc & Hatt). exists from.
      split; [apply In_allSquares; exact Hon|].
      rewrite Hp. cbn [rbind]. rewrite Hc, Color_eqb_refl. exact Hatt.
  - intros from Hfrom.
    apply (returns_bind (fun _ => True)); [apply at_returns; assumption|].
    intros [piece|] _; [|ret_ok].
    destruct (Color_eqb (color piece) c); [|ret_ok].
    apply canPieceAttackSquare_returns; try assumption.
    apply allSquares_onBoard. exact Hfrom.
Qed.

Lemma findKing_loop_Some (b : Board) (c : Color) (l : list Square)
    (s : Square) :
  findKing_loop b c l = Ok (Some s) ->
  exists before after,
    l = before ++ s :: after
    /\ kingOf c (match at_ b s with Ok p => p | _ => None end)
    /\ forall s', In s' before ->
         ~ kingOf c (match at_ b s' with Ok p => p | _ => None end).
Proof.
  induction l as [|x l IH]; simpl; [discriminate|].
  intros H. bind_inv H p Hp.
  assert (Hrest : findKing_loop b c l = Ok (Some s) ->
                  ~ kingOf c p ->
                  exists before after,
                    x :: l = before ++ s :: after
                    /\ kingOf c (match at_ b s with Ok p => p | _ => None end)
                    /\ forall s', In s' before ->
                         ~ kingOf c
                             (match at_ b s' with Ok p => p | _ => None end)).
  { intros H' Hno. destruct (IH H') as (before & after & -> & Hk & Hb).
    exists (x :: before), after. split; [reflexivity|]. split; [exact Hk|].
    intros s' [<-|Hs']; [rewrite Hp; exact Hno | apply Hb; exact Hs']. }
  destruct p as [piece|].
  - destruct (PieceType_eqb (type piece) King
              && Color_eqb (color piece) c) eqn:E.
    + injection H as <-. exists [], l. split; [reflexivity|].
      split; [|intros s' []].
      rewrite Hp. exists piece. apply andb_true_iff in E as [Ht Hc].
      apply PieceType_eqb_eq in Ht. apply Color_eqb_eq in Hc. auto.
    + apply Hrest; [exact H|].
      intros (k & [= <-] & Ht & Hc).
      rewrite Ht, Hc, Color_eqb_refl in E. discriminate.
  - apply Hrest; [exact H|]. intros (k & [=] & _).
Qed.

Lemma findKing_None_iff (b : Board) (c : Color) :
  eightRows b ->
  findKing b c = Ok None
  <-> forall s p, onBoard s -> at_ b s = Ok p -> ~ kingOf c p.
Proof.
  intros Hb. split.
  - intros Hnone s p Hs Hp Hk.
    destruct (findKing_loop_returns b c allSquares Hb (fun _ H => H))
      as (o & Ho & _).
    assert (Hfind : exists s', findKing b c = Ok (Some s')).
    { clear Hnone o Ho. unfold findKing.
      assert (Hin := In_allSquares s Hs).
      assert (Hall : forall x, In x allSquares -> In x allSquares) by auto.
      revert Hin Hall. generalize allSquares at 1 2 4 as l.
      induction l as [|x l IH]; intros Hin Hall; [destruct Hin|].
      simpl.
      destruct (at_returns b x Hb (Hall x (or_introl eq_refl)))
        as (q & Hq & _).
      rewrite Hq. cbn [rbind].
      destruct Hin as [->|Hin].
      - rewrite Hp in Hq. injection Hq as <-.
        destruct Hk as (k & -> & Ht & Hc).
        rewrite Ht, Hc, Color_eqb_refl. cbn. eauto.
      - assert (IH' := IH Hin (fun y Hy => Hall y (or_intror Hy))).
        destruct q as [piece|]; [|exact IH'].
        destruct (_ && _); [eauto | exact IH']. }
    destruct Hfind as (s' & Hs'). congruence.
  - intros Hno. apply findKing_loop_None. intros s Hs.
    destruct (at_returns b s Hb Hs) as (p & Hp & _).
    exists p. split; [exact Hp|].
    apply (Hno s p); [apply allSquares_onBoard; exact Hs | exact Hp].
Qed.

(** X7.  On a board of eight rows [isSquareUnderAttack] returns for
    every square of the board, and it answers [true] exactly when some
    square of the board holds a piece of the attacking colour that
    [canPieceAttackSquare] lets attack the square. *)
Theorem isSquareUnderAttack_iff_some_piece_attacks
    (b : Board) (s : Square) (c : Color) :
  eightRows b -> onBoard s ->
  exists attacked : bool,
    isSquareUnderAttack b s c = Ok attacked
    /\ (attacked = true <-> exists from, attacks b c from s).
Proof.
  intros Hb Hs.
  destruct (isSquareUnderAttack_returns b s c Hb Hs) as (attacked & Ha & _).
  exists attacked. split; [exact Ha|].
  rewrite <- (isSquareUnderAttack_true_iff b s c Hb Hs), Ha.
  split; [intros ->; reflexivity | intros [= ->]; reflexivity].
Qed.

Lemma isSquareUnderAttack_iff_some_piece_attacks_witness :
  exists attacked : bool,
    isSquareUnderAttack createInitialBoard (sq 3 2) White = Ok attacked
    /\ (attacked = true
        <-> exists from, attacks createInitialBoard White from (sq 3 2)).
Proof.
  apply (isSquareUnderAttack_iff_some_piece_attacks createInitialBoard
           (sq 3 2) White).
  - reflexivity.
  - on_board.
Defined.

(** X8.  [findKing] returns a square of the board that holds a king of
    the colour, and no square before it in the scan (rows 0 to 7, in
    each row columns 0 to 7) holds one; it returns [null] exactly when
    no square of the board holds a king of the colour. *)
Theorem findKing_returns_the_first_king (b : Board) (c : Color) :
  eightRows b ->
  (forall s, findKing b c = Ok (Some s) ->
     onBoard s
     /\ (exists p, at_ b s = Ok p /\ kingOf c p)
     /\ exists before after,
          allSquares = before ++ s :: after
          /\ forall s' p, In s' before -> at_ b s' = Ok p -> ~ kingOf c p)
  /\ (findKing b c = Ok None
      <-> forall s p, onBoard s -> at_ b s = Ok p -> ~ kingOf c p).
Proof.
  intros Hb. split; [|apply findKing_None_iff; exact Hb].
  intros s Hs.
  destruct (findKing_loop_Some b c allSquares s Hs)
    as (before & after & Hsplit & Hk & Hbefore).
  assert (Hon : onBoard s).
  { apply allSquares_onBoard. rewrite Hsplit. apply in_elt. }
  split; [exact Hon|]. split.
  - destruct (cell_returns b (row s) (col s) Hb (proj1 Hon)) as (p & Hp & _).
    exists p. split; [exact Hp|]. unfold at_ in Hk. rewrite Hp in Hk.
    exact Hk.
  - exists before, after. split; [exact Hsplit|].
    intros s' p Hs' Hp. assert (H := Hbefore s' Hs').
    rewrite Hp in H. exact H.
Qed.

Lemma findKing_returns_the_first_king_witness :
  (forall s, findKing createInitialBoard Black = Ok (Some s) ->
     onBoard s
     /\ (exists p, at_ createInitialBoard s = Ok p /\ kingOf Black p)
     /\ exists before after,
          allSquares = before ++ s :: after
          /\ forall s' p, In s' before -> at_ createInitialBoard s' = Ok p ->
                          ~ kingOf Black p)
  /\ (findKing createInitialBoard Black = Ok None
      <-> forall s p, onBoard s -> at_ createInitialBoard s = Ok p ->
                      ~ kingOf Black p).
Proof.
  apply (findKing_returns_the_first_king createInitialBoard Black).
  reflexivity.
Defined.

(** X9.  [isInCheck] answers [true] exactly when [findKing] finds the
    king of the colour and a piece of the other colour attacks the
    king's square. *)
Theorem isInCheck_iff_king_attacked (b : Board) (c : Color) :
  eightRows b ->
  isInCheck b c = Ok true
  <-> exists king from,
        findKing b c = Ok (Some king) /\ attacks b (opposite c) from king.
Proof.
  intros Hb. unfold isInCheck.
  destruct (findKing_loop_returns b c allSquares Hb (fun _ H => H))
    as (o & Ho & Hon).
  fold (findKing b c) in Ho. rewrite Ho. cbn [rbind].
  destruct o as [king|].
  - rewrite isSquareUnderAttack_true_iff
      by (try exact Hb; apply Hon; reflexivity).
    split.
    + intros (from & H). exists king, from. auto.
    + intros (king' & from & [= <-] & H). exists from. exact H.
  - split; [discriminate | intros (king & from & [=] & _)].
Qed.

Lemma isInCheck_iff_king_attacked_witness :
  isInCheck (board cornerMate) (currentTurn cornerMate) = Ok true
  <-> exists king from,
        findKing (board cornerMate) (currentTurn cornerMate)
        = Ok (Some king)
        /\ attacks (board cornerMate) (opposite (currentTurn cornerMate))
             from king.
Proof.
  apply (isInCheck_iff_king_attacked (board cornerMate)
           (currentTurn cornerMate)).
  reflexivity.
Defined.

(** ** Legal moves *)

Lemma legal_test_returns (b : Board) (c : Color) (g : GameState)
    (from to : Square) :
  eightRows b -> onBoard from -> onBoard to ->
  exists valid : bool,
    isValidMove b from to g = Ok valid
    /\ exists testBoard check,
         makeMove b from to = Ok testBoard
         /\ isInCheck testBoard c = Ok check.
Proof.
  intros Hb Hf Ht.
  destruct (isValidMove_returns b from to g Hb Hf Ht) as (valid & Hv & _).
  destruct (makeMove_returns b from to Hb (proj1 Hf) (proj1 Ht))
    as (testBoard & Htb & Height).
  destruct (isInCheck_returns testBoard c Height) as (check & Hc & _).
  exists valid. split; [exact Hv|]. exists testBoard, check. auto.
Qed.

Lemma getLegalMoves_In_iff (b : Board) (c : Color) (g : GameState)
    (ms : list Move) (m : Move) :
  eightRows b ->
  Grok.getLegalMoves b c g = Ok ms ->
  In m ms <-> legalMove b c g m.
Proof.
  intros Hb Hms. unfold Grok.getLegalMoves in Hms.
  rewrite (concatMapM_In _ _ _ m Hms). clear Hms. split.
  - intros (src & zs & Hfrom & Hzs & Hm).
    apply allSquares_onBoard in Hfrom.
    bind_inv Hzs p Hp. destruct p as [piece|]; [|injection Hzs as <-; destruct Hm].
    destruct (Color_eqb (color piece) c) eqn:Hc; cbn [negb] in Hzs;
      [|injection Hzs as <-; destruct Hm].
    apply Color_eqb_eq in Hc.
    rewrite (concatMapM_In _ _ _ m Hzs) in Hm.
    destruct Hm as (dst & ws & Hto & Hws & Hm).
    apply allSquares_onBoard in Hto.
    bind_inv Hws valid Hvalid.
    destruct valid; [|injection Hws as <-; destruct Hm].
    unfold Grok.applyMoveToBoard in Hws.
    bind_inv Hws testBoard Htb. bind_inv Hws check Hcheck.
    destruct check; cbn [negb] in Hws; injection Hws as <-; [destruct Hm|].
    destruct Hm as [<-|[]]. unfold legalMove. cbn [from to].
    repeat split; try apply Hfrom; try apply Hto; try assumption; eauto.
  - intros (Hfrom & Hto & (piece & Hp & Hc) & Hvalid & testBoard & Htb
            & Hcheck).
    destruct (concatMapM_returns (fun _ => True)
                (fun to0 =>
                   valid <- isValidMove b (from m) to0 g;
                   if valid then
                     testBoard <- Grok.applyMoveToBoard b (from m) to0;
                     check <- isInCheck testBoard c;
                     if negb check then Ok [{| from := from m; to := to0 |}]
                     else Ok []
                   else Ok []) allSquares) as (zs & Hzs & _).
    { intros to0 Hto0. apply allSquares_onBoard in Hto0.
      destruct (legal_test_returns b c g (from m) to0 Hb Hfrom Hto0)
        as (valid & -> & tb & check & Htb0 & Hc0).
      cbn [rbind]. destruct valid; [|apply returns_Ok; constructor].
      unfold Grok.applyMoveToBoard. rewrite Htb0. cbn [rbind].
      rewrite Hc0. cbn [rbind].
      destruct (negb check); apply returns_Ok; repeat constructor. }
    exists (from m), zs. split; [apply In_allSquares; exact Hfrom|].
    split.
    + rewrite Hp. cbn [rbind]. rewrite Hc, Color_eqb_refl. cbn [negb].
      exact Hzs.
    + rewrite (concatMapM_In _ _ _ m Hzs).
      exists (to m), [m]. split; [apply In_allSquares; exact Hto|].
      split; [|left; reflexivity].
      rewrite Hvalid. cbn [rbind]. unfold Grok.applyMoveToBoard.
      rewrite Htb. cbn [rbind]. rewrite Hcheck. cbn [rbind negb].
      destruct m; reflexivity.
Qed.

Lemma hasAnyLegalMove_true_iff (b : Board) (c : Color) (g : GameState) :
  eightRows b ->
  hasAnyLegalMove b c g = Ok true <-> exists m, legalMove b c g m.
Proof.
  intros Hb.
  assert (Hinner : forall src, onBoard src -> forall dst, In dst allSquares ->
            returns (fun _ => True)
              (valid <- isValidMove b src dst g;
               if valid then
                 testBoard <- makeMove b src dst;
                 check <- isInCheck testBoard c;
                 Ok (negb check)
               else Ok false)).
  { intros src Hsrc dst Hdst. apply allSquares_onBoard in Hdst.
    destruct (legal_test_returns b c g src dst Hb Hsrc Hdst)
      as (valid & -> & tb & check & -> & Hc).
    cbn [rbind]. destruct valid; [|ret_ok]. rewrite Hc. ret_ok. }
  unfold hasAnyLegalMove. rewrite anyM_true_iff.
  - split.
    + intros (src & Hsrc & H). apply allSquares_onBoard in Hsrc.
      bind_inv H p Hp. destruct p as [piece|]; [|discriminate].
      destruct (Color_eqb (color piece) c) eqn:Hc; [|discriminate].
      apply Color_eqb_eq in Hc.
      apply anyM_true_iff in H; [|apply Hinner; exact Hsrc].
      destruct H as (dst & Hdst & H). apply allSquares_onBoard in Hdst.
      bind_inv H valid Hvalid. destruct valid; [|discriminate].
      bind_inv H testBoard Htb. bind_inv H check Hcheck.
      destruct check; [discriminate|].
      exists {| from := src; to := dst |}. unfold legalMove.
      cbn [from to]. repeat split; try apply Hsrc; try apply Hdst; eauto.
    + intros (m & Hfrom & Hto & (piece & Hp & Hc) & Hvalid & testBoard & Htb
              & Hcheck).
      exists (from m). split; [apply In_allSquares; exact Hfrom|].
      rewrite Hp. cbn [rbind]. rewrite Hc, Color_eqb_refl.
      apply anyM_true_iff; [apply Hinner; exact Hfrom|].
      exists (to m). split; [apply In_allSquares; exact Hto|].
      rewrite Hvalid. cbn [rbind]. rewrite Htb. cbn [rbind].
      rewrite Hcheck. reflexivity.
  - intros src Hsrc.
    apply (returns_bind (fun _ => True)); [apply at_returns; assumption|].
    intros [piece|] _; [|ret_ok].
    destruct (Color_eqb (color piece) c); [|ret_ok].
    apply anyM_returns. apply Hinner. apply allSquares_onBoard. exact Hsrc.
Qed.

(** X10.  The move generators of the two bots return the same list, and
    it holds exactly the legal moves of the colour: the moves from a
    square with a piece of the colour that [isValidMove] accepts and
    after which the colour's king is not in check. *)
Theorem move_generators_list_the_legal_moves
    (g : GameState) (c : Color) :
  eightRows (board g) ->
  exists ms,
    Grok.getLegalMoves (board g) c g = Ok ms
    /\ Opus.generateLegalMoves g c = Ok ms
    /\ forall m, In m ms <-> legalMove (board g) c g m.
Proof.
  intros Hb.
  destruct (getLegalMoves_returns (board g) c g Hb) as (ms & Hms & _).
  exists ms. split; [exact Hms|]. split; [exact Hms|].
  intros m. apply getLegalMoves_In_iff; assumption.
Qed.

Lemma move_generators_list_the_legal_moves_witness :
  exists ms,
    Grok.getLegalMoves (board openingState) White openingState = Ok ms
    /\ Opus.generateLegalMoves openingState White = Ok ms
    /\ forall m, In m ms <-> legalMove (board openingState) White
                               openingState m.
Proof.
  apply (move_generators_list_the_legal_moves openingState White).
  reflexivity.
Defined.

(** X11.  On a board of eight rows [hasAnyLegalMove] returns, and it
    answers [true] exactly when the colour has a legal move. *)
Theorem hasAnyLegalMove_iff_a_legal_move_exists
    (b : Board) (c : Color) (g : GameState) :
  eightRows b ->
  exists legal : bool,
    hasAnyLegalMove b c g = Ok legal
    /\ (legal = true <-> exists m, legalMove b c g m).
Proof.
  intros Hb.
  destruct (hasAnyLegalMove_returns b c g Hb) as (legal & Hlegal & _).
  exists legal. split; [exact Hlegal|].
  rewrite <- (hasAnyLegalMove_true_iff b c g Hb), Hlegal.
  split; [intros ->; reflexivity | intros [= ->]; reflexivity].
Qed.

Lemma hasAnyLegalMove_iff_a_legal_move_exists_witness :
  exists legal : bool,
    hasAnyLegalMove (board cornerMate) (currentTurn cornerMate) cornerMate
    = Ok legal
    /\ (legal = true
        <-> exists m, legalMove (board cornerMate) (currentTurn cornerMate)
                        cornerMate m).
Proof.
  apply (hasAnyLegalMove_iff_a_legal_move_exists (board cornerMate)
           (currentTurn cornerMate) cornerMate).
  reflexivity.
Defined.

(** X12.  [isCheckmate], and the Opus bot's own [isCheckmate] for the
    side to move, answer [true] exactly when the colour is in check and
    has no legal move. *)
Theorem isCheckmate_iff_check_without_legal_move (g : GameState) :
  eightRows (board g) ->
  (isCheckmate (board g) (currentTurn g) g = Ok true
   <-> isInCheck (board g) (currentTurn g) = Ok true
       /\ forall m, ~ legalMove (board g) (currentTurn g) g m)
  /\ Opus.isCheckmate g = isCheckmate (board g) (currentTurn g) g.
Proof.
  intros Hb. split; [|reflexivity].
  unfold isCheckmate.
  destruct (isInCheck_returns (board g) (currentTurn g) Hb)
    as (check & Hcheck & _).
  destruct (hasAnyLegalMove_returns (board g) (currentTurn g) g Hb)
    as (legal & Hlegal & _).
  assert (Hiff := hasAnyLegalMove_true_iff (board g) (currentTurn g) g Hb).
  rewrite Hcheck, Hlegal in *. cbn [rbind].
  destruct check; cbn [negb rbind].
  - destruct legal; cbn [negb].
    + split; [discriminate|]. intros [_ Hno].
      destruct (proj1 Hiff eq_refl) as (m & Hm). destruct (Hno m Hm).
    + split; [|reflexivity]. intros _. split; [reflexivity|].
      intros m Hm. assert (Ok false = Ok true) as [=].
      apply Hiff. exists m. exact Hm.
  - split; [discriminate | intros [[=] _]].
Qed.

Lemma isCheckmate_iff_check_without_legal_move_witness :
  (isCheckmate (board cornerMate) (currentTurn cornerMate) cornerMate
   = Ok true
   <-> isInCheck (board cornerMate) (currentTurn cornerMate) = Ok true
       /\ forall m, ~ legalMove (board cornerMate) (currentTurn cornerMate)
                        cornerMate m)
  /\ Opus.isCheckmate cornerMate
     = isCheckmate (board cornerMate) (currentTurn cornerMate) cornerMate.
Proof.
  apply (isCheckmate_iff_check_without_legal_move cornerMate).
  reflexivity.
Defined.

(** ** Moves and attacks *)

(** X13.  A king of the side to move may step to a neighbouring square
    exactly when the square holds no piece of its own colour and, on the
    board after the step, no piece of the other colour attacks it: the
    king never steps into an attack. *)
Theorem king_step_accepted_iff
    (b : Board) (from to : Square) (g : GameState) (king : Piece)
    (toPiece : option Piece) :
  eightRows b -> onBoard from -> onBoard to ->
  at_ b from = Ok (Some king) ->
  type king = King ->
  color king = currentTurn g ->
  at_ b to = Ok toPiece ->
  Z.abs (row to - row from) <= 1 ->
  Z.abs (col to - col from) <= 1 ->
  isValidMove b from to g = Ok true
  <-> notOwn (color king) toPiece
      /\ exists testBoard,
           makeMove b from to = Ok testBoard
           /\ forall a, ~ attacks testBoard (opposite (currentTurn g)) a to.
Proof.
  intros Hb Hf Ht Hfrom Htype Hturn Hto Hr Hc.
  destruct (makeMove_returns b from to Hb (proj1 Hf) (proj1 Ht))
    as (testBoard & Htb & Height).
  destruct (isSquareUnderAttack_returns testBoard to
              (opposite (currentTurn g)) Height Ht) as (att & Hatt & _).
  assert (Hiff := isSquareUnderAttack_true_iff testBoard to
                    (opposite (currentTurn g)) Height Ht).
  assert (Hking : isValidKingMove b from to (row to - row from)
                    (col to - col from) g = Ok (negb att)).
  { unfold isValidKingMove.
    destruct (Z.leb_spec (Z.abs (row to - row from)) 1); [|lia].
    destruct (Z.leb_spec (Z.abs (col to - col from)) 1); [|lia].
    cbn [andb]. rewrite Htb. cbn [rbind]. rewrite Hatt. reflexivity. }
  assert (Hsafe : negb att = true
                  <-> forall a,
                        ~ attacks testBoard (opposite (currentTurn g)) a to).
  { rewrite Hatt in Hiff. destruct att; cbn [negb].
    - split; [discriminate|]. intros Hno.
      destruct (proj1 Hiff eq_refl) as (a & Ha). destruct (Hno a Ha).
    - split; [|reflexivity]. intros _ a Ha.
      assert (Ok false = Ok true) as [=]. apply Hiff. exists a. exact Ha. }
  split.
  - intros H.
    destruct (isValidMove_true_inv b from to g H)
      as (fromPiece & toPiece' & Hfrom' & Hto' & _ & Hown & _).
    rewrite Hfrom in Hfrom'. injection Hfrom' as <-.
    rewrite Hto in Hto'. injection Hto' as <-.
    split; [exact Hown|]. exists testBoard. split; [exact Htb|].
    rewrite (isValidMove_unfold b from to g king toPiece Hfrom Hto Hturn
               Hown Ht), Htype, Hking in H.
    apply Hsafe. congruence.
  - intros (Hown & testBoard' & Htb' & Hno).
    rewrite Htb in Htb'. injection Htb' as <-.
    rewrite (isValidMove_unfold b from to g king toPiece Hfrom Hto Hturn
               Hown Ht), Htype, Hking.
    f_equal. apply Hsafe. exact Hno.
Qed.

Lemma king_step_accepted_iff_witness :
  isValidMove (board cornerMate) (sq 0 7) (sq 1 7) cornerMate = Ok true
  <-> notOwn Black None
      /\ exists testBoard,
           makeMove (board cornerMate) (sq 0 7) (sq 1 7) = Ok testBoard
           /\ forall a, ~ attacks testBoard
                            (opposite (currentTurn cornerMate)) a (sq 1 7).
Proof.
  apply (king_step_accepted_iff (board cornerMate) (sq 0 7) (sq 1 7)
           cornerMate {| type := King; color := Black |} None).
  - reflexivity.
  - on_board.
  - on_board.
  - reflexivity.
  - reflexivity.
  - reflexivity.
  - reflexivity.
  - cbn [row sq]. lia.
  - cbn [col sq]. lia.
Defined.

(** X14.  For a rook, bishop, knight or queen of the side to move,
    attacking and moving coincide: on every square that holds no piece
    of its own colour, [canPieceAttackSquare] and [isValidMove] give the
    same answer. *)
Theorem attack_agrees_with_move
    (b : Board) (from to : Square) (g : GameState) (piece : Piece)
    (toPiece : option Piece) :
  eightRows b -> onBoard from -> onBoard to ->
  at_ b from = Ok (Some piece) ->
  type piece <> Pawn -> type piece <> King ->
  color piece = currentTurn g ->
  at_ b to = Ok toPiece ->
  notOwn (color piece) toPiece ->
  canPieceAttackSquare b from to piece = isValidMove b from to g.
Proof.
  intros Hb Hf Ht Hfrom Hpawn Hking Hturn Hto Hown.
  rewrite (isValidMove_unfold b from to g piece toPiece Hfrom Hto Hturn
             Hown Ht).
  assert (Hne : ~ (row to - row from = 0 /\ col to - col from = 0)).
  { intros [Hr Hc].
    assert (to = from) as ->
      by (destruct to as [r1 c1], from as [r2 c2]; cbn [row col] in *;
          f_equal; lia).
    rewrite Hfrom in Hto. injection Hto as <-.
    apply (Hown piece); reflexivity. }
  unfold canPieceAttackSquare, isValidRookMove, isValidBishopMove,
    isValidQueenMove, isValidRookMove, isValidBishopMove.
  destruct (type piece); try congruence.
  - (* queen *)
    destruct (Z.eqb_spec (row to - row from) 0) as [Hr|Hr];
      destruct (Z.eqb_spec (col to - col from) 0) as [Hc|Hc];
      destruct (Z.eqb_spec (Z.abs (row to - row from))
                  (Z.abs (col to - col from))) as [Hd|Hd];
      cbn [negb andb orb rbind]; try lia; try tauto; try reflexivity;
      (destruct (isPathClear_returns b from to Hb Hf Ht) as (free & -> & _);
       [tauto | destruct free; reflexivity]).
  - (* rook *)
    destruct (Z.eqb_spec (row to - row from) 0);
      destruct (Z.eqb_spec (col to - col from) 0); reflexivity.
  - (* bishop *)
    destruct (Z.eqb_spec (Z.abs (row to - row from))
                (Z.abs (col to - col from))); reflexivity.
Qed.

Lemma attack_agrees_with_move_witness :
  canPieceAttackSquare (board pinnedKnight) (sq 4 3) (sq 6 4)
    {| type := Knight; color := White |}
  = isValidMove (board pinnedKnight) (sq 4 3) (sq 6 4) pinnedKnight.
Proof.
  apply (attack_agrees_with_move (board pinnedKnight) (sq 4 3) (sq 6 4)
           pinnedKnight {| type := Knight; color := White |} None).
  - reflexivity.
  - on_board.
  - on_board.
  - reflexivity.
  - discriminate.
  - discriminate.
  - reflexivity.
  - reflexivity.
  - intros k [=].
Defined.

(** ** Moving a piece on the board *)

Lemma makeMove_inv (b b' : Board) (from to : Square) :
  makeMove b from to = Ok b' ->
  exists moving b1,
    at_ b from = Ok moving
    /\ setCell b (row to) (col to) moving = Ok b1
    /\ setCell b1 (row from) (col from) None = Ok b'.
Proof.
  unfold makeMove. intros H. bind_inv H moving Hm. bind_inv H b1 Hb1.
  exists moving, b1. auto.
Qed.

(** X15.  [makeMove], the board update shared by the legality test and
    by both bots' look-ahead, writes two squares and nothing else: the
    destination receives the content of the origin, the origin is
    emptied, and every other cell reads as before.  It moves no rook on
    castling, removes no pawn on en passant and promotes nothing. *)
Theorem makeMove_writes_two_squares (b b' : Board) (from to : Square) :
  makeMove b from to = Ok b' ->
  0 <= col from -> 0 <= col to ->
  at_ b' from = Ok None
  /\ (from <> to -> at_ b' to = at_ b from)
  /\ forall r c, (r <> row from \/ c <> col from) ->
                 (r <> row to \/ c <> col to) ->
                 cell b' r c = cell b r c.
Proof.
  intros H Hcf Hct.
  destruct (makeMove_inv b b' from to H) as (moving & b1 & Hm & Hb1 & Hb').
  split; [apply (cell_setCell_eq _ _ _ _ _ Hb' Hcf)|].
  split.
  - intros Hne. unfold at_.
    rewrite (cell_setCell_ne _ _ _ _ _ _ _ Hb').
    + rewrite (cell_setCell_eq _ _ _ _ _ Hb1 Hct). symmetry. exact Hm.
    + destruct (Z.eq_dec (row to) (row from)) as [Hr|Hr]; [|left; exact Hr].
      destruct (Z.eq_dec (col to) (col from)) as [Hc|Hc]; [|right; exact Hc].
      exfalso. apply Hne.
      destruct from as [r1 c1], to as [r2 c2]. cbn [row col] in *.
      congruence.
  - intros r c Hfrom Hto.
    rewrite (cell_setCell_ne _ _ _ _ _ _ _ Hb' Hfrom).
    apply (cell_setCell_ne _ _ _ _ _ _ _ Hb1 Hto).
Qed.

Lemma makeMove_writes_two_squares_witness :
  at_ (position [(4, 2, King, White)]) (sq 4 0) = Ok None
  /\ (sq 4 0 <> sq 4 2 ->
      at_ (position [(4, 2, King, White)]) (sq 4 2)
      = at_ (position [(4, 0, King, White)]) (sq 4 0))
  /\ forall r c, (r <> row (sq 4 0) \/ c <> col (sq 4 0)) ->
                 (r <> row (sq 4 2) \/ c <> col (sq 4 2)) ->
                 cell (position [(4, 2, King, White)]) r c
                 = cell (position [(4, 0, King, White)]) r c.
Proof.
  apply (makeMove_writes_two_squares (position [(4, 0, King, White)])
           (position [(4, 2, King, White)]) (sq 4 0) (sq 4 2)).
  - reflexivity.
  - cbn [col sq]. lia.
  - cbn [col sq]. lia.
Defined.

(** ** The board after [executeMove] *)

(** X16.  For every move other than a pawn move or a king's move of two
    rows, the board of the state that [executeMove] returns is the board
    that [makeMove] computes: the game continues on the board on which
    the move was tested and on which the bots searched. *)
Theorem executeMove_board_is_makeMove
    (prevState next : GameState) (from to : Square) (piece : Piece) :
  executeMove prevState from to = Ok next ->
  at_ (board prevState) from = Ok (Some piece) ->
  type piece <> Pawn ->
  (type piece = King -> Z.abs (row to - row from) <> 2) ->
  makeMove (board prevState) from to = Ok (board next).
Proof.
  unfold executeMove. intros H Hfrom Hpawn Hking.
  bind_inv H capturedPiece Hcap.
  rewrite Hfrom in H. cbn [rbind] in H.
  assert (Hp : PieceType_eqb (type piece) Pawn = false)
    by (destruct (type piece); try reflexivity; congruence).
  assert (Hk : PieceType_eqb (type piece) King
               && (Z.abs (row to - row from) =? 2) = false).
  { destruct (type piece); try reflexivity.
    destruct (Z.eqb_spec (Z.abs (row to - row from)) 2); [|reflexivity].
    destruct Hking; auto. }
  rewrite Hp, Hk in H. cbn [andb rbind] in H.
  bind_inv H b3 Hb3. bind_inv H b4 Hb4.
  bind_inv H positionString Hps. bind_inv H inCheck Hic.
  bind_inv H hasLegalMoves Hlm.
  injection H as <-. cbn [board setGameStatus setPositionHistory].
  unfold makeMove. rewrite Hfrom. cbn [rbind]. rewrite Hb3. exact Hb4.
Qed.

Lemma executeMove_board_is_makeMove_witness :
  exists next,
    executeMove pinnedKnight (sq 4 3) (sq 6 4) = Ok next
    /\ makeMove (board pinnedKnight) (sq 4 3) (sq 6 4) = Ok (board next).
Proof.
  destruct (executeMove pinnedKnight (sq 4 3) (sq 6 4)) as [next| |] eqn:E;
    [|vm_compute in E; discriminate E..].
  exists next. split; [reflexivity|].
  apply (executeMove_board_is_makeMove pinnedKnight next (sq 4 3) (sq 6 4)
           {| type := Knight; color := White |}).
  - exact E.
  - reflexivity.
  - discriminate.
  - discriminate.
Defined.

(** X17.  When [executeMove] moves a king from its home square to the
    castling destination of a side, the new board holds the king on the
    destination, what stood on the rook's home square (the rook) on the
    square the king crossed, and nothing on the two home squares; every
    other cell reads as before. *)
Theorem executeMove_castling_moves_king_and_rook
    (prevState next : GameState) (king : Piece) (kingSide : bool) :
  executeMove prevState (kingHome (color king))
    (castlingDestination (color king) kingSide) = Ok next ->
  at_ (board prevState) (kingHome (color king)) = Ok (Some king) ->
  type king = King ->
  at_ (board next) (castlingDestination (color king) kingSide)
  = Ok (Some king)
  /\ at_ (board next) (castlingTransit (color king) kingSide)
     = at_ (board prevState) (rookHome (color king) kingSide)
  /\ at_ (board next) (kingHome (color king)) = Ok None
  /\ at_ (board next) (rookHome (color king) kingSide) = Ok None
  /\ forall r c,
       c <> homeCol (color king)
       \/ (r <> 4 /\ r <> (if kingSide then 5 else 3)
           /\ r <> (if kingSide then 6 else 2)
           /\ r <> (if kingSide then 7 else 0)) ->
       cell (board next) r c = cell (board prevState) r c.
Proof.
  unfold executeMove. intros H Hfrom Htype.
  bind_inv H capturedPiece Hcap.
  rewrite Hfrom in H. cbn [rbind] in H. rewrite Htype in H.
  cbn [PieceType_eqb andb rbind] in H.
  assert (Hcol : 0 <= homeCol (color king))
    by (destruct (color king); cbn; lia).
  unfold kingHome, castlingDestination, castlingTransit, rookHome, at_, sq
    in *.
  cbn [row col] in *.
  assert (Htwo : (Z.abs ((if kingSide then 6 else 2) - 4) =? 2) = true)
    by (destruct kingSide; reflexivity).
  rewrite Htwo in H.
  assert (Hside : ((if kingSide then 6 else 2) >? 4) = kingSide)
    by (destruct kingSide; reflexivity).
  rewrite Hside in H.
  bind_inv H cr Hcr. destruct cr as [castlingRookMove0 b2].
  bind_inv Hcr rook Hrook. bind_inv Hcr b1 Hb1. bind_inv Hcr b2' Hb2.
  injection Hcr as _ <-.
  bind_inv H b3 Hb3. bind_inv H b4 Hb4.
  cbn [rbind] in H.
  bind_inv H positionString Hps. bind_inv H inCheck Hic.
  bind_inv H hasLegalMoves Hlm.
  injection H as <-. cbn [board setGameStatus setPositionHistory].
  assert (Hto : (if kingSide then (if kingSide then 6 else 2) - 1
                 else (if kingSide then 6 else 2) + 1)
                = (if kingSide then 5 else 3))
    by (destruct kingSide; reflexivity).
  rewrite Hto in Hb1.
  repeat split.
  - rewrite (cell_setCell_ne _ _ _ _ _ _ _ Hb4)
      by (left; destruct kingSide; lia).
    apply (cell_setCell_eq _ _ _ _ _ Hb3 Hcol).
  - rewrite (cell_setCell_ne _ _ _ _ _ _ _ Hb4)
      by (left; destruct kingSide; lia).
    rewrite (cell_setCell_ne _ _ _ _ _ _ _ Hb3)
      by (left; destruct kingSide; lia).
    rewrite (cell_setCell_ne _ _ _ _ _ _ _ Hb2)
      by (left; destruct kingSide; lia).
    rewrite (cell_setCell_eq _ _ _ _ _ Hb1 Hcol). symmetry. exact Hrook.
  - apply (cell_setCell_eq _ _ _ _ _ Hb4 Hcol).
  - rewrite (cell_setCell_ne _ _ _ _ _ _ _ Hb4)
      by (left; destruct kingSide; lia).
    rewrite (cell_setCell_ne _ _ _ _ _ _ _ Hb3)
      by (left; destruct kingSide; lia).
    apply (cell_setCell_eq _ _ _ _ _ Hb2 Hcol).
  - intros r c Hother.
    rewrite (cell_setCell_ne _ _ _ _ _ _ _ Hb4) by tauto.
    rewrite (cell_setCell_ne _ _ _ _ _ _ _ Hb3) by tauto.
    rewrite (cell_setCell_ne _ _ _ _ _ _ _ Hb2) by tauto.
    apply (cell_setCell_ne _ _ _ _ _ _ _ Hb1). tauto.
Qed.

Lemma executeMove_castling_moves_king_and_rook_witness :
  exists next,
    executeMove castlingReady (sq 4 0) (sq 6 0) = Ok next
    /\ at_ (board next) (sq 6 0) = Ok (mk King White)
    /\ at_ (board next) (sq 5 0) = Ok (mk Rook White)
    /\ at_ (board next) (sq 4 0) = Ok None
    /\ at_ (board next) (sq 7 0) = Ok None.
Proof.
  destruct (executeMove castlingReady (sq 4 0) (sq 6 0)) as [next| |] eqn:E;
    [|vm_compute in E; discriminate E..].
  exists next. split; [reflexivity|].
  destruct (executeMove_castling_moves_king_and_rook castlingReady next
              {| type := King; color := White |} true E)
    as (Hking & Hrook & Hhome & Hcorner & _); try reflexivity.
  repeat split; assumption.
Defined.

Lemma setIndex_length (line : list (option Piece)) (c : Z)
    (v : option Piece) :
  c < Z.of_nat (length line) -> length (setIndex line c v) = length line.
Proof.
  intros Hc. unfold setIndex.
  destruct (Z.ltb_spec c 0); [reflexivity|].
  destruct (Z.ltb_spec c (Z.of_nat (length line))); [|lia].
  apply length_insert.
Qed.

Lemma setCell_eightByEight (b b' : Board) (r c : Z) (v : option Piece) :
  setCell b r c v = Ok b' -> c < 8 -> eightByEight b -> eightByEight b'.
Proof.
  intros H Hc [Hrows Hlines].
  apply setCell_inv in H as (Hr & line & Hline & ->).
  split; [rewrite length_insert; exact Hrows|].
  intros line' Hin.
  apply list_elem_of_In, list_elem_of_lookup in Hin as (i & Hi).
  apply index_Some_inv in Hline as [_ Hline].
  assert (Hlen : length line = 8%nat).
  { apply Hlines, list_elem_of_In, list_elem_of_lookup.
    exists (Z.to_nat r). exact Hline. }
  destruct (Nat.eq_dec i (Z.to_nat r)) as [->|Hne].
  - rewrite list_lookup_insert_eq in Hi by lia. injection Hi as <-.
    rewrite setIndex_length by lia. exact Hlen.
  - rewrite list_lookup_insert_ne in Hi by congruence.
    apply Hlines, list_elem_of_In, list_elem_of_lookup. exists i. exact Hi.
Qed.

Lemma executeMove_eightByEight (prevState next : GameState)
    (from to : Square) :
  eightByEight (board prevState) -> onBoard from -> onBoard to ->
  executeMove prevState from to = Ok next ->
  eightByEight (board next).
Proof.
  intros Hshape [_ Hfc] [_ Htc] H. unfold executeMove in H.
  bind_inv H capturedPiece Hcap. bind_inv H moving Hmov.
  destruct moving as [movingPiece|]; [|discriminate].
  bind_inv H ep Hep. destruct ep as [enPassantCapturedPiece b1].
  bind_inv H cr Hcr. destruct cr as [castlingRookMove0 b2].
  bind_inv H b3 Hb3. bind_inv H b4 Hb4. bind_inv H b5 Hb5.
  bind_inv H positionString Hps. bind_inv H inCheck Hic.
  bind_inv H hasLegalMoves Hlm.
  injection H as <-. cbn [board setGameStatus setPositionHistory].
  assert (H1 : eightByEight b1).
  { match type of Hep with
    | (if ?cond then _ else _) = _ => destruct cond
    end.
    - bind_inv Hep taken Htaken. bind_inv Hep b' Hb'.
      injection Hep as _ <-.
      apply (setCell_eightByEight _ _ _ _ _ Hb'); [lia|exact Hshape].
    - injection Hep as _ <-. exact Hshape. }
  assert (H2 : eightByEight b2).
  { match type of Hcr with
    | (if ?cond then _ else _) = _ => destruct cond
    end.
    - bind_inv Hcr rook Hrook. bind_inv Hcr b' Hb'. bind_inv Hcr b'' Hb''.
      injection Hcr as _ <-.
      apply (setCell_eightByEight _ _ _ _ _ Hb''); [lia|].
      apply (setCell_eightByEight _ _ _ _ _ Hb'); [lia|exact H1].
    - injection Hcr as _ <-. exact H1. }
  assert (H4 : eightByEight b4).
  { apply (setCell_eightByEight _ _ _ _ _ Hb4); [lia|].
    apply (setCell_eightByEight _ _ _ _ _ Hb3); [lia|exact H2]. }
  match type of Hb5 with
  | (if ?cond then _ else _) = _ => destruct cond
  end.
  - apply (setCell_eightByEight _ _ _ _ _ Hb5); [lia|exact H4].
  - injection Hb5 as <-. exact H4.
Qed.

(** X18.  [makeMove] and [executeMove] keep the shape of the board: from
    a board of eight rows of eight cells and two squares of the board,
    the board they return has eight rows of eight cells. *)
Theorem moves_keep_the_board_eight_by_eight
    (prevState : GameState) (from to : Square) :
  eightByEight (board prevState) -> onBoard from -> onBoard to ->
  (forall b', makeMove (board prevState) from to = Ok b' -> eightByEight b')
  /\ (forall next, executeMove prevState from to = Ok next ->
                   eightByEight (board next)).
Proof.
  intros Hshape [Hfr Hfc] [Htr Htc]. split.
  - intros b' H.
    destruct (makeMove_inv _ _ _ _ H) as (moving & b1 & _ & Hb1 & Hb').
    apply (setCell_eightByEight _ _ _ _ _ Hb'); [lia|].
    apply (setCell_eightByEight _ _ _ _ _ Hb1); [lia|exact Hshape].
  - intros next H.
    apply (executeMove_eightByEight prevState next from to Hshape);
      [split; lia | split; lia | exact H].
Qed.

Lemma moves_keep_the_board_eight_by_eight_witness :
  (forall b', makeMove (board openingState) (sq 4 1) (sq 4 3) = Ok b' ->
              eightByEight b')
  /\ (forall next, executeMove openingState (sq 4 1) (sq 4 3) = Ok next ->
                   eightByEight (board next)).
Proof.
  apply (moves_keep_the_board_eight_by_eight openingState (sq 4 1) (sq 4 3)).
  - split; [reflexivity|].
    intros line Hin. vm_compute in Hin.
    repeat (destruct Hin as [<-|Hin]; [reflexivity|]). destruct Hin.
  - on_board.
  - on_board.
Defined.

(** ** The state after [executeMove] *)

(** X19.  The bookkeeping of [executeMove]: the turn passes to the other
    colour, the players stay, the move history grows by one entry that
    records the move with the piece moved and the piece found on the
    destination, and the position history grows by the position string
    of the new state. *)
Theorem executeMove_records_the_move
    (prevState next : GameState) (from to : Square) :
  executeMove prevState from to = Ok next ->
  currentTurn next = opposite (currentTurn prevState)
  /\ whitePlayer next = whitePlayer prevState
  /\ blackPlayer next = blackPlayer prevState
  /\ (exists entry,
        moveHistory next = moveHistory prevState ++ [entry]
        /\ move entry = {| from := from; to := to |}
        /\ at_ (board prevState) from = Ok (piece entry)
        /\ at_ (board prevState) to = Ok (captured entry))
  /\ exists positionString,
       getBoardPositionString (board next) next = Ok positionString
       /\ positionHistory next
          = positionHistory prevState ++ [positionString].
Proof.
  unfold executeMove. intros H.
  bind_inv H capturedPiece Hcap. bind_inv H moving Hmov.
  destruct moving as [movingPiece|]; [|discriminate].
  bind_inv H ep Hep. destruct ep as [enPassantCapturedPiece b1].
  bind_inv H cr Hcr. destruct cr as [castlingRookMove0 b2].
  bind_inv H b3 Hb3. bind_inv H b4 Hb4. bind_inv H b5 Hb5.
  bind_inv H positionString Hps. bind_inv H inCheck Hic.
  bind_inv H hasLegalMoves Hlm.
  injection H as <-.
  cbn [board currentTurn whitePlayer blackPlayer moveHistory positionHistory
       setGameStatus setPositionHistory].
  repeat (split; [reflexivity|]). split.
  - eexists. split; [reflexivity|]. cbn [move piece captured]. auto.
  - exists positionString. split; [exact Hps | reflexivity].
Qed.

Lemma executeMove_records_the_move_witness :
  exists next,
    executeMove openingState (sq 4 1) (sq 4 3) = Ok next
    /\ currentTurn next = Black
    /\ length (moveHistory next) = 1%nat
    /\ length (positionHistory next) = 1%nat.
Proof.
  destruct (executeMove openingState (sq 4 1) (sq 4 3)) as [next| |] eqn:E;
    [|vm_compute in E; discriminate E..].
  exists next. split; [reflexivity|].
  destruct (executeMove_records_the_move openingState next (sq 4 1) (sq 4 3)
              E)
    as (Hturn & _ & _ & (entry & Hmoves & _) & (s & _ & Hpos)).
  split; [exact Hturn|].
  split; [rewrite Hmoves | rewrite Hpos]; reflexivity.
Defined.

Lemma calculateScore_snoc (l : list Piece) (p : Piece) :
  calculateScore (l ++ [p]) = calculateScore l + PIECE_VALUES (type p).
Proof. unfold calculateScore. rewrite foldl_app. reflexivity. Qed.

(** X20.  A capture is credited to the side that moved: when the
    destination holds a piece, [executeMove] adds it to the mover's
    captured pieces, so that [calculateScore] of the mover rises by the
    value of the piece (king 0, queen 9, rook 5, bishop and knight 3,
    pawn 1), and the other side's captured pieces stay as they are. *)
Theorem executeMove_credits_the_capture
    (prevState next : GameState) (from to : Square) (victim : Piece) :
  executeMove prevState from to = Ok next ->
  at_ (board prevState) to = Ok (Some victim) ->
  capturedBy (currentTurn prevState) next
  = capturedBy (currentTurn prevState) prevState ++ [victim]
  /\ calculateScore (capturedBy (currentTurn prevState) next)
     = calculateScore (capturedBy (currentTurn prevState) prevState)
       + PIECE_VALUES (type victim)
  /\ capturedBy (opposite (currentTurn prevState)) next
     = capturedBy (opposite (currentTurn prevState)) prevState.
Proof.
  unfold executeMove. intros H Hto.
  rewrite Hto in H. cbn [rbind] in H. bind_inv H moving Hmov.
  destruct moving as [movingPiece|]; [|discriminate].
  cbn [truthy negb] in H. rewrite andb_false_r in H. cbn [rbind] in H.
  bind_inv H cr Hcr. destruct cr as [castlingRookMove0 b2].
  bind_inv H b3 Hb3. bind_inv H b4 Hb4. bind_inv H b5 Hb5.
  bind_inv H positionString Hps. bind_inv H inCheck Hic.
  bind_inv H hasLegalMoves Hlm.
  injection H as <-.
  unfold capturedBy.
  destruct (currentTurn prevState);
    cbn [capturedWhite capturedBlack setGameStatus setPositionHistory
         opposite app];
    repeat split; try reflexivity; apply calculateScore_snoc.
Qed.

Lemma executeMove_credits_the_capture_witness :
  exists next,
    executeMove cornerMate (sq 0 7) (sq 1 6) = Ok next
    /\ calculateScore (capturedBy Black next) = 9.
Proof.
  destruct (executeMove cornerMate (sq 0 7) (sq 1 6)) as [next| |] eqn:E;
    [|vm_compute in E; discriminate E..].
  exists next. split; [reflexivity|].
  destruct (executeMove_credits_the_capture cornerMate next (sq 0 7)
              (sq 1 6) {| type := Queen; color := White |} E)
    as (_ & Hscore & _); [reflexivity|].
  exact Hscore.
Defined.

Lemma executeMove_status_inv (prevState next : GameState)
    (from to : Square) :
  executeMove prevState from to = Ok next ->
  eightRows (board prevState) ->
  eightRows (board next)
  /\ exists inCheck hasLegalMoves,
       isInCheck (board next) (currentTurn next) = Ok inCheck
       /\ hasAnyLegalMove (board next) (currentTurn next) next
          = Ok hasLegalMoves
       /\ gameStatus next
          = if inCheck && negb hasLegalMoves then Checkmate
            else if negb inCheck && negb hasLegalMoves then Stalemate
            else if isDrawByRepetition next then Draw
            else if inCheck then Check
            else Playing.
Proof.
  unfold executeMove. intros H Hrows.
  bind_inv H capturedPiece Hcap. bind_inv H moving Hmov.
  destruct moving as [movingPiece|]; [|discriminate].
  bind_inv H ep Hep. destruct ep as [enPassantCapturedPiece b1].
  bind_inv H cr Hcr. destruct cr as [castlingRookMove0 b2].
  bind_inv H b3 Hb3. bind_inv H b4 Hb4. bind_inv H b5 Hb5.
  bind_inv H positionString Hps. bind_inv H inCheck Hic.
  bind_inv H hasLegalMoves Hlm.
  injection H as <-. split.
  - cbn [board setGameStatus setPositionHistory]. unfold eightRows in *.
    assert (H1 : length b1 = 8%nat).
    { match type of Hep with
      | (if ?cond then _ else _) = _ => destruct cond
      end.
      - bind_inv Hep taken Htaken. bind_inv Hep b' Hb'.
        injection Hep as _ <-.
        rewrite (setCell_length _ _ _ _ _ Hb'). exact Hrows.
      - injection Hep as _ <-. exact Hrows. }
    assert (H2 : length b2 = 8%nat).
    { match type of Hcr with
      | (if ?cond then _ else _) = _ => destruct cond
      end.
      - bind_inv Hcr rook Hrook. bind_inv Hcr b' Hb'. bind_inv Hcr b'' Hb''.
        injection Hcr as _ <-.
        rewrite (setCell_length _ _ _ _ _ Hb''),
          (setCell_length _ _ _ _ _ Hb'). exact H1.
      - injection Hcr as _ <-. exact H1. }
    assert (H4 : length b4 = 8%nat).
    { rewrite (setCell_length _ _ _ _ _ Hb4),
        (setCell_length _ _ _ _ _ Hb3). exact H2. }
    match type of Hb5 with
    | (if ?cond then _ else _) = _ => destruct cond
    end.
    + rewrite (setCell_length _ _ _ _ _ Hb5). exact H4.
    + injection Hb5 as <-. exact H4.
  - exists inCheck, hasLegalMoves.
    split; [exact Hic|]. split; [exact Hlm | reflexivity].
Qed.

(** X21.  The status that [executeMove] sets describes the new position
    for the side to move: checkmate exactly when it is in check and has
    no legal move, stalemate exactly when it is not in check and has no
    legal move; otherwise a draw when the new position string occurs
    three times in the position history, else check or playing
    according to whether it is in check. *)
Theorem executeMove_status_reflects_the_position
    (prevState next : GameState) (from to : Square) :
  executeMove prevState from to = Ok next ->
  eightRows (board prevState) ->
  exists inCheck : bool,
    isInCheck (board next) (currentTurn next) = Ok inCheck
    /\ (gameStatus next = Checkmate
        <-> inCheck = true
            /\ forall m, ~ legalMove (board next) (currentTurn next) next m)
    /\ (gameStatus next = Stalemate
        <-> inCheck = false
            /\ forall m, ~ legalMove (board next) (currentTurn next) next m)
    /\ ((exists m, legalMove (board next) (currentTurn next) next m) ->
        gameStatus next
        = if isDrawByRepetition next then Draw
          else if inCheck then Check else Playing).
Proof.
  intros H Hrows.
  destruct (executeMove_status_inv prevState next from to H Hrows)
    as (Hnext & inCheck & hasLegalMoves & Hic & Hlm & Hstatus).
  assert (Hiff := hasAnyLegalMove_true_iff (board next) (currentTurn next)
                    next Hnext).
  rewrite Hlm in Hiff.
  assert (Hlegal : hasLegalMoves = false
                   <-> forall m,
                         ~ legalMove (board next) (currentTurn next) next m).
  { destruct hasLegalMoves.
    - split; [discriminate|]. intros Hno.
      destruct (proj1 Hiff eq_refl) as (m & Hm). destruct (Hno m Hm).
    - split; [|reflexivity]. intros _ m Hm.
      assert (Ok false = Ok true) as [=]. apply Hiff. exists m. exact Hm. }
  exists inCheck. split; [exact Hic|]. rewrite Hstatus, <- Hlegal.
  split; [|split].
  - destruct inCheck, hasLegalMoves, (isDrawByRepetition next); cbn;
      (split; [intros Hs; try discriminate Hs; split; reflexivity
              | intros [H1 H2]; try discriminate H1; try discriminate H2;
                reflexivity]).
  - destruct inCheck, hasLegalMoves, (isDrawByRepetition next); cbn;
      (split; [intros Hs; try discriminate Hs; split; reflexivity
              | intros [H1 H2]; try discriminate H1; try discriminate H2;
                reflexivity]).
  - intros (m & Hm).
    destruct hasLegalMoves;
      [|destruct (proj1 Hlegal eq_refl m Hm)].
    destruct inCheck; reflexivity.
Qed.

Lemma executeMove_status_reflects_the_position_witness :
  exists next,
    executeMove openingState (sq 4 1) (sq 4 3) = Ok next
    /\ exists inCheck : bool,
         isInCheck (board next) (currentTurn next) = Ok inCheck
         /\ (gameStatus next = Checkmate
             <-> inCheck = true
                 /\ forall m, ~ legalMove (board next) (currentTurn next)
                                  next m)
         /\ (gameStatus next = Stalemate
             <-> inCheck = false
                 /\ forall m, ~ legalMove (board next) (currentTurn next)
                                  next m)
         /\ ((exists m, legalMove (board next) (currentTurn next) next m) ->
             gameStatus next
             = if isDrawByRepetition next then Draw
               else if inCheck then Check else Playing).
Proof.
  destruct (executeMove openingState (sq 4 1) (sq 4 3)) as [next| |] eqn:E;
    [|vm_compute in E; discriminate E..].
  exists next. split; [reflexivity|].
  apply (executeMove_status_reflects_the_position openingState next
           (sq 4 1) (sq 4 3) E).
  reflexivity.
Defined.

(** ** Position strings *)

Lemma append_inj_2 (a1 a2 b1 b2 : ascii) (s t : string) :
  String a1 (String a2 s) = String b1 (String b2 t) ->
  a1 = b1 /\ a2 = b2 /\ s = t.
Proof. intros [= -> -> ->]. auto. Qed.

Lemma append_assoc (s1 s2 s3 : string) :
  (s1 +:+ s2) +:+ s3 = s1 +:+ (s2 +:+ s3).
Proof.
  induction s1 as [|a s1 IH]; [reflexivity|].
  change (String a ((s1 +:+ s2) +:+ s3) = String a (s1 +:+ (s2 +:+ s3))).
  rewrite IH. reflexivity.
Qed.

Lemma cellCode_writtenAlike (p q : option Piece) (s t : string) :
  (match p with
   | Some piece => firstChar (typeName (type piece))
                   +:+ firstChar (colorName (color piece))
   | None => "--"
   end) +:+ s
  = (match q with
     | Some piece => firstChar (typeName (type piece))
                     +:+ firstChar (colorName (color piece))
     | None => "--"
     end) +:+ t
  <-> writtenAlike p q /\ s = t.
Proof.
  destruct p as [[[] []]|], q as [[[] []]|]; cbn;
    (split;
     [intros H; apply append_inj_2 in H as (H1 & H2 & ->);
      try discriminate H1; try discriminate H2; auto
     | intros [H ->]; unfold writtenAlike in H; cbn in H;
       lazymatch type of H with
       | _ /\ _ => destruct H as [H1 H2];
                   try discriminate H1; try discriminate H2; reflexivity
       | False => destruct H
       | _ => reflexivity
       end]).
Qed.

Lemma boardString_eq_iff (b b' : Board) (l : list Square) (s s' : string) :
  boardString b l = Ok s -> boardString b' l = Ok s' ->
  forall t t',
    s +:+ t = s' +:+ t'
    <-> (forall x, In x l ->
           exists p q, at_ b x = Ok p /\ at_ b' x = Ok q /\ writtenAlike p q)
        /\ t = t'.
Proof.
  revert s s'. induction l as [|x l IH]; intros s s' Hs Hs' t t'.
  - injection Hs as <-. injection Hs' as <-. cbn. split.
    + intros H. change (t = t') in H. subst t'.
      split; [intros x []|reflexivity].
    + intros [_ ->]. reflexivity.
  - simpl in Hs, Hs'.
    bind_inv Hs p Hp. bind_inv Hs rest Hrest. injection Hs as <-.
    bind_inv Hs' q Hq. bind_inv Hs' rest' Hrest'. injection Hs' as <-.
    rewrite !append_assoc.
    rewrite cellCode_writtenAlike, (IH rest rest' Hrest Hrest' t t').
    split.
    + intros (Hpq & Hall & ->). split; [|reflexivity].
      intros y [<-|Hy]; [exists p, q; auto | apply Hall; exact Hy].
    + intros (Hall & ->).
      destruct (Hall x (or_introl eq_refl)) as (p' & q' & Hp' & Hq' & Hpq).
      rewrite Hp in Hp'. injection Hp' as <-.
      rewrite Hq in Hq'. injection Hq' as <-.
      split; [exact Hpq|]. split; [|reflexivity].
      intros y Hy. apply Hall. right. exact Hy.
Qed.

(** X22.  What repetition detection compares.  Two positions get the
    same position string exactly when the side to move and the four
    castling rights are the same and every square is written alike in
    both: empty in both, or holding pieces of one colour whose type
    names start with the same letter.  The en-passant target and the
    difference between king and knight are not part of the string. *)
Theorem position_strings_equal_iff (b b' : Board) (g g' : GameState) :
  eightRows b -> eightRows b' ->
  getBoardPositionString b g = getBoardPositionString b' g'
  <-> currentTurn g = currentTurn g'
      /\ castlingRights g = castlingRights g'
      /\ forall s, onBoard s ->
           exists p q, at_ b s = Ok p /\ at_ b' s = Ok q /\ writtenAlike p q.
Proof.
  intros Hb Hb'.
  destruct (boardString_returns b allSquares Hb (fun _ H => H))
    as (s & Hs & _).
  destruct (boardString_returns b' allSquares Hb' (fun _ H => H))
    as (s' & Hs' & _).
  unfold getBoardPositionString. rewrite Hs, Hs'. cbn [rbind].
  assert (Hsuffix : forall t t',
            Ok (s +:+ t) = Ok (s' +:+ t')
            <-> (forall x, onBoard x ->
                   exists p q, at_ b x = Ok p /\ at_ b' x = Ok q
                               /\ writtenAlike p q)
                /\ t = t').
  { intros t t'. split.
    - intros [= H].
      apply (boardString_eq_iff b b' allSquares s s' Hs Hs') in H
        as [Hall Ht].
      split; [|exact Ht]. intros x Hx. apply Hall, In_allSquares, Hx.
    - intros [Hall ->]. f_equal.
      apply (boardString_eq_iff b b' allSquares s s' Hs Hs').
      split; [|reflexivity].
      intros x Hx. apply Hall, allSquares_onBoard, Hx. }
  rewrite Hsuffix.
  destruct (castlingRights g) as [k q k' q'],
           (castlingRights g') as [k0 q0 k0' q0'].
  cbn [whiteKingSide whiteQueenSide blackKingSide blackQueenSide].
  split.
  - intros [Hall Ht]. split; [|split; [|exact Hall]].
    + destruct (currentTurn g), (currentTurn g'); try reflexivity;
        vm_compute in Ht; discriminate Ht.
    + destruct (currentTurn g), (currentTurn g'), k, q, k', q',
        k0, q0, k0', q0'; try reflexivity;
        vm_compute in Ht; discriminate Ht.
  - intros (-> & [= -> -> -> ->] & Hall). split; [exact Hall|reflexivity].
Qed.

Lemma position_strings_equal_iff_witness :
  getBoardPositionString (board pinnedKnight) pinnedKnight
  = getBoardPositionString (board cornerMate) cornerMate
  <-> currentTurn pinnedKnight = currentTurn cornerMate
      /\ castlingRights pinnedKnight = castlingRights cornerMate
      /\ forall s, onBoard s ->
           exists p q, at_ (board pinnedKnight) s = Ok p
                       /\ at_ (board cornerMate) s = Ok q
                       /\ writtenAlike p q.
Proof.
  apply (position_strings_equal_iff (board pinnedKnight) (board cornerMate)
           pinnedKnight cornerMate); reflexivity.
Defined.

(** ** The moves the bots return *)

Lemma minimax_move_In (depth : nat) (b : Board) (g : GameState)
    (alpha beta : number) (maximizingPlayer : bool) (botColor : Color)
    (r : Grok.SearchResult) (m : Move) :
  eightRows b ->
  Grok.minimax depth b g alpha beta maximizingPlayer botColor = Ok r ->
  Grok.move r = Some m ->
  legalMove b (if maximizingPlayer then botColor else opposite botColor) g m.
Proof.
  intros Hb Hr Hm.
  destruct (getLegalMoves_returns b
              (if maximizingPlayer then botColor else opposite botColor)
              g Hb) as (moves & Hmoves & _).
  apply (getLegalMoves_In_iff b _ g moves m Hb Hmoves).
  destruct (minimax_returns depth b g alpha beta maximizingPlayer botColor Hb)
    as (r' & Hr' & Hin).
  rewrite Hr in Hr'. injection Hr' as <-.
  destruct depth as [|depth].
  - simpl in Hr. bind_inv Hr evaluation He. injection Hr as <-.
    discriminate Hm.
  - destruct moves as [|first rest].
    + simpl in Hr. rewrite Hmoves in Hr. cbn [rbind] in Hr.
      bind_inv Hr check Hc.
      destruct check; injection Hr as <-; discriminate Hm.
    + destruct (Hin (first :: rest)) as (m' & Hm' & Hin');
        [discriminate | exact Hmoves | discriminate |].
      congruence.
Qed.

(** X23.  Every move a bot returns is accepted when the app checks it:
    the move the Grok bot returns, from its opening book or from its
    search, and the move the Opus bot returns pass [isValidMove] on the
    position the bot was asked about, so [worker.onmessage] hands the
    move to [executeMove] and never reports it as invalid. *)
Theorem bot_moves_pass_the_validity_check
    (Date_now : nat -> Z)
    (evaluateMaterial : Board -> Z) (evaluateKingSafety : GameState -> Z)
    (evaluateCenterControl : Board -> Z)
    (evaluatePieceActivity : GameState -> Z)
    (evaluatePawnStructure : Board -> Z)
    (evaluateTactics evaluateStrategy : GameState -> Z)
    (app : App) (botColor : Color) (second : bool) (e e' : Opus.Engine)
    (m : Move) :
  eightRows (board (gameState app)) ->
  fourKillers e ->
  Grok.makeMove (gameState app) botColor second = Ok (Some m)
  \/ Opus.makeMove Date_now evaluateMaterial evaluateKingSafety
       evaluateCenterControl evaluatePieceActivity evaluatePawnStructure
       evaluateTactics evaluateStrategy (gameState app) botColor e
     = Ok (Some m, e') ->
  isValidMove (board (gameState app)) (from m) (to m) (gameState app)
  = Ok true
  /\ worker_onmessage app true (Some m)
     = rmap (fun next =>
               {| gameState := next;
                  gameStarted := gameStarted app;
                  isProcessingBotMove := isProcessingBotMove app;
                  lastMove := Some {| from := from m; to := to m |} |})
         (executeMove (gameState app) (from m) (to m)).
Proof.
  intros Hb He Hbot.
  assert (Hvalid : isValidMove (board (gameState app)) (from m) (to m)
                     (gameState app) = Ok true).
  { destruct Hbot as [Hgrok|Hopus].
    - unfold Grok.makeMove in Hgrok.
      assert (Hsearch : forall depth,
                (found <- Grok.minimax depth (board (gameState app))
                            (gameState app) NegInfinity Infinity true
                            botColor;
                 Ok (Grok.move found)) = Ok (Some m) ->
                isValidMove (board (gameState app)) (from m) (to m)
                  (gameState app) = Ok true).
      { intros depth H. bind_inv H found Hfound. injection H as Hm.
        apply (minimax_move_In depth _ _ _ _ true botColor found m Hb
                 Hfound Hm). }
      assert (Hopening : forall m0 : Move,
                (valid <- isValidMove (board (gameState app)) (from m0)
                            (to m0) (gameState app);
                 if valid then Ok (Some m0)
                 else found <- Grok.minimax
                                 (if Z.of_nat
                                       (length (moveHistory (gameState app)))
                                     <? 10
                                  then 3%nat else 4%nat)
                                 (board (gameState app)) (gameState app)
                                 NegInfinity Infinity true botColor;
                      Ok (Grok.move found)) = Ok (Some m) ->
                isValidMove (board (gameState app)) (from m) (to m)
                  (gameState app) = Ok true).
      { intros m0 H. bind_inv H valid Hv. destruct valid.
        - injection H as <-. exact Hv.
        - apply (Hsearch _ H). }
      destruct (Z.of_nat (length (moveHistory (gameState app))) <? 2);
        [|apply (Hsearch _ Hgrok)].
      destruct botColor;
        match type of Hgrok with
        | context [if ?c then Some _ else None] => destruct c
        end; try apply (Hsearch _ Hgrok);
        cbv zeta in Hgrok; apply (Hopening _ Hgrok).
    - destruct (generateLegalMoves_returns (gameState app) botColor Hb)
        as (moves & Hmoves & _).
      assert (Hin : In m moves).
      { destruct moves as [|first rest].
        - assert (Hnull := Opus_makeMove_returns_null Date_now
                    evaluateMaterial evaluateKingSafety evaluateCenterControl
                    evaluatePieceActivity evaluatePawnStructure
                    evaluateTactics evaluateStrategy (gameState app) botColor
                    e Hmoves).
          rewrite Hopus in Hnull. discriminate Hnull.
        - destruct (Opus_makeMove_returns_move Date_now
                      evaluateMaterial evaluateKingSafety
                      evaluateCenterControl evaluatePieceActivity
                      evaluatePawnStructure evaluateTactics evaluateStrategy
                      (gameState app) botColor e (first :: rest) Hb He Hmoves)
            as (m' & e'' & Hm' & Hin'); [discriminate|].
          rewrite Hopus in Hm'. injection Hm' as <- _. exact Hin'. }
      apply (getLegalMoves_In_iff _ _ _ moves m Hb Hmoves) in Hin.
      apply Hin. }
  split; [exact Hvalid|].
  unfold worker_onmessage. rewrite Hvalid. cbn [rbind].
  destruct (executeMove _ _ _); reflexivity.
Qed.

Lemma bot_moves_pass_the_validity_check_witness :
  isValidMove (board kinglessWhite) (sq 0 0) (sq 0 7) kinglessWhite = Ok true
  /\ worker_onmessage (started kinglessWhite) true (Some (mv 0 0 0 7))
     = rmap (fun next =>
               {| gameState := next;
                  gameStarted := true;
                  isProcessingBotMove := false;
                  lastMove := Some (mv 0 0 0 7) |})
         (executeMove kinglessWhite (sq 0 0) (sq 0 7)).
Proof.
  apply (bot_moves_pass_the_validity_check slowClock zeroTerm zeroTerm
           zeroTerm zeroTerm zeroTerm zeroTerm zeroTerm
           (started kinglessWhite) White false Opus.freshEngine
           Opus.freshEngine (mv 0 0 0 7)).
  - reflexivity.
  - reflexivity.
  - left. vm_compute. reflexivity.
Defined.

(** X24.  The opening book of the Grok bot names its pawns by squares
    (1, 3), (1, 4), (6, 3) and (6, 4).  Whenever these four squares are
    empty, as they are on the initial board, whose pawns stand on
    columns 1 and 6, [isValidMove] rejects the book move and the bot
    returns the move of its search. *)
Theorem Grok_opening_book_needs_its_squares_occupied
    (g : GameState) (botColor : Color) (second : bool) :
  eightRows (board g) ->
  (forall r c, r = 1 \/ r = 6 -> c = 3 \/ c = 4 ->
               cell (board g) r c = Ok None) ->
  Grok.makeMove g botColor second
  = (found <- Grok.minimax
                (if Z.of_nat (length (moveHistory g)) <? 10
                 then 3%nat else 4%nat)
                (board g) g NegInfinity Infinity true botColor;
     Ok (Grok.move found)).
Proof.
  intros Hb Hempty. unfold Grok.makeMove.
  assert (Hreject : forall r c r' c',
            r = 1 \/ r = 6 -> c = 3 \/ c = 4 -> 0 <= r' < 8 ->
            isValidMove (board g) (sq r c) (sq r' c') g = Ok false).
  { intros r c r' c' Hr Hc Hr'. unfold isValidMove, at_, sq.
    cbn [row col]. rewrite (Hempty r c Hr Hc). cbn [rbind].
    destruct (cell_returns (board g) r' c' Hb Hr') as (p & -> & _).
    reflexivity. }
  destruct (Z.of_nat (length (moveHistory g)) <? 2); [|reflexivity].
  destruct botColor;
    match goal with
    | |- context [if ?c then Some _ else None] => destruct c
    end; try reflexivity; cbv zeta;
    destruct second; unfold Grok.mv; cbn [from to];
    (rewrite (Hreject _ _ _ _) by lia); reflexivity.
Qed.

Lemma Grok_opening_book_needs_its_squares_occupied_witness :
  Grok.makeMove openingState White true
  = (found <- Grok.minimax 3 createInitialBoard openingState NegInfinity
                Infinity true White;
     Ok (Grok.move found)).
Proof.
  apply (Grok_opening_book_needs_its_squares_occupied openingState White
           true).
  - reflexivity.
  - intros r c [-> | ->] [-> | ->]; reflexivity.
Defined.

(** ** The Opus bot at the root *)

Lemma insertByScore_Permutation (x : Move * Z) (l : list (Move * Z)) :
  Opus.insertByScore x l ≡ₚ x :: l.
Proof.
  induction l as [|y l IH]; simpl; [reflexivity|].
  destruct (snd x <? snd y); [|reflexivity].
  rewrite IH. apply Permutation_swap.
Qed.

Lemma sortByScore_Permutation (l : list (Move * Z)) :
  Opus.sortByScore l ≡ₚ l.
Proof.
  unfold Opus.sortByScore. induction l as [|x l IH]; simpl; [reflexivity|].
  rewrite insertByScore_Permutation, IH. reflexivity.
Qed.

Lemma mapResult_fst {A B} (f : A -> result (A * B)) (l : list A)
    (ys : list (A * B)) :
  (forall x y, f x = Ok y -> fst y = x) ->
  Opus.mapResult f l = Ok ys -> map fst ys = l.
Proof.
  intros Hf. revert ys. induction l as [|x l IH]; intros ys H; simpl in H.
  - injection H as <-. reflexivity.
  - bind_inv H y Hy. bind_inv H rest Hrest. injection H as <-.
    simpl. rewrite (Hf x y Hy), (IH rest Hrest). reflexivity.
Qed.

(** X25.  Move ordering only reorders: from an engine with its killer
    table, [orderMoves] returns a permutation of the moves it was given,
    so that the searches that loop over the ordered list visit every
    move once. *)
Theorem orderMoves_returns_a_permutation
    (e : Opus.Engine) (moves : list Move) (g : GameState) (depth : Z) :
  fourKillers e -> eightRows (board g) -> 0 <= depth ->
  List.Forall (movesAPiece (board g)) moves ->
  exists ordered,
    Opus.orderMoves e moves g depth = Ok ordered /\ ordered ≡ₚ moves.
Proof.
  intros He Hb Hd Hmoves.
  destruct (orderMoves_returns e moves g depth He Hb Hd Hmoves)
    as (ordered & Hordered & _).
  exists ordered. split; [exact Hordered|].
  unfold Opus.orderMoves in Hordered.
  bind_inv Hordered scoredMoves Hscored. injection Hordered as <-.
  rewrite sortByScore_Permutation.
  erewrite mapResult_fst; [reflexivity| |exact Hscored].
  intros m y Hy. cbv beta in Hy.
  bind_inv Hy fromP HfromP. bind_inv Hy toP HtoP.
  bind_inv Hy s1 Hs1. bind_inv Hy s2 Hs2.
  destruct fromP as [fromPiece|]; [|discriminate].
  injection Hy as <-. reflexivity.
Qed.

Lemma orderMoves_returns_a_permutation_witness :
  exists ordered,
    Opus.orderMoves Opus.freshEngine [mv 4 3 6 4; mv 4 3 4 7] pinnedKnight 1
    = Ok ordered
    /\ ordered ≡ₚ [mv 4 3 6 4; mv 4 3 4 7].
Proof.
  apply (orderMoves_returns_a_permutation Opus.freshEngine
           [mv 4 3 6 4; mv 4 3 4 7] pinnedKnight 1).
  - reflexivity.
  - reflexivity.
  - lia.
  - repeat constructor; try (cbn; lia);
      exists {| type := Knight; color := White |}; reflexivity.
Defined.

Lemma immediateCheckmate_finds (g : GameState) (moves : list Move) :
  eightRows (board g) -> List.Forall (movesAPiece (board g)) moves ->
  (exists m, In m moves /\ matesInOne g m) ->
  exists m, Opus.immediateCheckmate g moves = Ok (Some m)
            /\ In m moves /\ matesInOne g m.
Proof.
  intros Hb. induction 1 as [|x moves Hx _ IH]; intros (m & Hin & Hmate);
    [destruct Hin|].
  simpl.
  destruct (applyMove_returns g x Hb Hx) as (testState & Hts & Hrows).
  destruct (Opus_isCheckmate_returns testState Hrows) as (mate & Hm & _).
  rewrite Hts. cbn [rbind]. rewrite Hm. cbn [rbind].
  destruct mate.
  - exists x. split; [reflexivity|]. split; [left; reflexivity|].
    exists testState. auto.
  - destruct IH as (m' & Hfind & Hin' & Hmate').
    + exists m. split; [|exact Hmate].
      destruct Hin as [<-|Hin]; [|exact Hin].
      destruct Hmate as (ts & Hts' & Hmate). congruence.
    + exists m'. split; [exact Hfind|]. split; [right; exact Hin'|exact Hmate'].
Qed.

(** X26.  A mate in one is played.  When one of the legal moves of its
    colour checkmates, the Opus bot returns a legal move that
    checkmates, whatever the clock, the evaluation terms and the engine
    state are: the test comes before the search and does not depend on
    them. *)
Theorem Opus_makeMove_plays_a_mate_in_one
    (Date_now : nat -> Z)
    (evaluateMaterial : Board -> Z) (evaluateKingSafety : GameState -> Z)
    (evaluateCenterControl : Board -> Z)
    (evaluatePieceActivity : GameState -> Z)
    (evaluatePawnStructure : Board -> Z)
    (evaluateTactics evaluateStrategy : GameState -> Z)
    (g : GameState) (botColor : Color) (e : Opus.Engine) (mate : Move) :
  eightRows (board g) ->
  legalMove (board g) botColor g mate ->
  matesInOne g mate ->
  exists m,
    rmap fst
      (Opus.makeMove Date_now evaluateMaterial evaluateKingSafety
         evaluateCenterControl evaluatePieceActivity evaluatePawnStructure
         evaluateTactics evaluateStrategy g botColor e)
    = Ok (Some m)
    /\ legalMove (board g) botColor g m
    /\ matesInOne g m.
Proof.
  intros Hb Hlegal Hmate.
  destruct (generateLegalMoves_returns g botColor Hb)
    as (moves & Hmoves & Hall).
  assert (Hin : In mate moves)
    by (apply (getLegalMoves_In_iff _ _ _ moves mate Hb Hmoves); exact Hlegal).
  unfold Opus.makeMove, Opus.bind, Opus.now, Opus.clearOldTranspositions,
    Opus.lift, rmap.
  cbn [Opus.getOpeningBookMove]. rewrite Hmoves.
  destruct moves as [|first [|second rest]]; [destruct Hin| |].
  - destruct Hin as [<-|[]]. exists first. split; [reflexivity|]. auto.
  - destruct (immediateCheckmate_finds g (first :: second :: rest) Hb Hall)
      as (m & Hfind & Hin' & Hmate'); [exists mate; auto|].
    rewrite Hfind. exists m. split; [reflexivity|].
    split; [|exact Hmate'].
    apply (getLegalMoves_In_iff _ _ _ _ m Hb Hmoves). exact Hin'.
Qed.

Lemma Opus_makeMove_plays_a_mate_in_one_witness :
  exists m,
    rmap fst
      (Opus.makeMove slowClock zeroTerm zeroTerm zeroTerm zeroTerm zeroTerm
         zeroTerm zeroTerm queenBeforeMate White Opus.freshEngine)
    = Ok (Some m)
    /\ legalMove (board queenBeforeMate) White queenBeforeMate m
    /\ matesInOne queenBeforeMate m.
Proof.
  apply (Opus_makeMove_plays_a_mate_in_one slowClock zeroTerm zeroTerm
           zeroTerm zeroTerm zeroTerm zeroTerm zeroTerm queenBeforeMate
           White Opus.freshEngine (mv 1 0 1 6)).
  - reflexivity.
  - split; [unfold onBoard, mv, sq; cbn [from to row col]; lia|].
    split; [unfold onBoard, mv, sq; cbn [from to row col]; lia|].
    split; [exists {| type := Queen; color := White |}; split; reflexivity|].
    split; [vm_compute; reflexivity|].
    eexists. split; [vm_compute; reflexivity|]. vm_compute. reflexivity.
  - eexists. split; [vm_compute; reflexivity|]. vm_compute. reflexivity.
Defined.

(** ** The key of the transposition table *)

(** X27.  The key under which the Opus bot caches a position.  Two
    states get the same [hashPosition] exactly when the side to move is
    the same and every square is written alike on both boards; castling
    rights, the en-passant target and the difference between king and
    knight do not enter the key, so states that differ only in these
    share one entry of the transposition table. *)
Theorem hashPosition_equal_iff (g g' : GameState) :
  eightRows (board g) -> eightRows (board g') ->
  Opus.hashPosition g = Opus.hashPosition g'
  <-> currentTurn g = currentTurn g'
      /\ forall s, onBoard s ->
           exists p q, at_ (board g) s = Ok p /\ at_ (board g') s = Ok q
                       /\ writtenAlike p q.
Proof.
  intros Hb Hb'.
  destruct (boardString_returns (board g) allSquares Hb (fun _ H => H))
    as (s & Hs & _).
  destruct (boardString_returns (board g') allSquares Hb' (fun _ H => H))
    as (s' & Hs' & _).
  unfold Opus.hashPosition. rewrite Hs, Hs'. cbn [rbind].
  split.
  - intros [= H].
    apply (boardString_eq_iff _ _ allSquares s s' Hs Hs') in H as [Hall Ht].
    split.
    + destruct (currentTurn g), (currentTurn g'); try reflexivity;
        vm_compute in Ht; discriminate Ht.
    + intros x Hx. apply Hall, In_allSquares, Hx.
  - intros [Hturn Hall]. f_equal.
    apply (boardString_eq_iff _ _ allSquares s s' Hs Hs').
    split; [|rewrite Hturn; reflexivity].
    intros x Hx. apply Hall, allSquares_onBoard, Hx.
Qed.

Lemma hashPosition_equal_iff_witness :
  Opus.hashPosition castlingReady
  = Opus.hashPosition
      (stateOf (board castlingReady) White noCastling (Some (sq 3 3)))
  <-> currentTurn castlingReady
      = currentTurn
          (stateOf (board castlingReady) White noCastling (Some (sq 3 3)))
      /\ forall s, onBoard s ->
           exists p q,
             at_ (board castlingReady) s = Ok p
             /\ at_ (board (stateOf (board castlingReady) White noCastling
                              (Some (sq 3 3)))) s = Ok q
             /\ writtenAlike p q.
Proof.
  apply (hashPosition_equal_iff castlingReady
           (stateOf (board castlingReady) White noCastling (Some (sq 3 3))));
    reflexivity.
Defined.

(** ** Invariants of a game *)

Lemma executeMove_histories (prevState next : GameState)
    (from to : Square) :
  executeMove prevState from to = Ok next ->
  currentTurn next = opposite (currentTurn prevState)
  /\ length (moveHistory next) = S (length (moveHistory prevState))
  /\ length (positionHistory next) = S (length (positionHistory prevState)).
Proof.
  unfold executeMove. intros H.
  bind_inv H capturedPiece Hcap. bind_inv H moving Hmov.
  destruct moving as [movingPiece|]; [|discriminate].
  bind_inv H ep Hep. destruct ep as [enPassantCapturedPiece b1].
  bind_inv H cr Hcr. destruct cr as [castlingRookMove0 b2].
  bind_inv H b3 Hb3. bind_inv H b4 Hb4. bind_inv H b5 Hb5.
  bind_inv H positionString Hps. bind_inv H inCheck Hic.
  bind_inv H hasLegalMoves Hlm.
  injection H as <-.
  cbn [currentTurn moveHistory positionHistory setGameStatus
       setPositionHistory].
  rewrite !length_app. cbn [length]. repeat split; lia.
Qed.

Lemma handleMove_inv (app app' : App) (from to : Square) :
  handleMove app from to = Ok app' ->
  app' = app
  \/ exists next, executeMove (gameState app) from to = Ok next
                  /\ gameState app' = next.
Proof.
  unfold handleMove. intros H.
  destruct (negb (gameStarted app)); [left; congruence|].
  destruct (isProcessingBotMove app); [left; congruence|].
  destruct (negb (String.eqb _ "human")); [left; congruence|].
  bind_inv H valid Hvalid.
  destruct valid; cbn [negb] in H; [|left; congruence].
  bind_inv H next Hnext. injection H as <-.
  right. exists next. split; [exact Hnext | reflexivity].
Qed.

Lemma worker_onmessage_inv (app app' : App) (success : bool)
    (move : option Move) :
  worker_onmessage app success move = Ok app' ->
  app' = app
  \/ exists m next, move = Some m
                    /\ executeMove (gameState app) (from m) (to m) = Ok next
                    /\ gameState app' = next.
Proof.
  unfold worker_onmessage. intros H.
  destruct success; [|left; congruence].
  destruct move as [m|]; [|left; congruence].
  bind_inv H valid Hvalid.
  destruct valid; [|left; congruence].
  bind_inv H next Hnext. injection H as <-.
  right. exists m, next. auto.
Qed.

(** X28.  Invariants of a started game.  In every state the app reaches
    from the start by moves made on the board and by messages from the
    bots' workers, the board has eight rows of eight cells, the position
    history has one string per move of the move history, and it is
    White's turn exactly when the number of moves made is even. *)
Theorem reachable_states_are_well_formed (app : App) :
  reachable app ->
  eightByEight (board (gameState app))
  /\ length (positionHistory (gameState app))
     = length (moveHistory (gameState app))
  /\ currentTurn (gameState app)
     = if Nat.even (length (moveHistory (gameState app)))
       then White else Black.
Proof.
  assert (Hstep : forall g next from to,
            onBoard from -> onBoard to ->
            executeMove g from to = Ok next ->
            eightByEight (board g)
            /\ length (positionHistory g) = length (moveHistory g)
            /\ currentTurn g
               = (if Nat.even (length (moveHistory g))
                  then White else Black) ->
            eightByEight (board next)
            /\ length (positionHistory next) = length (moveHistory next)
            /\ currentTurn next
               = (if Nat.even (length (moveHistory next))
                  then White else Black)).
  { intros g next from to Hf Ht Hexec (Hshape & Hlen & Hturn).
    destruct (executeMove_histories g next from to Hexec)
      as (Hturn' & Hmoves & Hpos).
    split; [apply (executeMove_eightByEight g next from to); assumption|].
    split; [congruence|].
    rewrite Hturn', Hturn, Hmoves, Nat.even_succ, <- Nat.negb_even.
    destruct (Nat.even (length (moveHistory g))); reflexivity. }
  induction 1 as [white black
                 |app app' from to _ IH Hf Ht Hmove
                 |app app' success move _ IH Hsq Hmsg].
  - split; [|split; reflexivity].
    split; [reflexivity|].
    intros line Hin. vm_compute in Hin.
    repeat (destruct Hin as [<-|Hin]; [reflexivity|]). destruct Hin.
  - destruct (handleMove_inv app app' from to Hmove)
      as [->|(next & Hexec & ->)]; [exact IH|].
    apply (Hstep (gameState app) next from to Hf Ht Hexec IH).
  - destruct (worker_onmessage_inv app app' success move Hmsg)
      as [->|(m & next & -> & Hexec & ->)]; [exact IH|].
    destruct (Hsq m eq_refl) as [Hf Ht].
    apply (Hstep (gameState app) next (from m) (to m) Hf Ht Hexec IH).
Qed.

Lemma reachable_states_are_well_formed_witness :
  exists app,
    handleMove newGame (sq 4 1) (sq 4 3) = Ok app
    /\ eightByEight (board (gameState app))
    /\ length (positionHistory (gameState app))
       = length (moveHistory (gameState app))
    /\ currentTurn (gameState app)
       = if Nat.even (length (moveHistory (gameState app)))
         then White else Black.
Proof.
  destruct (handleMove newGame (sq 4 1) (sq 4 3)) as [app| |] eqn:E;
    [|vm_compute in E; discriminate E..].
  exists app. split; [reflexivity|].
  apply (reachable_states_are_well_formed app).
  apply (reachable_handleMove newGame app (sq 4 1) (sq 4 3)).
  - apply (reachable_start "human" "human").
  - on_board.
  - on_board.
  - exact E.
Defined.

(** ** The static evaluation of the Grok bot *)

Lemma evaluateBoard_loop_sum (b : Board) (l : list Square) (score : Z) :
  eightRows b -> (forall s, In s l -> In s allSquares) ->
  Grok.evaluateBoard_loop b score l
  = Ok (score + sumZ (map (fun s => squareScore (cellAt b s) s) l)).
Proof.
  intros Hb. revert score. induction l as [|s l IH]; intros score Hl.
  - cbn. f_equal. lia.
  - cbn [Grok.evaluateBoard_loop map sumZ foldr]. fold (sumZ
      (map (fun s0 => squareScore (cellAt b s0) s0) l)).
    destruct (at_returns b s Hb (Hl s (or_introl eq_refl))) as (p & Hp & _).
    unfold cellAt at 1. rewrite Hp. cbn [rbind].
    assert (Hl' : forall s', In s' l -> In s' allSquares)
      by (intros s' Hs'; apply Hl; right; exact Hs').
    destruct p as [piece|]; rewrite (IH _ Hl'); apply (f_equal Ok);
      unfold squareScore; [destruct (color piece)|]; lia.
Qed.

Lemma sumZ_flipRow (f : Square -> Z) :
  sumZ (map (fun s => f (flipRow s)) allSquares) = sumZ (map f allSquares).
Proof.
  rewrite <- (map_map flipRow f).
  set (l := map flipRow allSquares). vm_compute in l. subst l.
  set (l := allSquares). vm_compute in l. subst l.
  cbn [map sumZ foldr]. lia.
Qed.

Lemma sumZ_ext (f g : Square -> Z) (l : list Square) :
  (forall s, In s l -> f s = g s) -> sumZ (map f l) = sumZ (map g l).
Proof.
  induction l as [|s l IH]; intros H; [reflexivity|].
  cbn [map sumZ foldr]. fold (sumZ (map f l)) (sumZ (map g l)).
  rewrite (H s (or_introl eq_refl)), IH; [reflexivity|].
  intros s' Hs'. apply H. right. exact Hs'.
Qed.

Lemma sumZ_opp (f : Square -> Z) (l : list Square) :
  sumZ (map (fun s => - f s) l) = - sumZ (map f l).
Proof.
  induction l as [|s l IH]; [reflexivity|].
  cbn [map sumZ foldr]. fold (sumZ (map f l))
    (sumZ (map (fun s0 => - f s0) l)).
  rewrite IH. lia.
Qed.

Lemma cellAt_mirror (b : Board) (s : Square) :
  eightRows b -> onBoard s ->
  cellAt (mirror b) s = swapColors (cellAt b (flipRow s)).
Proof.
  intros Hb [Hr Hc]. unfold eightRows in Hb.
  unfold cellAt, at_, cell, mirror, flipRow, sq. cbn [row col].
  rewrite !index_in_range by lia.
  rewrite reverse_lookup by (rewrite length_map; lia).
  rewrite length_map, Hb, list_lookup_fmap.
  replace (8 - S (Z.to_nat (row s)))%nat with (Z.to_nat (7 - row s)) by lia.
  destruct (b !! Z.to_nat (7 - row s)) as [line|] eqn:E.
  - cbn [fmap option_fmap option_map]. unfold index.
    destruct (col s <? 0); [reflexivity|].
    rewrite list_lookup_fmap.
    destruct (line !! Z.to_nat (col s)) as [p|]; reflexivity.
  - apply lookup_ge_None_1 in E. lia.
Qed.

Lemma squareScore_swapColors (p : option Piece) (s : Square) :
  squareScore (swapColors p) s = - squareScore p (flipRow s).
Proof.
  destruct p as [[t c]|]; [|reflexivity].
  unfold squareScore, swapColors, flipRow, sq. cbn [type color row col].
  replace (7 - (7 - row s)) with (row s) by lia.
  destruct c; cbn [opposite]; lia.
Qed.

(** X29.  The Grok bot's static evaluation is antisymmetric under its
    own mirror: reversing the order of the rows and exchanging the
    colours of all pieces negates the score.  The tables are mirrored
    along the rows, while the two sides of this board face each other
    along the columns. *)
Theorem evaluateBoard_negated_by_mirror (b : Board) :
  eightRows b ->
  exists score,
    Grok.evaluateBoard b = Ok score
    /\ Grok.evaluateBoard (mirror b) = Ok (- score).
Proof.
  intros Hb.
  assert (Hb' : eightRows (mirror b)).
  { unfold eightRows, mirror in *. rewrite length_reverse, length_map.
    exact Hb. }
  unfold Grok.evaluateBoard.
  rewrite (evaluateBoard_loop_sum b allSquares 0 Hb (fun _ H => H)),
    (evaluateBoard_loop_sum (mirror b) allSquares 0 Hb' (fun _ H => H)).
  eexists. split; [reflexivity|]. f_equal.
  rewrite (sumZ_ext _ (fun s => - squareScore (cellAt b (flipRow s))
                                    (flipRow s))).
  - rewrite sumZ_opp,
      (sumZ_flipRow (fun s => squareScore (cellAt b s) s)).
    lia.
  - intros s Hs. rewrite cellAt_mirror, squareScore_swapColors;
      [reflexivity | exact Hb | apply allSquares_onBoard; exact Hs].
Qed.

Lemma evaluateBoard_negated_by_mirror_witness :
  exists score,
    Grok.evaluateBoard (board pawnOnSeventh) = Ok score
    /\ Grok.evaluateBoard (mirror (board pawnOnSeventh)) = Ok (- score).
Proof.
  apply (evaluateBoard_negated_by_mirror (board pawnOnSeventh)).
  reflexivity.
Defined.

(** ** The search of the Opus bot below the root *)

(** X30.  [alphaBeta] tests [isCheckmate] and [isDraw] before it
    generates moves.  Whenever both answer [false], the side to move has
    a legal move and [generateLegalMoves] lists it: the branch of
    [alphaBeta] for an empty move list is never taken. *)
Theorem alphaBeta_move_list_is_not_empty (g : GameState) :
  eightRows (board g) ->
  Opus.isCheckmate g = Ok false ->
  Opus.isDraw g = Ok false ->
  exists m moves,
    Opus.generateLegalMoves g (currentTurn g) = Ok moves /\ In m moves.
Proof.
  intros Hb Hmate Hdraw.
  destruct (isInCheck_returns (board g) (currentTurn g) Hb)
    as (check & Hcheck & _).
  destruct (hasAnyLegalMove_returns (board g) (currentTurn g) g Hb)
    as (legal & Hlegal & _).
  assert (Htrue : legal = true).
  { unfold Opus.isCheckmate in Hmate. unfold Opus.isDraw in Hdraw.
    rewrite Hcheck in Hmate, Hdraw. cbn [rbind] in Hmate, Hdraw.
    destruct check; cbn [negb rbind] in Hmate, Hdraw.
    - rewrite Hlegal in Hmate. cbn [rbind] in Hmate.
      destruct legal; [reflexivity | discriminate Hmate].
    - rewrite Hlegal in Hdraw. cbn [rbind] in Hdraw.
      destruct legal; [reflexivity | discriminate Hdraw]. }
  subst legal.
  apply (hasAnyLegalMove_true_iff _ _ _ Hb) in Hlegal as (m & Hm).
  destruct (generateLegalMoves_returns g (currentTurn g) Hb)
    as (moves & Hmoves & _).
  exists m, moves. split; [exact Hmoves|].
  apply (getLegalMoves_In_iff _ _ _ moves m Hb Hmoves). exact Hm.
Qed.

Lemma alphaBeta_move_list_is_not_empty_witness :
  exists m moves,
    Opus.generateLegalMoves queenBeforeMate (currentTurn queenBeforeMate)
    = Ok moves
    /\ In m moves.
Proof.
  apply (alphaBeta_move_list_is_not_empty queenBeforeMate).
  - reflexivity.
  - vm_compute. reflexivity.
  - vm_compute. reflexivity.
Defined.
